(** * Server-Sent Events manager: a shallow embedding of [sse-manager.ts]

    The registry ([SSEManager]) keeps a JavaScript [Map] from client id to
    client object, writes SSE frames to the clients' response objects and
    keeps two Prisma tables ([SSESession], [SSESubscription]) loosely in
    sync.  The embedding below follows the class method by method:

    - the [Map] is an association list in insertion order with the
      operations [Map.get], [Map.set] and [Map.delete];
    - the response objects, the database and the clock are the environment:
      whether a call on them throws (and what time it is) is decided by an
      oracle that sees the whole history of observable events so far;
    - every method is a computation in a small state-and-exception monad
      [JS], with [try_catch] standing for [try { ... } catch (err) { ... }];
      a rejected promise of an [async] method is the completion [Thrown].

    Each operation runs to completion before the next one starts.  The one
    call the class starts without awaiting it, the [removeClient] of the
    session cleanup, stays pending while the callback goes on, and runs
    piece by piece as a schedule says; the operation ends when all its
    pending calls have ended. *)

From Stdlib Require Import String Ascii ZArith List Bool Lia DecimalString.
Import ListNotations.
Local Open Scope string_scope.
Local Open Scope Z_scope.

(* ------------------------------------------------------------------ *)
(** ** Text helpers: line feed, double quote, JSON.stringify           *)
(* ------------------------------------------------------------------ *)

Module Text.

Definition LF : string := String "010"%char EmptyString.
Definition DQUOTE : string := String "034"%char EmptyString.
Definition BACKSLASH : string := String "092"%char EmptyString.

Fixpoint join (sep : string) (l : list string) : string :=
  match l with
  | [] => EmptyString
  | [x] => x
  | x :: rest => x ++ sep ++ join sep rest
  end.

Definition hex_digit (n : nat) : string :=
  match n with
  | 0%nat => "0" | 1%nat => "1" | 2%nat => "2" | 3%nat => "3"
  | 4%nat => "4" | 5%nat => "5" | 6%nat => "6" | 7%nat => "7"
  | 8%nat => "8" | 9%nat => "9" | 10%nat => "a" | 11%nat => "b"
  | 12%nat => "c" | 13%nat => "d" | 14%nat => "e" | _ => "f"
  end.

(** One code unit of ECMAScript's QuoteJSONString. *)
Definition quote_char (c : ascii) : string :=
  let n := nat_of_ascii c in
  if Nat.eqb n 34 then BACKSLASH ++ DQUOTE
  else if Nat.eqb n 92 then BACKSLASH ++ BACKSLASH
  else if Nat.eqb n 8 then BACKSLASH ++ "b"
  else if Nat.eqb n 12 then BACKSLASH ++ "f"
  else if Nat.eqb n 10 then BACKSLASH ++ "n"
  else if Nat.eqb n 13 then BACKSLASH ++ "r"
  else if Nat.eqb n 9 then BACKSLASH ++ "t"
  else if Nat.ltb n 32 then
    BACKSLASH ++ "u00" ++ hex_digit (n / 16) ++ hex_digit (n mod 16)
  else String c EmptyString.

Fixpoint quote_body (s : string) : string :=
  match s with
  | EmptyString => EmptyString
  | String c rest => quote_char c ++ quote_body rest
  end.

Definition quote (s : string) : string := DQUOTE ++ quote_body s ++ DQUOTE.

Definition string_of_Z (z : Z) : string :=
  NilZero.string_of_int (Z.to_int z).

End Text.

(** The own properties of an object, as [JSON.parse] creates them and as
    [JSON.stringify] enumerates them. *)
Module JsObject.

Definition digit (c : ascii) : option Z :=
  let n := Z.of_nat (nat_of_ascii c) in
  if (48 <=? n) && (n <=? 57) then Some (n - 48) else None.

Fixpoint digits (s : string) (acc : Z) : option Z :=
  match s with
  | EmptyString => Some acc
  | String c rest =>
      match digit c with
      | Some d => digits rest (10 * acc + d)
      | None => None
      end
  end.

(** An array index is a key that is the canonical numeral of an integer
    from 0 to 2^32 - 2: decimal digits, no leading zero. *)
Definition array_index (k : string) : option Z :=
  match k with
  | EmptyString => None
  | String c rest =>
      if Ascii.eqb c "0" then
        match rest with EmptyString => Some 0 | String _ _ => None end
      else
        match digits k 0 with
        | Some n => if n <=? 4294967294 then Some n else None
        | None => None
        end
  end.

Section WithValue.
Context {V : Type}.

(** [CreateDataProperty]: a key that exists keeps its place and takes the
    new value, a new key goes last. *)
Fixpoint define (k : string) (v : V) (props : list (string * V))
  : list (string * V) :=
  match props with
  | [] => [(k, v)]
  | (k', v') :: rest =>
      if String.eqb k k' then (k, v) :: rest else (k', v') :: define k v rest
  end.

(** The properties of the object with the given members, in order of
    creation. *)
Definition create (members : list (string * V)) : list (string * V) :=
  fold_left (fun props kv => define (fst kv) (snd kv) props) members [].

Fixpoint insert_by_index (n : Z) (kv : string * V)
    (sorted : list (Z * (string * V))) : list (Z * (string * V)) :=
  match sorted with
  | [] => [(n, kv)]
  | (m, kv') :: rest =>
      if n <? m then (n, kv) :: sorted
      else (m, kv') :: insert_by_index n kv rest
  end.

Definition indexed (props : list (string * V)) : list (Z * (string * V)) :=
  fold_right
    (fun kv sorted =>
       match array_index (fst kv) with
       | Some n => insert_by_index n kv sorted
       | None => sorted
       end)
    [] props.

Definition named (props : list (string * V)) : list (string * V) :=
  filter (fun kv => match array_index (fst kv) with
                    | Some _ => false
                    | None => true
                    end) props.

(** [OrdinaryOwnPropertyKeys]: the array indices in ascending order, then
    the other keys in order of creation. *)
Definition ownProperties (props : list (string * V)) : list (string * V) :=
  (map snd (indexed props) ++ named props)%list.

(** The members in the order [JSON.stringify] visits them. *)
Definition entries (members : list (string * V)) : list (string * V) :=
  ownProperties (create members).

End WithValue.
End JsObject.

(** [Number.MAX_SAFE_INTEGER], 2^53 - 1 *)
Definition MAX_SAFE_INTEGER : Z := 9007199254740991.

(** [Number.isSafeInteger] on an integer. *)
Definition isSafeInteger (z : Z) : bool :=
  (- MAX_SAFE_INTEGER <=? z) && (z <=? MAX_SAFE_INTEGER).

(** The numbers of the payloads: the safe integers, which a JavaScript
    number holds exactly and which [JSON.stringify] prints digit by digit. *)
Record SafeInteger : Type := mkSafeInteger {
  int_value : Z;
  int_safe : isSafeInteger int_value = true
}.

(** Payloads ([SSEEvent.data]): the values [JSON.parse] returns, with the
    safe integers for numbers and strings of code units below 256.  The
    members of an object are listed as its JSON text lists them: a key may
    come twice, the later value then taking the place of the earlier. *)
#[warnings="-register-all"]
Inductive JSON : Type :=
| JNull
| JBool (b : bool)
| JNumber (n : SafeInteger)
| JString (s : string)
| JArray (items : list JSON)
| JObject (members : list (string * JSON)).

(** The built-in [JSON.stringify] on such values (no indentation). *)
Fixpoint JSON_stringify (j : JSON) : string :=
  match j with
  | JNull => "null"
  | JBool true => "true"
  | JBool false => "false"
  | JNumber n => Text.string_of_Z (int_value n)
  | JString s => Text.quote s
  | JArray items => "[" ++ Text.join "," (map JSON_stringify items) ++ "]"
  | JObject members =>
      "{" ++ Text.join ","
               (map (fun kv => Text.quote (fst kv) ++ ":" ++ snd kv)
                    (JsObject.entries
                       (map (fun kv => match kv with
                                       | (k, v) => (k, JSON_stringify v)
                                       end) members))) ++ "}"
  end.

(* ------------------------------------------------------------------ *)
(** ** Data model                                                      *)
(* ------------------------------------------------------------------ *)

(** [SSEEvent] *)
Record SSEEvent : Type := mkEvent {
  event : string;
  data : JSON
}.

(** The two shapes of [SSEClient.res]: a stream writer ([SSEStreamRes]) or a
    [NextApiResponse].  [res_id] is the identity of the object. *)
Inductive ResKind : Type := StreamRes | NodeRes.

Record Res : Type := mkRes {
  res_id : nat;
  res_kind : ResKind
}.

Definition isStreamRes (r : Res) : bool :=
  match res_kind r with StreamRes => true | NodeRes => false end.

(** [SSEClient]; optional fields are [option]s, [undefined] is [None]. *)
Record SSEClient : Type := mkClient {
  id : string;
  res : Res;
  sessionToken : option string;
  lastPing : Z;
  subscriptions : option (list string);
  userAgent : option string;
  ipAddress : option string
}.

(** Rows of the two Prisma models the manager touches.  [status] is a text
    column that only ever receives the two literals of the source. *)
Inductive Status : Type := online | offline.

Record SessionRow : Type := mkSession {
  s_clientId : string;
  s_sessionToken : option string;
  s_status : Status;
  s_lastSeen : Z;
  s_lastPing : Z;
  s_userAgent : option string;
  s_ipAddress : option string
}.

Record SubscriptionRow : Type := mkSubscription {
  sub_sessionToken : string;
  sub_eventName : string;
  sub_clientId : option string
}.

(** The database calls the manager issues, by call site. *)
Inductive DbCall : Type :=
| SubscriptionFindMany (eventName : string)
| SubscriptionUpsert (sessionToken eventName clientId : string)
| SubscriptionDeleteMany (sessionToken : string) (eventName : option string)
| SessionUpsert (clientId : string)
| SessionUpdateManyStale (cutoff : Z)
| SessionUpdateManyPing (clientId : string)
| SessionUpdateManyOffline (clientId : string)
| SessionUpdateManyOfflineByToken (sessionToken : string).

(** Everything observable from outside the registry, in order of occurrence.
    [threw] is the text of the exception when the call failed. *)
Inductive Event : Type :=
| EvWrite (r : Res) (chunk : string) (threw : option string)
| EvEnd (r : Res) (threw : option string)
| EvDb (call : DbCall) (threw : option string)
| EvLog (msg : string).

(** The environment: response objects, database availability and clock, each
    a function of the history.  The clock can be read several times while
    nothing else happens, and need not show the same time twice:
    [clock tr n] is what it shows when it is read with [n] readings already
    taken since the last event of the history [tr]. *)
Record Env : Type := mkEnv {
  write_throws : list Event -> Res -> string -> option string;
  end_throws : list Event -> Res -> option string;
  db_fails : list Event -> DbCall -> option string;
  clock : list Event -> nat -> Z
}.

(** The first reading of the clock after the history [tr]. *)
Definition Date_now (env : Env) (tr : list Event) : Z := clock env tr 0.

(** The registry ([this.clients]), the two tables and the history. *)
Record World : Type := mkWorld {
  clients : list (string * SSEClient);
  sessions : list SessionRow;
  subs : list SubscriptionRow;
  trace : list Event
}.

Definition initial_world : World := mkWorld [] [] [] [].

Definition set_clients (cs : list (string * SSEClient)) (w : World) : World :=
  mkWorld cs (sessions w) (subs w) (trace w).
Definition set_sessions (ss : list SessionRow) (w : World) : World :=
  mkWorld (clients w) ss (subs w) (trace w).
Definition set_subs (ss : list SubscriptionRow) (w : World) : World :=
  mkWorld (clients w) (sessions w) ss (trace w).
Definition add_event (e : Event) (w : World) : World :=
  mkWorld (clients w) (sessions w) (subs w) (trace w ++ [e]).

(* ------------------------------------------------------------------ *)
(** ** JavaScript values: truthiness, strict equality, [Map]           *)
(* ------------------------------------------------------------------ *)

(** [if (s)] on an optional string: [undefined] and the empty string are
    falsy. *)
Definition truthy (o : option string) : bool :=
  match o with
  | Some s => negb (String.eqb s EmptyString)
  | None => false
  end.

(** [a === b] on two optional strings. *)
Definition opt_eqb (a b : option string) : bool :=
  match a, b with
  | Some x, Some y => String.eqb x y
  | None, None => true
  | _, _ => false
  end.

(** [a || fallback] *)
Definition or_else (a : option string) (fallback : string) : string :=
  match a with
  | Some s => if String.eqb s EmptyString then fallback else s
  | None => fallback
  end.

(** [Array.prototype.includes] on an array of strings. *)
Definition includes (x : string) (l : list string) : bool :=
  existsb (String.eqb x) l.

(** A [Map<string, V>]: entries in insertion order, keys unique. *)
Module JsMap.
Section WithValue.
Context {V : Type}.

Fixpoint get (k : string) (m : list (string * V)) : option V :=
  match m with
  | [] => None
  | (k', v) :: rest => if String.eqb k k' then Some v else get k rest
  end.

(** [set] keeps the position of an existing key and appends a new one. *)
Fixpoint set (k : string) (v : V) (m : list (string * V)) : list (string * V) :=
  match m with
  | [] => [(k, v)]
  | (k', v') :: rest =>
      if String.eqb k k' then (k, v) :: rest else (k', v') :: set k v rest
  end.

Definition delete (k : string) (m : list (string * V)) : list (string * V) :=
  filter (fun kv => negb (String.eqb k (fst kv))) m.

Definition keys (m : list (string * V)) : list string := map fst m.
Definition values (m : list (string * V)) : list V := map snd m.

(** Mutating a field of the object stored under [k]. *)
Definition update (k : string) (f : V -> V) (m : list (string * V))
  : list (string * V) :=
  map (fun kv => if String.eqb k (fst kv) then (fst kv, f (snd kv)) else kv) m.
End WithValue.
End JsMap.

(* ------------------------------------------------------------------ *)
(** ** The Prisma calls as functions on tables                         *)
(* ------------------------------------------------------------------ *)

Module Db.

(** [where: { sessionToken_eventName_clientId: { ... } }] *)
Definition triple_matches (s e : string) (c : option string)
                          (r : SubscriptionRow) : bool :=
  String.eqb (sub_sessionToken r) s && String.eqb (sub_eventName r) e
  && opt_eqb (sub_clientId r) c.

(** [sSESubscription.upsert] with [update: {}]. *)
Definition subscription_upsert (s e : string) (c : option string)
    (rows : list SubscriptionRow) : list SubscriptionRow :=
  if existsb (triple_matches s e c) rows then rows
  else rows ++ [mkSubscription s e c].

(** [sSESubscription.deleteMany({ where: { sessionToken, eventName? } })] *)
Definition subscription_where (s : string) (e : option string)
                              (r : SubscriptionRow) : bool :=
  String.eqb (sub_sessionToken r) s
  && match e with
     | Some e' => String.eqb (sub_eventName r) e'
     | None => true
     end.

Definition subscription_deleteMany (s : string) (e : option string)
    (rows : list SubscriptionRow) : list SubscriptionRow :=
  filter (fun r => negb (subscription_where s e r)) rows.

(** [sSESubscription.findMany({ where: { eventName } })] *)
Definition subscription_findMany (e : string)
    (rows : list SubscriptionRow) : list SubscriptionRow :=
  filter (fun r => String.eqb (sub_eventName r) e) rows.

(** [sSESession.updateMany({ where, data })] *)
Definition session_updateMany (where_ : SessionRow -> bool)
    (data_ : SessionRow -> SessionRow)
    (rows : list SessionRow) : list SessionRow :=
  map (fun r => if where_ r then data_ r else r) rows.

(** In an [update], a field given as [undefined] is left as it is. *)
Definition keep_or {A} (new : option A) (old : option A) : option A :=
  match new with Some _ => new | None => old end.

(** [sSESession.upsert({ where: { clientId }, update, create })] of
    [updateSession].  [update] and [create] each carry a [lastSeen] and a
    [lastPing] of their own. *)
Definition session_upsert (c : SSEClient)
    (update_lastSeen update_lastPing create_lastSeen create_lastPing : Z)
    (rows : list SessionRow) : list SessionRow :=
  if existsb (fun r => String.eqb (s_clientId r) (id c)) rows then
    session_updateMany
      (fun r => String.eqb (s_clientId r) (id c))
      (fun r => mkSession (s_clientId r)
                          (keep_or (sessionToken c) (s_sessionToken r))
                          online update_lastSeen update_lastPing
                          (keep_or (userAgent c) (s_userAgent r))
                          (keep_or (ipAddress c) (s_ipAddress r)))
      rows
  else
    rows ++ [mkSession (id c) (sessionToken c) online
                       create_lastSeen create_lastPing
                       (userAgent c) (ipAddress c)].

Definition set_offline (now : Z) (r : SessionRow) : SessionRow :=
  mkSession (s_clientId r) (s_sessionToken r) offline now (s_lastPing r)
            (s_userAgent r) (s_ipAddress r).

Definition set_status_offline (r : SessionRow) : SessionRow :=
  mkSession (s_clientId r) (s_sessionToken r) offline (s_lastSeen r)
            (s_lastPing r) (s_userAgent r) (s_ipAddress r).

Definition set_ping (now : Z) (r : SessionRow) : SessionRow :=
  mkSession (s_clientId r) (s_sessionToken r) online (s_lastSeen r) now
            (s_userAgent r) (s_ipAddress r).

Definition is_online (r : SessionRow) : bool :=
  match s_status r with online => true | offline => false end.

End Db.

(* ------------------------------------------------------------------ *)
(** ** The monad of method bodies                                      *)
(* ------------------------------------------------------------------ *)

Inductive Completion (A : Type) : Type :=
| Normal (a : A)
| Thrown (err : string).
Arguments Normal {A} a.
Arguments Thrown {A} err.

Definition JS (A : Type) : Type := World -> Completion A * World.

Definition ret {A} (a : A) : JS A := fun w => (Normal a, w).

Definition bind {A B} (m : JS A) (f : A -> JS B) : JS B :=
  fun w =>
    match m w with
    | (Normal a, w') => f a w'
    | (Thrown e, w') => (Thrown e, w')
    end.

Definition throw {A} (err : string) : JS A := fun w => (Thrown err, w).

(** [try { m } catch (err) { h err }] *)
Definition try_catch {A} (m : JS A) (h : string -> JS A) : JS A :=
  fun w =>
    match m w with
    | (Normal a, w') => (Normal a, w')
    | (Thrown e, w') => h e w'
    end.

Declare Scope js_scope.
Delimit Scope js_scope with js.
Notation "x <- m ;; k" := (bind m (fun x => k))
  (at level 61, m at next level, right associativity) : js_scope.
Notation "m ;; k" := (bind m (fun _ => k))
  (at level 61, right associativity) : js_scope.
Local Open Scope js_scope.

Fixpoint for_each {X} (l : list X) (body : X -> JS unit) : JS unit :=
  match l with
  | [] => ret tt
  | x :: rest => body x ;; for_each rest body
  end.

Definition get_client (k : string) : JS (option SSEClient) :=
  fun w => (Normal (JsMap.get k (clients w)), w).

Definition modify_clients
    (f : list (string * SSEClient) -> list (string * SSEClient)) : JS unit :=
  fun w => (Normal tt, set_clients (f (clients w)) w).

(** [for (const [k, c] of this.clients.entries()) body]: the iterator is
    live, so an entry deleted before its turn is skipped and the object is
    read as it is at its turn.  No loop body of the class adds an entry. *)
Definition visit (body : string -> SSEClient -> JS unit) (k : string) : JS unit :=
  c <- get_client k ;;
  match c with
  | Some client => body k client
  | None => ret tt
  end.

Definition for_entries (body : string -> SSEClient -> JS unit) : JS unit :=
  fun w => for_each (JsMap.keys (clients w)) (visit body) w.

(** *** Calls that are started and not awaited

    An [async] method called without [await] runs where it is called up to
    its first [await].  What is left of its body is pending: a list of
    pieces, each the code between the completion of one awaited call and
    the next [await], which run one at a time while the caller waits for
    something else, or after it has returned. *)
Definition Pending : Type := list (JS unit).

(** The next piece of the [n]-th pending call runs.  Nobody awaits the
    call: if a piece throws, the rest of the body is abandoned and the
    exception goes nowhere. *)
Fixpoint resume (n : nat) (calls : list Pending) : JS (list Pending) :=
  match calls with
  | [] => ret []
  | call :: others =>
      match n with
      | O =>
          match call with
          | [] => ret calls
          | piece :: rest =>
              fun w =>
                match piece w with
                | (Normal _, w') => (Normal (rest :: others), w')
                | (Thrown _, w') => (Normal ([] :: others), w')
                end
          end
      | S n' => others' <- resume n' others ;; ret (call :: others')
      end
  end.

(** The pending calls named by [picks] advance by one piece each, in
    turn. *)
Fixpoint advance (picks : list nat) (calls : list Pending)
  : JS (list Pending) :=
  match picks with
  | [] => ret calls
  | n :: more => calls' <- resume n calls ;; advance more calls'
  end.

(** A pending call runs to its end. *)
Definition run_to_end (call : Pending) : JS unit :=
  fun w => (Normal tt, snd (for_each call (fun piece => piece) w)).

(** All pending calls run to their end, the oldest first. *)
Definition settle (calls : list Pending) : JS unit :=
  for_each calls run_to_end.

(** When the pending calls of the session cleanup run.  [during] says, for
    each [await] in the loop of the callback in turn, which pending calls
    advance by one piece while the callback waits (a call is named by its
    position, the oldest being 0); [after] says which advance once the
    callback has returned.  Whatever is pending after that runs to its end,
    the oldest call first. *)
Record Schedule : Type := mkSchedule {
  during : list (list nat);
  after : list nat
}.

(* ------------------------------------------------------------------ *)
(** ** The methods of [SSEManager]                                     *)
(* ------------------------------------------------------------------ *)

Definition HEARTBEAT_MS : Z := 25000.
(** The period actually passed to [setInterval] in [startSessionCleanup]
    (the field [SESSION_CLEANUP_MS = 60000] is not used by the source). *)
Definition SESSION_CLEANUP_TICK_MS : Z := 10000.
(** [30 * 1000] in [startSessionCleanup] *)
Definition STALE_AFTER_MS : Z := 30 * 1000.

Section Manager.
Variable env : Env.

(** [this.log(msg)]: [console.info(`[SSEManager] ${msg}`)] *)
Definition log (msg : string) : JS unit :=
  fun w => (Normal tt, add_event (EvLog ("[SSEManager] " ++ msg)) w).

(** [Date.now()] / [new Date()] *)
Definition now : JS Z :=
  fun w => (Normal (Date_now env (trace w)), w).

(** A further [new Date()] in the same expression, with [n] readings
    taken before it. *)
Definition now_again (n : nat) : JS Z :=
  fun w => (Normal (clock env (trace w) n), w).

(** [res.write(chunk)] *)
Definition res_write (r : Res) (chunk : string) : JS unit :=
  fun w =>
    match write_throws env (trace w) r chunk with
    | None => (Normal tt, add_event (EvWrite r chunk None) w)
    | Some e => (Thrown e, add_event (EvWrite r chunk (Some e)) w)
    end.

(** [res.end()] *)
Definition res_end (r : Res) : JS unit :=
  fun w =>
    match end_throws env (trace w) r with
    | None => (Normal tt, add_event (EvEnd r None) w)
    | Some e => (Thrown e, add_event (EvEnd r (Some e)) w)
    end.

(** [await db.<model>.<call>(...)]: the call either rejects, leaving the
    tables alone, or takes effect. *)
Definition db {A} (call : DbCall) (effect : World -> A * World) : JS A :=
  fun w =>
    match db_fails env (trace w) call with
    | Some e => (Thrown e, add_event (EvDb call (Some e)) w)
    | None =>
        let (a, w') := effect (add_event (EvDb call None) w) in
        (Normal a, w')
    end.

Definition on_sessions (f : list SessionRow -> list SessionRow)
  : World -> unit * World :=
  fun w => (tt, set_sessions (f (sessions w)) w).

Definition on_subs (f : list SubscriptionRow -> list SubscriptionRow)
  : World -> unit * World :=
  fun w => (tt, set_subs (f (subs w)) w).

(** The argument of [upsert] holds four [new Date()], evaluated in the
    order of the text: those of [update], then those of [create]. *)
Definition updateSession (client : SSEClient) : JS unit :=
  try_catch
    (update_lastSeen <- now ;;
     update_lastPing <- now_again 1 ;;
     create_lastSeen <- now_again 2 ;;
     create_lastPing <- now_again 3 ;;
     db (SessionUpsert (id client))
        (on_sessions
           (Db.session_upsert client update_lastSeen update_lastPing
                              create_lastSeen create_lastPing)))
    (fun err => log ("Error updating session: " ++ err)).

Definition updateSessionPing (clientId : string) : JS unit :=
  try_catch
    (t <- now ;;
     db (SessionUpdateManyPing clientId)
        (on_sessions
           (Db.session_updateMany
              (fun r => String.eqb (s_clientId r) clientId)
              (Db.set_ping t))))
    (fun err => log ("Error updating session ping: " ++ err)).

Definition markSessionOffline (clientId : string) : JS unit :=
  try_catch
    (t <- now ;;
     db (SessionUpdateManyOffline clientId)
        (on_sessions
           (Db.session_updateMany
              (fun r => String.eqb (s_clientId r) clientId)
              (Db.set_offline t))))
    (fun err => log ("Error marking session offline: " ++ err)).

Definition markSessionOfflineBySessionToken (tok : string) : JS unit :=
  try_catch
    (t <- now ;;
     db (SessionUpdateManyOfflineByToken tok)
        (on_sessions
           (Db.session_updateMany
              (fun r => opt_eqb (s_sessionToken r) (Some tok))
              (Db.set_offline t))))
    (fun err => log ("Error marking session offline by sessionToken: " ++ err)).

(** [markSessionOffline] once its update is issued: the argument, with
    its [new Date()], has been built, and the call waits for the update. *)
Definition markSessionOffline_issued (clientId : string) (t : Z) : JS unit :=
  try_catch
    (db (SessionUpdateManyOffline clientId)
        (on_sessions
           (Db.session_updateMany
              (fun r => String.eqb (s_clientId r) clientId)
              (Db.set_offline t))))
    (fun err => log ("Error marking session offline: " ++ err)).

(** [markSessionOfflineBySessionToken] once its update is issued. *)
Definition markSessionOfflineBySessionToken_issued (tok : string) (t : Z)
  : JS unit :=
  try_catch
    (db (SessionUpdateManyOfflineByToken tok)
        (on_sessions
           (Db.session_updateMany
              (fun r => opt_eqb (s_sessionToken r) (Some tok))
              (Db.set_offline t))))
    (fun err => log ("Error marking session offline by sessionToken: " ++ err)).

Definition removeClient (clientId : string) : JS unit :=
  c <- get_client clientId ;;
  match c with
  | Some client =>
      try_catch
        (if isStreamRes (res client) then res_end (res client)
         else res_end (res client))
        (fun err =>
           log ("Error ending response for client " ++ clientId ++ ": " ++ err)) ;;
      (if truthy (sessionToken client)
       then markSessionOfflineBySessionToken
              (or_else (sessionToken client) EmptyString)
       else markSessionOffline clientId) ;;
      modify_clients (JsMap.delete clientId) ;;
      log ("Client disconnected: " ++ clientId)
  | None => ret tt
  end.

(** What is left of [removeClient] at its [await]: the update of the
    session, issued at time [t], completes; then the entry is deleted. *)
Definition removeClient_pending (clientId : string) (client : SSEClient)
    (t : Z) : Pending :=
  [ (if truthy (sessionToken client)
     then markSessionOfflineBySessionToken_issued
            (or_else (sessionToken client) EmptyString) t
     else markSessionOffline_issued clientId t);
    (modify_clients (JsMap.delete clientId) ;;
     log ("Client disconnected: " ++ clientId)) ].

(** [removeClient] up to its [await], as it runs when it is called and
    not awaited: the connection is ended and the update of the session is
    issued.  The result is what is left of the call. *)
Definition removeClient_started (clientId : string) : JS Pending :=
  c <- get_client clientId ;;
  match c with
  | Some client =>
      try_catch
        (if isStreamRes (res client) then res_end (res client)
         else res_end (res client))
        (fun err =>
           log ("Error ending response for client " ++ clientId ++ ": " ++ err)) ;;
      t <- now ;;
      ret (removeClient_pending clientId client t)
  | None => ret []
  end.

Definition addClient (client : SSEClient) : JS unit :=
  (if truthy (sessionToken client) then
     for_entries (fun k c =>
       if opt_eqb (sessionToken c) (sessionToken client)
       then removeClient k
       else ret tt)
   else ret tt) ;;
  modify_clients (JsMap.set (id client) client) ;;
  updateSession client ;;
  log ("Client connected: " ++ id client ++ " (Session: "
       ++ or_else (sessionToken client) "anonymous" ++ ")").

(** The frame of one event on the wire, as [send] builds it. *)
Definition frame (ev : SSEEvent) : string :=
  "event: " ++ event ev ++ Text.LF
  ++ "data: " ++ JSON_stringify (data ev) ++ Text.LF ++ Text.LF.

(** [send]: a write that throws, or returns a promise that rejects, is
    caught and logged. *)
Definition send (r : Res) (ev : SSEEvent) : JS unit :=
  try_catch
    (let data := frame ev in
     if isStreamRes r then
       res_write r data ;;
       log ("Sent event '" ++ event ev ++ "' to stream client")
     else
       res_write r data ;;
       log ("Sent event '" ++ event ev ++ "' to Node client"))
    (fun err => log ("Error sending event to client: " ++ err)).

Definition sendEventToClient (clientId : string) (ev : SSEEvent) : JS unit :=
  c <- get_client clientId ;;
  match c with
  | Some client => send (res client) ev
  | None => ret tt
  end.

Definition sendEventToUser (tok : string) (ev : SSEEvent) : JS unit :=
  for_entries (fun _ client =>
    if opt_eqb (sessionToken client) (Some tok)
    then send (res client) ev
    else ret tt).

Definition sendEventToSubscribers (eventName : string) (ev : SSEEvent)
  : JS unit :=
  subscriptions <-
    db (SubscriptionFindMany eventName)
       (fun w => (Db.subscription_findMany eventName (subs w), w)) ;;
  for_each subscriptions (fun subscription =>
    if truthy (sub_clientId subscription)
    then sendEventToClient
           (or_else (sub_clientId subscription) EmptyString) ev
    else sendEventToUser (sub_sessionToken subscription) ev).

Definition broadcast (ev : SSEEvent) : JS unit :=
  for_entries (fun _ client => send (res client) ev).

(** [if (!client.subscriptions) client.subscriptions = [];
     if (!client.subscriptions.includes(eventName)) push(eventName)] *)
Definition cache_add (eventName : string) (c : SSEClient) : SSEClient :=
  let current := match subscriptions c with Some l => l | None => [] end in
  mkClient (id c) (res c) (sessionToken c) (lastPing c)
           (Some (if includes eventName current then current
                  else (current ++ [eventName])%list))
           (userAgent c) (ipAddress c).

(** The [clientId] parameter is accepted and not read by the body. *)
Definition subscribeToEvent (tok eventName : string)
    (clientId : option string) : JS unit :=
  try_catch
    (db (SubscriptionUpsert tok eventName tok)
        (on_subs (Db.subscription_upsert tok eventName (Some tok))) ;;
     for_entries (fun k client =>
       if opt_eqb (sessionToken client) (Some tok)
       then modify_clients (JsMap.update k (cache_add eventName))
       else ret tt) ;;
     log ("Session " ++ tok ++ " subscribed to event: " ++ eventName))
    (fun err => log ("Error subscribing to event: " ++ err)).

Definition set_cache (l : option (list string)) (c : SSEClient) : SSEClient :=
  mkClient (id c) (res c) (sessionToken c) (lastPing c) l
           (userAgent c) (ipAddress c).

Definition cache_remove (eventName : string) (c : SSEClient) : SSEClient :=
  match subscriptions c with
  | Some l =>
      set_cache (Some (filter (fun sub => negb (String.eqb sub eventName)) l)) c
  | None => c
  end.

Definition unsubscribeFromEvent (tok eventName : string)
    (clientId : option string) : JS unit :=
  try_catch
    (db (SubscriptionDeleteMany tok (Some eventName))
        (on_subs (Db.subscription_deleteMany tok (Some eventName))) ;;
     for_entries (fun k client =>
       if opt_eqb (sessionToken client) (Some tok)
       then modify_clients (JsMap.update k (cache_remove eventName))
       else ret tt) ;;
     log ("Session " ++ tok ++ " unsubscribed from event: " ++ eventName))
    (fun err => log ("Error unsubscribing from event: " ++ err)).

Definition cache_clear (c : SSEClient) : SSEClient :=
  match subscriptions c with
  | Some _ => set_cache (Some []) c
  | None => c
  end.

(** The template of the last [this.log] reads [eventName], which is not
    in scope: evaluating it throws a [ReferenceError] inside the [try]. *)
Definition unsubscribeFromAllEvents (tok : string) : JS unit :=
  try_catch
    (db (SubscriptionDeleteMany tok None)
        (on_subs (Db.subscription_deleteMany tok None)) ;;
     for_entries (fun k client =>
       if opt_eqb (sessionToken client) (Some tok)
       then modify_clients (JsMap.update k cache_clear)
       else ret tt) ;;
     throw "ReferenceError: eventName is not defined")
    (fun err => log ("Error unsubscribing from event: " ++ err)).

Definition set_lastPing (t : Z) (c : SSEClient) : SSEClient :=
  mkClient (id c) (res c) (sessionToken c) t (subscriptions c)
           (userAgent c) (ipAddress c).

Definition PING_FRAME : string :=
  "event: ping" ++ Text.LF ++ "data: {}" ++ Text.LF ++ Text.LF.

(** One firing of the [setInterval] callback of [startHeartbeat]. *)
Definition heartbeat_tick : JS unit :=
  t <- now ;;
  for_entries (fun k client =>
    try_catch
      (let data := PING_FRAME in
       (if isStreamRes (res client) then res_write (res client) data
        else res_write (res client) data) ;;
       modify_clients (JsMap.update k (set_lastPing t)) ;;
       updateSessionPing k)
      (fun err =>
         log ("Error pinging client " ++ k ++ ": " ++ err) ;;
         removeClient k)).

(** The loop of the session cleanup over [this.clients.entries()], a live
    iterator: [keys] are the keys still to visit, [calls] the [removeClient]
    calls started so far.  While the callback waits for
    [markSessionOffline], pending calls advance as [during] says. *)
Fixpoint sweep_entries (keys : list string) (thirtySecondsAgoMs : Z)
    (during : list (list nat)) (calls : list Pending) : JS (list Pending) :=
  match keys with
  | [] => ret calls
  | clientId :: rest =>
      c <- get_client clientId ;;
      match c with
      | Some client =>
          if lastPing client <? thirtySecondsAgoMs then
            log ("Client " ++ clientId
                 ++ " hasn't pinged recently, marking as offline") ;;
            t <- now ;;
            calls <- advance (hd [] during) calls ;;
            markSessionOffline_issued clientId t ;;
            call <- removeClient_started clientId ;;
            sweep_entries rest thirtySecondsAgoMs (tl during)
                          (calls ++ [call])%list
          else sweep_entries rest thirtySecondsAgoMs during calls
      | None => sweep_entries rest thirtySecondsAgoMs during calls
      end
  end.

(** One firing of the [setInterval] callback of [startSessionCleanup], up
    to its return.  The result is the [removeClient] calls it started,
    which the source does not await. *)
Definition session_cleanup_callback (during : list (list nat))
  : JS (list Pending) :=
  try_catch
    (t1 <- now ;;
     let thirtySecondsAgo := t1 - STALE_AFTER_MS in
     db (SessionUpdateManyStale thirtySecondsAgo)
        (on_sessions
           (Db.session_updateMany
              (fun r => (s_lastPing r <? thirtySecondsAgo) && Db.is_online r)
              Db.set_status_offline)) ;;
     t2 <- now ;;
     let thirtySecondsAgoMs := t2 - STALE_AFTER_MS in
     fun w =>
       sweep_entries (JsMap.keys (clients w)) thirtySecondsAgoMs during [] w)
    (fun err => log ("Error in session cleanup: " ++ err) ;; ret []).

(** One tick of the session cleanup: the callback, and the calls it
    started until the last of them has ended. *)
Definition session_cleanup_tick (schedule : Schedule) : JS unit :=
  calls <- session_cleanup_callback (during schedule) ;;
  calls <- advance (after schedule) calls ;;
  settle calls.

(** [cleanup()]; stopping the two timers is not part of the world. *)
Definition cleanup : JS unit :=
  for_entries (fun _ client =>
    try_catch
      (if isStreamRes (res client) then res_end (res client)
       else res_end (res client))
      (fun err =>
         log ("Error ending response for client " ++ id client ++ ": " ++ err))) ;;
  modify_clients (fun _ => []) ;;
  log "SSEManager cleaned up all clients and intervals.".

End Manager.

(* ------------------------------------------------------------------ *)
(** ** Predicates on method bodies                                     *)
(* ------------------------------------------------------------------ *)

(** [preserves R m]: running [m] relates the world before to the world
    after by [R], whether [m] completes normally or throws. *)
Definition preserves {A} (R : World -> World -> Prop) (m : JS A) : Prop :=
  forall w, R w (snd (m w)).

(** [total m]: [m] never throws. *)
Definition total {A} (m : JS A) : Prop :=
  forall w, exists a, fst (m w) = Normal a.

(** A footprint is a preorder on worlds that tolerates the events
    satisfying [P] being added to the history. *)
Class Footprint (R : World -> World -> Prop) (P : Event -> Prop) : Prop := {
  fp_refl : forall w, R w w;
  fp_trans : forall a b c, R a b -> R b c -> R a c;
  fp_event : forall e w, P e -> R w (add_event e w)
}.

(* ------------------------------------------------------------------ *)
(** ** Vocabulary of the statements                                    *)
(* ------------------------------------------------------------------ *)

(** *** Footprints of method bodies *)

(** [keeps f]: the component [f] of the world is the same afterwards. *)
Definition keeps {X} (f : World -> X) : World -> World -> Prop :=
  fun w w' => f w' = f w.

(** [appends P]: the history only grows, by events satisfying [P]. *)
Definition appends (P : Event -> Prop) : World -> World -> Prop :=
  fun w w' => exists evs, trace w' = (trace w ++ evs)%list /\ Forall P evs.

(** An event is compatible with the frame of [ev] when, if it is a write,
    the chunk written is that frame. *)
Definition carries (chunk : string) (e : Event) : Prop :=
  match e with
  | EvWrite _ c _ => c = chunk
  | _ => True
  end.

(** Events other than writes to a response object. *)
Definition no_write (e : Event) : Prop :=
  match e with
  | EvWrite _ _ _ => False
  | _ => True
  end.

(** Events that touch no connection: database calls and log entries. *)
Definition silent (e : Event) : Prop :=
  match e with
  | EvWrite _ _ _ => False
  | EvEnd _ _ => False
  | _ => True
  end.

(** [res.end()] was called on [r] somewhere in the history. *)
Definition end_called (r : Res) (tr : list Event) : Prop :=
  exists o, In (EvEnd r o) tr.

(** [shrinks]: entries may go and fields other than the session token may
    change, but no entry appears. *)
Definition shrinks (w w' : World) : Prop :=
  (NoDup (JsMap.keys (clients w)) -> NoDup (JsMap.keys (clients w')))
  /\ forall k c', In (k, c') (clients w') ->
       exists c, In (k, c) (clients w) /\ sessionToken c' = sessionToken c.

(** Rows keep their position and client id, and a row that is offline
    stays offline. *)
Definition sess_mono (w w' : World) : Prop :=
  Forall2 (fun r r' => s_clientId r' = s_clientId r
                       /\ (s_status r = offline -> s_status r' = offline))
          (sessions w) (sessions w').

(** All rows of client [k] are offline. *)
Definition rows_offline (k : string) (w : World) : Prop :=
  forall r, In r (sessions w) -> s_clientId r = k -> s_status r = offline.

(** *** Loop shapes over the map of clients *)

Definition touch (p : SSEClient -> bool) (f : SSEClient -> SSEClient)
    (kc : string * SSEClient) : string * SSEClient :=
  if p (snd kc) then (fst kc, f (snd kc)) else kc.

Definition update_body (p : SSEClient -> bool) (f : SSEClient -> SSEClient)
    (k : string) (c : SSEClient) : JS unit :=
  if p c then modify_clients (JsMap.update k f) else ret tt.

Definition guarded (p : string -> SSEClient -> bool)
    (body : string -> SSEClient -> JS unit)
    (k : string) (c : SSEClient) : JS unit :=
  if p k c then body k c else ret tt.

Definition kept (p : string -> SSEClient -> bool)
    (kc : string * SSEClient) : bool :=
  negb (p (fst kc) (snd kc)).

(** All of [addClient]'s clients share this test in its eviction loop. *)
Definition same_session (c : SSEClient) (k : string) (c0 : SSEClient) : bool :=
  opt_eqb (sessionToken c0) (sessionToken c).

(** Every piece of every pending call satisfies [Q]. *)
Definition all_pieces (Q : JS unit -> Prop) (calls : list Pending) : Prop :=
  Forall (Forall Q) calls.

(** The world once the bulk update of the session cleanup has succeeded,
    and the cutoff its loop then computes. *)
Definition bulk_updated (env : Env) (w : World) : World :=
  set_sessions
    (Db.session_updateMany
       (fun r => (s_lastPing r <? Date_now env (trace w) - STALE_AFTER_MS)
                 && Db.is_online r)
       Db.set_status_offline (sessions w))
    (add_event
       (EvDb (SessionUpdateManyStale
                (Date_now env (trace w) - STALE_AFTER_MS)) None) w).

Definition sweep_cutoff (env : Env) (w : World) : Z :=
  Date_now env (trace (bulk_updated env w)) - STALE_AFTER_MS.

(** Nothing is left of any pending call. *)
Definition spent (calls : list Pending) : Prop :=
  Forall (fun call => call = []) calls.

(** The entry under [k] is left as it is. *)
Definition untouched (k : string) : World -> World -> Prop :=
  keeps (fun w => JsMap.get k (clients w)).

(** No entry appears under [k]. *)
Definition stays_absent (k : string) (w w' : World) : Prop :=
  JsMap.get k (clients w) = None -> JsMap.get k (clients w') = None.

(** The piece [p] ends with no entry under [k]. *)
Definition deletes (k : string) (p : JS unit) : Prop :=
  forall w, JsMap.get k (clients (snd (p w))) = None.

(** A piece that never throws, only adds to the history, adds no entry
    under [k] and puts no session row back online. *)
Definition harmless (k : string) (p : JS unit) : Prop :=
  total p
  /\ preserves (appends (fun _ => True)) p
  /\ preserves (stays_absent k) p
  /\ preserves sess_mono p.

(** The entry under [k] is gone, or a pending call is going to delete
    it. *)
Definition doomed (k : string) (w : World) (calls : list Pending) : Prop :=
  JsMap.get k (clients w) = None \/ Exists (Exists (deletes k)) calls.

(** *** Operations, histories and reachable registries *)

(** The four ways of addressing an event. *)
Inductive SendTarget : Type :=
| ToClient (clientId : string)
| ToUser (sessionToken : string)
| ToSubscribers (eventName : string)
| ToAll.

Definition send_op (env : Env) (target : SendTarget) (ev : SSEEvent) : JS unit :=
  match target with
  | ToClient clientId => sendEventToClient env clientId ev
  | ToUser tok => sendEventToUser env tok ev
  | ToSubscribers eventName => sendEventToSubscribers env eventName ev
  | ToAll => broadcast env ev
  end.

(** The events recorded between world [w] and a later world [w']. *)
Definition events_since (w w' : World) : list Event :=
  skipn (length (trace w)) (trace w').

(** The operations of the registry, as requests and timers invoke them. *)
Inductive Op : Type :=
| OpAddClient (client : SSEClient)
| OpRemoveClient (clientId : string)
| OpSend (target : SendTarget) (ev : SSEEvent)
| OpSubscribe (sessionToken eventName : string) (clientId : option string)
| OpUnsubscribe (sessionToken eventName : string) (clientId : option string)
| OpUnsubscribeAll (sessionToken : string)
| OpHeartbeat
| OpSessionCleanup (schedule : Schedule)
| OpCleanup.

Definition exec (env : Env) (op : Op) : JS unit :=
  match op with
  | OpAddClient client => addClient env client
  | OpRemoveClient clientId => removeClient env clientId
  | OpSend target ev => send_op env target ev
  | OpSubscribe tok e cid => subscribeToEvent env tok e cid
  | OpUnsubscribe tok e cid => unsubscribeFromEvent env tok e cid
  | OpUnsubscribeAll tok => unsubscribeFromAllEvents env tok
  | OpHeartbeat => heartbeat_tick env
  | OpSessionCleanup schedule => session_cleanup_tick env schedule
  | OpCleanup => cleanup env
  end.

(** The worlds reachable from the empty registry, one operation at a time,
    whether an operation completes normally or throws. *)
Inductive reachable (env : Env) : World -> Prop :=
| reach_init : reachable env initial_world
| reach_step w op :
    reachable env w -> reachable env (snd (exec env op w)).

(** *** Subscriptions and sessions *)

(** What a client is known to want: [c.subscriptions || []]. *)
Definition cached (c : SSEClient) : list string :=
  match subscriptions c with Some l => l | None => [] end.

(** Rows for session [tok] and event [e], whatever their [clientId]. *)
Definition count_matching (tok e : string) (rows : list SubscriptionRow) : nat :=
  length (filter (fun r => String.eqb (sub_sessionToken r) tok
                           && String.eqb (sub_eventName r) e) rows).

Definition has_token (tok : string) (c : SSEClient) : bool :=
  opt_eqb (sessionToken c) (Some tok).

(** The live entries of session [tok]. *)
Definition live_for (tok : string) (w : World) : list (string * SSEClient) :=
  filter (fun kc => has_token tok (snd kc)) (clients w).

(** Keys are unique, and two entries of the same truthy session are the
    same entry. *)
Definition one_per_session (l : list (string * SSEClient)) : Prop :=
  NoDup (JsMap.keys l)
  /\ forall k1 c1 k2 c2,
       In (k1, c1) l -> In (k2, c2) l ->
       truthy (sessionToken c1) = true ->
       sessionToken c2 = sessionToken c1 -> k1 = k2.

(** *** Concrete scenarios *)

(** Concrete environments, clients and events used in examples. *)
Module Scenario.

(** Nothing fails; the clock advances one millisecond per recorded event
    and stands still in between. *)
Definition calm : Env :=
  mkEnv (fun _ _ _ => None) (fun _ _ => None) (fun _ _ => None)
        (fun tr _ => 100000 + Z.of_nat (length tr)).

(** Every write throws. *)
Definition broken_pipe : Env :=
  mkEnv (fun _ _ _ => Some "EPIPE") (fun _ _ => None) (fun _ _ => None)
        (fun tr _ => 100000 + Z.of_nat (length tr)).

(** The database is down. *)
Definition db_down : Env :=
  mkEnv (fun _ _ _ => None) (fun _ _ => None) (fun _ _ => Some "P1001")
        (fun tr _ => 100000 + Z.of_nat (length tr)).

(** Only the bulk update of the session cleanup fails. *)
Definition sweep_down : Env :=
  mkEnv (fun _ _ _ => None) (fun _ _ => None)
        (fun _ call => match call with
                       | SessionUpdateManyStale _ => Some "P2024"
                       | _ => None
                       end)
        (fun tr _ => 100000 + Z.of_nat (length tr)).

(** Nothing fails, and the clock moves on by one millisecond between two
    readings. *)
Definition ticking : Env :=
  mkEnv (fun _ _ _ => None) (fun _ _ => None) (fun _ _ => None)
        (fun tr n => 100000 + Z.of_nat (length tr) + Z.of_nat n).

(** No pending call runs before the callback has returned. *)
Definition late : Schedule := mkSchedule [] [].

(** While the callback waits for the second time, the first pending call
    runs to its end. *)
Definition eager : Schedule := mkSchedule [[]; [0%nat; 0%nat]] [].

Definition r1 : Res := mkRes 1 StreamRes.
Definition r2 : Res := mkRes 2 StreamRes.
Definition r3 : Res := mkRes 3 NodeRes.

Definition c1 : SSEClient := mkClient "c1" r1 (Some "tokA") 100000 None None None.
Definition c2 : SSEClient := mkClient "c2" r2 (Some "tokA") 100000 None None None.
Definition c3 : SSEClient := mkClient "c3" r3 (Some "tokA") 100000 None None None.
Definition anon : SSEClient := mkClient "n7" r3 None 100000 None None None.

Definition demo : SSEEvent := mkEvent "demo-event" (JObject [("msg", JString "hi")]).

Definition demo_frame : string :=
  "event: demo-event" ++ Text.LF
  ++ "data: {" ++ Text.DQUOTE ++ "msg" ++ Text.DQUOTE ++ ":"
  ++ Text.DQUOTE ++ "hi" ++ Text.DQUOTE ++ "}" ++ Text.LF ++ Text.LF.

(** The registry holding [c1] alone. *)
Definition only_c1 : World := mkWorld [("c1", c1)] [] [] [].

(** A client last heard of 40 s before the clock of [calm] starts. *)
Definition idle : SSEClient := mkClient "c0" r3 (Some "tokB") 60000 None None None.

(** [idle] and [c1] connected, each with its session row online. *)
Definition idle_and_c1 : World :=
  mkWorld [("c0", idle); ("c1", c1)]
          [mkSession "c0" (Some "tokB") online 60000 60000 None None;
           mkSession "c1" (Some "tokA") online 100000 100000 None None]
          [] [].

(** Two clients last heard of 40 s before the clock of [calm] starts. *)
Definition two_idle : World :=
  mkWorld [("c0", idle);
           ("c8", mkClient "c8" r2 (Some "tokC") 60000 None None None)]
          [] [] [].

(** A client whose last ping is exactly 30 000 ms before the second clock
    reading of a tick of [calm] from an empty history. *)
Definition on_the_edge : SSEClient :=
  mkClient "c9" r2 None 70001 None None None.

End Scenario.

(* ------------------------------------------------------------------ *)
(** ** Request helpers of the route handlers                           *)
(* ------------------------------------------------------------------ *)

(** The string built-ins [getCookieValue] uses.  A header value is a byte
    string: every code unit is below 256, and a character here is one code
    unit. *)
Module JsString.

(** [s.split(sep)] for a separator of one character: never an empty array. *)
Fixpoint split (sep : ascii) (s : string) : list string :=
  match s with
  | EmptyString => [EmptyString]
  | String c rest =>
      if Ascii.eqb c sep then EmptyString :: split sep rest
      else match split sep rest with
           | [] => [String c EmptyString]
           | first :: others => String c first :: others
           end
  end.

(** White space and line terminators among the code units below 256:
    TAB, LF, VT, FF, CR, SP and NBSP. *)
Definition is_space (c : ascii) : bool :=
  let n := nat_of_ascii c in
  (Nat.leb 9 n && Nat.leb n 13) || Nat.eqb n 32 || Nat.eqb n 160.

Fixpoint trimStart (s : string) : string :=
  match s with
  | EmptyString => EmptyString
  | String c rest => if is_space c then trimStart rest else s
  end.

Fixpoint trimEnd (s : string) : string :=
  match s with
  | EmptyString => EmptyString
  | String c rest =>
      match trimEnd rest with
      | EmptyString => if is_space c then EmptyString else String c EmptyString
      | kept_rest => String c kept_rest
      end
  end.

(** [s.trim()] *)
Definition trim (s : string) : string := trimEnd (trimStart s).

(** [s] contains the character [c]. *)
Fixpoint contains (c : ascii) (s : string) : bool :=
  match s with
  | EmptyString => false
  | String c' rest => Ascii.eqb c' c || contains c rest
  end.

End JsString.

(** The loop of [getCookieValue] over the pieces of the header.
    [const [cookieName, cookieValue] = cookie.trim().split("=")] takes the
    first two pieces; a missing second piece is [undefined], which
    [cookieValue ?? null] turns into [null]. *)
Fixpoint getCookieValue_loop (cookies : list string) (name : string)
  : option string :=
  match cookies with
  | [] => None
  | cookie :: rest =>
      match JsString.split "=" (JsString.trim cookie) with
      | cookieName :: pieces =>
          if String.eqb cookieName name then
            match pieces with
            | cookieValue :: _ => Some cookieValue
            | [] => None
            end
          else getCookieValue_loop rest name
      | [] => getCookieValue_loop rest name
      end
  end.

(** [getCookieValue(cookieHeader, name)] of the route handlers;
    [!cookieHeader] holds for [null] and for the empty string. *)
Definition getCookieValue (cookieHeader : option string) (name : string)
  : option string :=
  match cookieHeader with
  | None => None
  | Some header =>
      if String.eqb header EmptyString then None
      else getCookieValue_loop (JsString.split ";" header) name
  end.

(* ------------------------------------------------------------------ *)
(** ** Vocabulary of the further properties                            *)
(* ------------------------------------------------------------------ *)

(** The calls of [write] recorded in a run of events, in order, whether
    they returned or threw. *)
Fixpoint write_attempts (evs : list Event) : list (Res * string) :=
  match evs with
  | [] => []
  | EvWrite r chunk _ :: rest => (r, chunk) :: write_attempts rest
  | _ :: rest => write_attempts rest
  end.

(** [emits cs m ws]: on a registry whose map is [cs], [m] completes
    normally, changes nothing but the history, and its write attempts are
    [ws]. *)
Definition emits (cs : list (string * SSEClient)) (m : JS unit)
                 (ws : list (Res * string)) : Prop :=
  forall w, clients w = cs ->
    exists evs,
      m w = (Normal tt, mkWorld cs (sessions w) (subs w) (trace w ++ evs))
      /\ write_attempts evs = ws.

(** The clients a subscription row addresses, as [sendEventToSubscribers]
    resolves it against the map [cs]. *)
Definition targets_of_row (cs : list (string * SSEClient))
                          (row : SubscriptionRow) : list SSEClient :=
  if truthy (sub_clientId row) then
    match JsMap.get (or_else (sub_clientId row) EmptyString) cs with
    | Some c => [c]
    | None => []
    end
  else map snd (filter (fun kc => has_token (sub_sessionToken row) (snd kc)) cs).

(** The body of the heartbeat loop for one client, at clock reading [t]. *)
Definition ping_client (env : Env) (t : Z) (k : string) (client : SSEClient)
  : JS unit :=
  try_catch
    (let data := PING_FRAME in
     (if isStreamRes (res client) then res_write env (res client) data
      else res_write env (res client) data) ;;
     modify_clients (JsMap.update k (set_lastPing t)) ;;
     updateSessionPing env k)
    (fun err =>
       log ("Error pinging client " ++ k ++ ": " ++ err) ;;
       removeClient env k).

(** The body of the loop of [cleanup] for one client. *)
Definition end_client (env : Env) (k : string) (client : SSEClient) : JS unit :=
  try_catch
    (if isStreamRes (res client) then res_end env (res client)
     else res_end env (res client))
    (fun err =>
       log ("Error ending response for client " ++ id client ++ ": " ++ err)).

(** Events that are neither writes nor database calls. *)
Definition offline_only (e : Event) : Prop :=
  match e with
  | EvWrite _ _ _ => False
  | EvDb _ _ => False
  | _ => True
  end.

(** Uniqueness in the two tables: one row per client id, no subscription
    row twice. *)
Definition store_unique (w : World) : Prop :=
  NoDup (map s_clientId (sessions w)) /\ NoDup (subs w).

(** [keeps_unique]: uniqueness in the tables is not lost. *)
Definition keeps_unique (w w' : World) : Prop :=
  (NoDup (map s_clientId (sessions w)) -> NoDup (map s_clientId (sessions w')))
  /\ (NoDup (subs w) -> NoDup (subs w')).

(** What the heartbeat does to the client [c] stored under [k], seen from
    the world [w0] before the tick: either the ping was written and the
    client is still there with [lastPing = t], or the write threw and the
    client is gone with [end()] called on it. *)
Definition pinged (env : Env) (t : Z) (w0 : World)
                  (k : string) (c : SSEClient) (w' : World) : Prop :=
  exists before after,
    trace w' = (trace w0 ++ before ++ after)%list
    /\ ((JsMap.get k (clients w') = Some (set_lastPing t c)
         /\ write_throws env (trace w0 ++ before) (res c) PING_FRAME = None
         /\ In (EvWrite (res c) PING_FRAME None) after)
        \/ (exists err,
              JsMap.get k (clients w') = None
              /\ write_throws env (trace w0 ++ before) (res c) PING_FRAME
                 = Some err
              /\ In (EvWrite (res c) PING_FRAME (Some err)) after
              /\ end_called (res c) after)).

(** No character of [s] is [;] or [=]. *)
Definition plain (s : string) : bool :=
  negb (JsString.contains ";" s) && negb (JsString.contains "=" s).

(** Further concrete worlds. *)
Module Cases.

(** [idle] (session [tokB]) and [c1] (session [tokA]) are live; the
    subscription table holds a session-wide row, a row for a client that
    is not live, a row naming [c1] by id, and a row for another event. *)
Definition fan_out : World :=
  mkWorld [("c0", Scenario.idle); ("c1", Scenario.c1)] []
          [mkSubscription "tokB" "demo-event" None;
           mkSubscription "tokA" "demo-event" (Some "gone");
           mkSubscription "any" "demo-event" (Some "c1");
           mkSubscription "tokA" "other" None] [].

(** Writes to [r1] throw, all else succeeds. *)
Definition r1_broken : Env :=
  mkEnv (fun _ r _ => if Nat.eqb (res_id r) 1 then Some "EPIPE" else None)
        (fun _ _ => None) (fun _ _ => None)
        (fun tr _ => 100000 + Z.of_nat (length tr)).

(** Every [end()] throws and the database is down. *)
Definition all_broken : Env :=
  mkEnv (fun _ _ _ => Some "EPIPE") (fun _ _ => Some "ERR_STREAM")
        (fun _ _ => Some "P1001")
        (fun tr _ => 100000 + Z.of_nat (length tr)).

(** A client without a session. *)
Definition guest : SSEClient :=
  mkClient "c1" Scenario.r2 None 100000 None None None.

(** [c1] with a cache that already holds two events. *)
Definition c1_cached : SSEClient :=
  mkClient "c1" Scenario.r1 (Some "tokA") 100000
           (Some ["demo-event"; "other"]) None None.

End Cases.

(** Every character of [s] is white space. *)
Fixpoint all_space (s : string) : bool :=
  match s with
  | EmptyString => true
  | String c rest => JsString.is_space c && all_space rest
  end.

(** The name [getCookieValue] reads off one piece of the header. *)
Definition cookie_name (piece : string) : string :=
  hd EmptyString (JsString.split "=" (JsString.trim piece)).

(** Pieces of a header, each followed by its [;]. *)
Fixpoint pieces_then (pieces : list string) (tail : string) : string :=
  match pieces with
  | [] => tail
  | p :: more => p ++ ";" ++ pieces_then more tail
  end.

(* ------------------------------------------------------------------ *)
(** ** Proof rules for method bodies                                   *)
(* ------------------------------------------------------------------ *)

Section Combinators.
Context {R : World -> World -> Prop} {P : Event -> Prop}.
Context {FP : Footprint R P}.
Variable env : Env.

Lemma preserves_ret {A} (a : A) : preserves R (ret a).
Proof. intros w. apply fp_refl. Qed.

Lemma preserves_throw {A} (e : string) : preserves R (@throw A e).
Proof. intros w. apply fp_refl. Qed.

Lemma preserves_bind {A B} (m : JS A) (f : A -> JS B) :
  preserves R m -> (forall a, preserves R (f a)) -> preserves R (bind m f).
Proof.
  intros Hm Hf w. unfold bind. specialize (Hm w).
  destruct (m w) as [[a|e] w1]; simpl in *; auto.
  eapply fp_trans; [exact Hm | apply Hf].
Qed.

Lemma preserves_try_catch {A} (m : JS A) (h : string -> JS A) :
  preserves R m -> (forall e, preserves R (h e)) ->
  preserves R (try_catch m h).
Proof.
  intros Hm Hh w. unfold try_catch. specialize (Hm w).
  destruct (m w) as [[a|e] w1]; simpl in *; auto.
  eapply fp_trans; [exact Hm | apply Hh].
Qed.

Lemma preserves_for_each {X} (l : list X) (body : X -> JS unit) :
  (forall x, preserves R (body x)) -> preserves R (for_each l body).
Proof.
  intros Hb. induction l as [|x l IH]; simpl.
  - apply preserves_ret.
  - apply preserves_bind; auto.
Qed.

Lemma preserves_get_client k : preserves R (get_client k).
Proof. intros w. apply fp_refl. Qed.

Lemma preserves_for_entries (body : string -> SSEClient -> JS unit) :
  (forall k c, preserves R (body k c)) -> preserves R (for_entries body).
Proof.
  intros Hb w. unfold for_entries.
  apply preserves_for_each. intros k. unfold visit.
  apply preserves_bind; [apply preserves_get_client|].
  intros [c|]; [apply Hb | apply preserves_ret].
Qed.

Lemma preserves_now : preserves R (now env).
Proof. intros w. apply fp_refl. Qed.

Lemma preserves_now_again n : preserves R (now_again env n).
Proof. intros w. apply fp_refl. Qed.

Lemma preserves_log msg :
  P (EvLog ("[SSEManager] " ++ msg)) -> preserves R (log msg).
Proof. intros HP w. apply fp_event, HP. Qed.

Lemma preserves_res_write r chunk :
  (forall o, P (EvWrite r chunk o)) -> preserves R (res_write env r chunk).
Proof.
  intros HP w. unfold res_write.
  destruct (write_throws env (trace w) r chunk); apply fp_event, HP.
Qed.

Lemma preserves_res_end r :
  (forall o, P (EvEnd r o)) -> preserves R (res_end env r).
Proof.
  intros HP w. unfold res_end.
  destruct (end_throws env (trace w) r); apply fp_event, HP.
Qed.

Lemma preserves_db {A} call (effect : World -> A * World) :
  (forall o, P (EvDb call o)) ->
  (forall w, R w (snd (effect w))) ->
  preserves R (db env call effect).
Proof.
  intros HP He w. unfold db.
  destruct (db_fails env (trace w) call).
  - apply fp_event, HP.
  - specialize (He (add_event (EvDb call None) w)).
    destruct (effect (add_event (EvDb call None) w)) as [a w1]. simpl in *.
    eapply fp_trans; [apply fp_event, HP | exact He].
Qed.

Lemma preserves_modify_clients f :
  (forall w, R w (set_clients (f (clients w)) w)) ->
  preserves R (modify_clients f).
Proof. intros H w. apply H. Qed.

End Combinators.

Section Totality.
Variable env : Env.

Lemma total_ret {A} (a : A) : total (ret a).
Proof. intros w. eexists. reflexivity. Qed.

Lemma total_bind {A B} (m : JS A) (f : A -> JS B) :
  total m -> (forall a, total (f a)) -> total (bind m f).
Proof.
  intros Hm Hf w. unfold bind. destruct (Hm w) as [a Ha].
  destruct (m w) as [[a'|e] w1]; simpl in *; [apply Hf | discriminate].
Qed.

Lemma total_try_catch {A} (m : JS A) (h : string -> JS A) :
  (forall e, total (h e)) -> total (try_catch m h).
Proof.
  intros Hh w. unfold try_catch.
  destruct (m w) as [[a|e] w1]; simpl; [eexists; reflexivity | apply Hh].
Qed.

Lemma total_for_each {X} (l : list X) (body : X -> JS unit) :
  (forall x, total (body x)) -> total (for_each l body).
Proof.
  intros Hb. induction l as [|x l IH]; simpl.
  - apply total_ret.
  - apply total_bind; auto.
Qed.

Lemma total_get_client k : total (get_client k).
Proof. intros w. eexists. reflexivity. Qed.

Lemma total_for_entries (body : string -> SSEClient -> JS unit) :
  (forall k c, total (body k c)) -> total (for_entries body).
Proof.
  intros Hb w. unfold for_entries.
  apply total_for_each. intros k. unfold visit.
  apply total_bind; [apply total_get_client|].
  intros [c|]; [apply Hb | apply total_ret].
Qed.

Lemma total_now : total (now env).
Proof. intros w. eexists. reflexivity. Qed.

Lemma total_now_again n : total (now_again env n).
Proof. intros w. eexists. reflexivity. Qed.

Lemma total_log msg : total (log msg).
Proof. intros w. eexists. reflexivity. Qed.

Lemma total_modify_clients f : total (modify_clients f).
Proof. intros w. eexists. reflexivity. Qed.

Lemma total_unit (m : JS unit) w : total m -> fst (m w) = Normal tt.
Proof. intros H. destruct (H w) as [[] Ha]. exact Ha. Qed.

End Totality.

(** Walking through a method body, one construct at a time. *)
Ltac walk_preserves :=
  repeat match goal with
  | |- preserves _ (bind _ _) => apply preserves_bind; [ | intros ]
  | |- preserves _ (try_catch _ _) => apply preserves_try_catch; [ | intros ]
  | |- preserves _ (for_entries _) => apply preserves_for_entries; intros
  | |- preserves _ (for_each _ _) => apply preserves_for_each; intros
  | |- preserves _ (ret _) => apply preserves_ret
  | |- preserves _ (throw _) => apply preserves_throw
  | |- preserves _ (get_client _) => apply preserves_get_client
  | |- preserves _ (now _) => apply preserves_now
  | |- preserves _ (now_again _ _) => apply preserves_now_again
  | |- preserves _ (if ?b then _ else _) => destruct b
  | |- preserves _ (match ?c with Some _ => _ | None => _ end) => destruct c
  end.

Ltac walk_total :=
  repeat match goal with
  | |- total (bind _ _) => apply total_bind; [ | intros ]
  | |- total (try_catch _ _) => apply total_try_catch; intros
  | |- total (for_entries _) => apply total_for_entries; intros
  | |- total (for_each _ _) => apply total_for_each; intros
  | |- total (ret _) => apply total_ret
  | |- total (get_client _) => apply total_get_client
  | |- total (now _) => apply total_now
  | |- total (now_again _ _) => apply total_now_again
  | |- total (log _) => apply total_log
  | |- total (modify_clients _) => apply total_modify_clients
  | |- total (if ?b then _ else _) => destruct b
  | |- total (match ?c with Some _ => _ | None => _ end) => destruct c
  end.

(* ------------------------------------------------------------------ *)
(** ** Footprints                                                      *)
(* ------------------------------------------------------------------ *)

#[export] Instance keeps_clients_fp : Footprint (keeps clients) (fun _ => True).
Proof. split; unfold keeps; intros; simpl; congruence. Qed.

#[export] Instance keeps_sessions_fp : Footprint (keeps sessions) (fun _ => True).
Proof. split; unfold keeps; intros; simpl; congruence. Qed.

#[export] Instance keeps_subs_fp : Footprint (keeps subs) (fun _ => True).
Proof. split; unfold keeps; intros; simpl; congruence. Qed.

#[export] Instance appends_fp P : Footprint (appends P) P.
Proof.
  split; unfold appends.
  - intros w. exists []. rewrite app_nil_r. auto.
  - intros a b c [e1 [H1 F1]] [e2 [H2 F2]]. exists (e1 ++ e2)%list.
    rewrite H2, H1, app_assoc. split; [reflexivity | apply Forall_app; auto].
  - intros e w HP. exists [e]. simpl. auto.
Qed.

Ltac leaf_preserves :=
  first
    [ apply preserves_log; simpl; solve [auto]
    | apply preserves_res_write; intros; simpl; solve [auto]
    | apply preserves_res_end; intros; simpl; solve [auto]
    | apply preserves_db;
      [ intros; simpl; solve [auto]
      | intros; simpl; unfold keeps, appends; simpl;
        solve [reflexivity | exists []; rewrite app_nil_r; auto] ]
    | apply preserves_modify_clients; intros; unfold keeps, appends; simpl;
      solve [reflexivity | exists []; rewrite app_nil_r; auto]
    | solve [auto with footprint] ].

Ltac frame_method := walk_preserves; try cbv zeta; walk_preserves; leaf_preserves.

Create HintDb footprint.

Section SendFootprints.
Variable env : Env.
Variable ev : SSEEvent.

Lemma send_appends r : preserves (appends (carries (frame ev))) (send env r ev).
Proof. unfold send. frame_method. Qed.

Lemma send_keeps_clients r : preserves (keeps clients) (send env r ev).
Proof. unfold send. frame_method. Qed.

Lemma send_keeps_sessions r : preserves (keeps sessions) (send env r ev).
Proof. unfold send. frame_method. Qed.

Lemma send_keeps_subs r : preserves (keeps subs) (send env r ev).
Proof. unfold send. frame_method. Qed.

Lemma send_total r : total (send env r ev).
Proof. unfold send. walk_total. Qed.

Hint Resolve send_appends send_keeps_clients send_keeps_sessions
     send_keeps_subs : footprint.

Lemma sendEventToClient_appends k :
  preserves (appends (carries (frame ev))) (sendEventToClient env k ev).
Proof. unfold sendEventToClient. frame_method. Qed.

Lemma sendEventToClient_keeps_clients k :
  preserves (keeps clients) (sendEventToClient env k ev).
Proof. unfold sendEventToClient. frame_method. Qed.

Lemma sendEventToClient_keeps_sessions k :
  preserves (keeps sessions) (sendEventToClient env k ev).
Proof. unfold sendEventToClient. frame_method. Qed.

Lemma sendEventToClient_keeps_subs k :
  preserves (keeps subs) (sendEventToClient env k ev).
Proof. unfold sendEventToClient. frame_method. Qed.

Lemma sendEventToClient_total k : total (sendEventToClient env k ev).
Proof. unfold sendEventToClient. walk_total; apply send_total. Qed.

Lemma sendEventToUser_appends tok :
  preserves (appends (carries (frame ev))) (sendEventToUser env tok ev).
Proof. unfold sendEventToUser. frame_method. Qed.

Lemma sendEventToUser_keeps_clients tok :
  preserves (keeps clients) (sendEventToUser env tok ev).
Proof. unfold sendEventToUser. frame_method. Qed.

Lemma sendEventToUser_keeps_sessions tok :
  preserves (keeps sessions) (sendEventToUser env tok ev).
Proof. unfold sendEventToUser. frame_method. Qed.

Lemma sendEventToUser_keeps_subs tok :
  preserves (keeps subs) (sendEventToUser env tok ev).
Proof. unfold sendEventToUser. frame_method. Qed.

Lemma sendEventToUser_total tok : total (sendEventToUser env tok ev).
Proof. unfold sendEventToUser. walk_total; apply send_total. Qed.

Lemma broadcast_appends :
  preserves (appends (carries (frame ev))) (broadcast env ev).
Proof. unfold broadcast. frame_method. Qed.

Lemma broadcast_keeps_clients : preserves (keeps clients) (broadcast env ev).
Proof. unfold broadcast. frame_method. Qed.

Lemma broadcast_keeps_sessions : preserves (keeps sessions) (broadcast env ev).
Proof. unfold broadcast. frame_method. Qed.

Lemma broadcast_keeps_subs : preserves (keeps subs) (broadcast env ev).
Proof. unfold broadcast. frame_method. Qed.

Lemma broadcast_total : total (broadcast env ev).
Proof. unfold broadcast. walk_total; apply send_total. Qed.

Hint Resolve sendEventToClient_appends sendEventToClient_keeps_clients
     sendEventToClient_keeps_sessions sendEventToClient_keeps_subs
     sendEventToUser_appends sendEventToUser_keeps_clients
     sendEventToUser_keeps_sessions sendEventToUser_keeps_subs : footprint.

Lemma sendEventToSubscribers_appends e :
  preserves (appends (carries (frame ev))) (sendEventToSubscribers env e ev).
Proof. unfold sendEventToSubscribers. frame_method. Qed.

Lemma sendEventToSubscribers_keeps_clients e :
  preserves (keeps clients) (sendEventToSubscribers env e ev).
Proof. unfold sendEventToSubscribers. frame_method. Qed.

Lemma sendEventToSubscribers_keeps_sessions e :
  preserves (keeps sessions) (sendEventToSubscribers env e ev).
Proof. unfold sendEventToSubscribers. frame_method. Qed.

Lemma sendEventToSubscribers_keeps_subs e :
  preserves (keeps subs) (sendEventToSubscribers env e ev).
Proof. unfold sendEventToSubscribers. frame_method. Qed.

End SendFootprints.

Lemma appends_weaken (P Q : Event -> Prop) {A} (m : JS A) :
  (forall e, P e -> Q e) -> preserves (appends P) m -> preserves (appends Q) m.
Proof.
  intros HPQ Hm w. destruct (Hm w) as [evs [Ht HF]].
  exists evs. split; [exact Ht|].
  eapply Forall_impl; [|exact HF]. exact HPQ.
Qed.

Lemma appends_writes chunk w w' :
  appends (carries chunk) w w' ->
  exists evs, trace w' = (trace w ++ evs)%list /\
              forall r c o, In (EvWrite r c o) evs -> c = chunk.
Proof.
  intros [evs [Ht HF]]. exists evs. split; [exact Ht|].
  intros r c o Hin. rewrite Forall_forall in HF. exact (HF _ Hin).
Qed.

Section SessionFootprints.
Variable env : Env.

Lemma updateSession_quiet c : preserves (appends no_write) (updateSession env c).
Proof. unfold updateSession. frame_method. Qed.

Lemma updateSession_keeps_clients c : preserves (keeps clients) (updateSession env c).
Proof. unfold updateSession. frame_method. Qed.

Lemma updateSession_keeps_subs c : preserves (keeps subs) (updateSession env c).
Proof. unfold updateSession. frame_method. Qed.

Lemma updateSession_total c : total (updateSession env c).
Proof. unfold updateSession. walk_total. Qed.

Lemma updateSessionPing_quiet k :
  preserves (appends no_write) (updateSessionPing env k).
Proof. unfold updateSessionPing. frame_method. Qed.

Lemma updateSessionPing_keeps_clients k :
  preserves (keeps clients) (updateSessionPing env k).
Proof. unfold updateSessionPing. frame_method. Qed.

Lemma updateSessionPing_keeps_subs k :
  preserves (keeps subs) (updateSessionPing env k).
Proof. unfold updateSessionPing. frame_method. Qed.

Lemma updateSessionPing_total k : total (updateSessionPing env k).
Proof. unfold updateSessionPing. walk_total. Qed.

Lemma markSessionOffline_quiet k :
  preserves (appends no_write) (markSessionOffline env k).
Proof. unfold markSessionOffline. frame_method. Qed.

Lemma markSessionOffline_keeps_clients k :
  preserves (keeps clients) (markSessionOffline env k).
Proof. unfold markSessionOffline. frame_method. Qed.

Lemma markSessionOffline_keeps_subs k :
  preserves (keeps subs) (markSessionOffline env k).
Proof. unfold markSessionOffline. frame_method. Qed.

Lemma markSessionOffline_total k : total (markSessionOffline env k).
Proof. unfold markSessionOffline. walk_total. Qed.

Lemma markSessionOfflineBySessionToken_quiet t :
  preserves (appends no_write) (markSessionOfflineBySessionToken env t).
Proof. unfold markSessionOfflineBySessionToken. frame_method. Qed.

Lemma markSessionOfflineBySessionToken_keeps_clients t :
  preserves (keeps clients) (markSessionOfflineBySessionToken env t).
Proof. unfold markSessionOfflineBySessionToken. frame_method. Qed.

Lemma markSessionOfflineBySessionToken_keeps_subs t :
  preserves (keeps subs) (markSessionOfflineBySessionToken env t).
Proof. unfold markSessionOfflineBySessionToken. frame_method. Qed.

Lemma markSessionOfflineBySessionToken_total t :
  total (markSessionOfflineBySessionToken env t).
Proof. unfold markSessionOfflineBySessionToken. walk_total. Qed.

Hint Resolve updateSession_quiet updateSession_keeps_clients
  updateSession_keeps_subs updateSessionPing_quiet
  updateSessionPing_keeps_clients updateSessionPing_keeps_subs
  markSessionOffline_quiet markSessionOffline_keeps_clients
  markSessionOffline_keeps_subs markSessionOfflineBySessionToken_quiet
  markSessionOfflineBySessionToken_keeps_clients
  markSessionOfflineBySessionToken_keeps_subs : footprint.

Lemma removeClient_quiet k : preserves (appends no_write) (removeClient env k).
Proof. unfold removeClient. frame_method. Qed.

Lemma removeClient_keeps_subs k : preserves (keeps subs) (removeClient env k).
Proof. unfold removeClient. frame_method. Qed.

Lemma removeClient_total k : total (removeClient env k).
Proof.
  unfold removeClient. walk_total;
    auto using markSessionOffline_total, markSessionOfflineBySessionToken_total.
Qed.

Lemma addClient_total c : total (addClient env c).
Proof.
  unfold addClient. walk_total;
    auto using removeClient_total, updateSession_total.
Qed.

Hint Resolve removeClient_quiet removeClient_keeps_subs : footprint.

Lemma addClient_quiet c : preserves (appends no_write) (addClient env c).
Proof. unfold addClient. frame_method. Qed.

Lemma heartbeat_tick_pings :
  preserves (appends (carries PING_FRAME)) (heartbeat_tick env).
Proof.
  assert (W : forall e, no_write e -> carries PING_FRAME e)
    by (intros [] H; simpl in *; tauto).
  unfold heartbeat_tick. walk_preserves; try cbv zeta; walk_preserves;
    try leaf_preserves.
  - eapply appends_weaken; [exact W | apply updateSessionPing_quiet].
  - eapply appends_weaken; [exact W | apply removeClient_quiet].
Qed.

Lemma heartbeat_tick_total : total (heartbeat_tick env).
Proof.
  unfold heartbeat_tick. walk_total. apply removeClient_total.
Qed.

End SessionFootprints.

(* ------------------------------------------------------------------ *)
(** ** The send operations                                             *)
(* ------------------------------------------------------------------ *)

Lemma events_since_app w w' evs :
  trace w' = (trace w ++ evs)%list -> events_since w w' = evs.
Proof.
  intros H. unfold events_since. rewrite H.
  rewrite skipn_app, skipn_all, Nat.sub_diag. reflexivity.
Qed.

Lemma send_op_appends env target ev :
  preserves (appends (carries (frame ev))) (send_op env target ev).
Proof.
  destruct target; simpl;
    auto using sendEventToClient_appends, sendEventToUser_appends,
               sendEventToSubscribers_appends, broadcast_appends.
Qed.

Lemma send_present env r ev w :
  exists o msg,
    send env r ev w =
    (Normal tt,
     add_event (EvLog msg) (add_event (EvWrite r (frame ev) o) w)).
Proof.
  unfold send, try_catch, bind, res_write, log. cbv zeta.
  destruct (isStreamRes r); destruct (write_throws env (trace w) r (frame ev));
    simpl; eauto.
Qed.

Lemma send_failed_write env r ev w e :
  write_throws env (trace w) r (frame ev) = Some e ->
  send env r ev w =
  (Normal tt,
   add_event (EvLog ("[SSEManager] Error sending event to client: " ++ e))
             (add_event (EvWrite r (frame ev) (Some e)) w)).
Proof.
  intros H. unfold send, try_catch, bind, res_write, log. cbv zeta.
  destruct (isStreamRes r); rewrite H; reflexivity.
Qed.

(** C8: [sendEventToClient] for an id that is not a key of the map
    completes normally and leaves the whole world as it was: the map and
    every client in it, both tables, and the history (no write, no log). *)
Theorem C8_sendEventToClient_absent_is_noop :
  forall env clientId ev w,
    JsMap.get clientId (clients w) = None ->
    sendEventToClient env clientId ev w = (Normal tt, w).
Proof.
  intros env clientId ev w H.
  unfold sendEventToClient, bind, get_client. rewrite H. reflexivity.
Qed.

Lemma C8_witness :
  JsMap.get "ghost" (clients Scenario.only_c1) = None /\
  sendEventToClient Scenario.broken_pipe "ghost" Scenario.demo Scenario.only_c1
  = (Normal tt, Scenario.only_c1).
Proof.
  split; [reflexivity|].
  apply (C8_sendEventToClient_absent_is_noop
           Scenario.broken_pipe "ghost" Scenario.demo Scenario.only_c1).
  reflexivity.
Defined.

(** C10: no send operation changes the registry: the map of clients (its
    keys and every field of every client) is the same afterwards, and so
    are both tables, whatever the connections and the database do.  A write
    that throws is caught inside [send] and logged; the client stays. *)
Theorem C10_sends_leave_registry_unchanged :
  (forall env target ev w,
      clients (snd (send_op env target ev w)) = clients w
      /\ sessions (snd (send_op env target ev w)) = sessions w
      /\ subs (snd (send_op env target ev w)) = subs w)
  /\ (forall env r ev w e,
      write_throws env (trace w) r (frame ev) = Some e ->
      send env r ev w =
      (Normal tt,
       add_event (EvLog ("[SSEManager] Error sending event to client: " ++ e))
                 (add_event (EvWrite r (frame ev) (Some e)) w))).
Proof.
  split.
  - intros env target ev w. destruct target; simpl; repeat split.
    + apply sendEventToClient_keeps_clients.
    + apply sendEventToClient_keeps_sessions.
    + apply sendEventToClient_keeps_subs.
    + apply sendEventToUser_keeps_clients.
    + apply sendEventToUser_keeps_sessions.
    + apply sendEventToUser_keeps_subs.
    + apply sendEventToSubscribers_keeps_clients.
    + apply sendEventToSubscribers_keeps_sessions.
    + apply sendEventToSubscribers_keeps_subs.
    + apply broadcast_keeps_clients.
    + apply broadcast_keeps_sessions.
    + apply broadcast_keeps_subs.
  - intros. apply send_failed_write. assumption.
Qed.

Lemma C10_witness :
  clients (snd (send_op Scenario.broken_pipe ToAll Scenario.demo Scenario.only_c1))
  = [("c1", Scenario.c1)]
  /\ send Scenario.broken_pipe Scenario.r1 Scenario.demo Scenario.only_c1
     = (Normal tt,
        add_event (EvLog "[SSEManager] Error sending event to client: EPIPE")
          (add_event (EvWrite Scenario.r1 (frame Scenario.demo) (Some "EPIPE"))
                     Scenario.only_c1)).
Proof.
  split.
  - exact (proj1 (proj1 C10_sends_leave_registry_unchanged
                   Scenario.broken_pipe ToAll Scenario.demo Scenario.only_c1)).
  - apply (proj2 C10_sends_leave_registry_unchanged
             Scenario.broken_pipe Scenario.r1 Scenario.demo Scenario.only_c1 "EPIPE").
    reflexivity.
Defined.

(* ------------------------------------------------------------------ *)
(** ** Facts about [Map]                                               *)
(* ------------------------------------------------------------------ *)

Section MapFacts.
Context {V : Type}.
Implicit Types (m done rest : list (string * V)) (k : string).

Lemma get_app_notin k done rest :
  ~ In k (JsMap.keys done) ->
  JsMap.get k (done ++ rest)%list = JsMap.get k rest.
Proof.
  induction done as [|[k' v] done IH]; simpl; intros Hn; [reflexivity|].
  destruct (String.eqb_spec k k') as [->|Hne].
  - exfalso. apply Hn. left. reflexivity.
  - apply IH. intros Hin. apply Hn. right. exact Hin.
Qed.

Lemma get_head k (v : V) rest : JsMap.get k ((k, v) :: rest) = Some v.
Proof. simpl. rewrite String.eqb_refl. reflexivity. Qed.

Lemma get_In k (v : V) m : JsMap.get k m = Some v -> In (k, v) m.
Proof.
  induction m as [|[k' v'] m IH]; simpl; [discriminate|].
  destruct (String.eqb_spec k k') as [->|Hne].
  - intros [= ->]. left. reflexivity.
  - intros H. right. apply IH, H.
Qed.

Lemma get_None_notin k m : JsMap.get k m = None <-> ~ In k (JsMap.keys m).
Proof.
  induction m as [|[k' v'] m IH]; simpl.
  - split; auto.
  - destruct (String.eqb_spec k k') as [->|Hne].
    + split; [discriminate | intros H; exfalso; apply H; left; reflexivity].
    + rewrite IH. split.
      * intros H [E|Hin]; [apply Hne; symmetry; exact E | apply H, Hin].
      * intros H Hin. apply H. right. exact Hin.
Qed.

Lemma In_get k (v : V) m :
  NoDup (JsMap.keys m) -> In (k, v) m -> JsMap.get k m = Some v.
Proof.
  induction m as [|[k' v'] m IH]; simpl; [intros _ []|].
  intros Hnd [E|Hin].
  - inversion E; subst. rewrite String.eqb_refl. reflexivity.
  - inversion Hnd as [|? ? Hk Hnd']; subst.
    destruct (String.eqb_spec k k') as [->|Hne].
    + exfalso. apply Hk. change (In (fst (k', v)) (map fst m)).
      apply in_map, Hin.
    + apply IH; assumption.
Qed.

Lemma delete_notin k m : ~ In k (JsMap.keys m) -> JsMap.delete k m = m.
Proof.
  induction m as [|[k' v] m IH]; simpl; intros Hn; [reflexivity|].
  destruct (String.eqb_spec k k') as [->|Hne].
  - exfalso. apply Hn. left. reflexivity.
  - simpl. f_equal. apply IH. intros Hin. apply Hn. right. exact Hin.
Qed.

Lemma delete_app k done rest :
  JsMap.delete k (done ++ rest)%list
  = (JsMap.delete k done ++ JsMap.delete k rest)%list.
Proof. unfold JsMap.delete. apply filter_app. Qed.

Lemma delete_middle k (v : V) done rest :
  NoDup (JsMap.keys (done ++ (k, v) :: rest)%list) ->
  JsMap.delete k (done ++ (k, v) :: rest)%list = (done ++ rest)%list.
Proof.
  intros Hnd. unfold JsMap.keys in Hnd. rewrite map_app in Hnd. simpl in Hnd.
  pose proof (NoDup_remove_2 _ _ _ Hnd) as Hk.
  rewrite delete_app. simpl. rewrite String.eqb_refl. simpl.
  rewrite !delete_notin; [reflexivity| |];
    intros Hin; apply Hk; apply in_or_app; auto.
Qed.

Lemma update_notin k (f : V -> V) m :
  ~ In k (JsMap.keys m) -> JsMap.update k f m = m.
Proof.
  induction m as [|[k' v] m IH]; simpl; intros Hn; [reflexivity|].
  destruct (String.eqb_spec k k') as [->|Hne].
  - exfalso. apply Hn. left. reflexivity.
  - f_equal. apply IH. intros Hin. apply Hn. right. exact Hin.
Qed.

Lemma update_middle k (v : V) (f : V -> V) done rest :
  NoDup (JsMap.keys (done ++ (k, v) :: rest)%list) ->
  JsMap.update k f (done ++ (k, v) :: rest)%list
  = (done ++ (k, f v) :: rest)%list.
Proof.
  intros Hnd. unfold JsMap.keys in Hnd. rewrite map_app in Hnd. simpl in Hnd.
  pose proof (NoDup_remove_2 _ _ _ Hnd) as Hk.
  unfold JsMap.update. rewrite map_app. simpl. rewrite String.eqb_refl. simpl.
  fold (JsMap.update k f done). fold (JsMap.update k f rest).
  rewrite !update_notin; [reflexivity| |];
    intros Hin; apply Hk; apply in_or_app; auto.
Qed.

Lemma keys_update k (f : V -> V) m :
  JsMap.keys (JsMap.update k f m) = JsMap.keys m.
Proof.
  unfold JsMap.keys, JsMap.update. rewrite map_map. apply map_ext.
  intros [k' v]. simpl. destruct (String.eqb k k'); reflexivity.
Qed.

Lemma keys_filter_NoDup (p : string * V -> bool) m :
  NoDup (JsMap.keys m) -> NoDup (JsMap.keys (filter p m)).
Proof.
  induction m as [|[k v] m IH]; simpl; intros Hnd; [constructor|].
  inversion Hnd as [|? ? Hk Hnd']; subst.
  destruct (p (k, v)); simpl; [constructor|]; auto.
  intros Hin. apply Hk. unfold JsMap.keys in *.
  apply in_map_iff in Hin. destruct Hin as [[k' v'] [E Hin]].
  apply filter_In in Hin. destruct Hin as [Hin _].
  apply in_map_iff. exists (k', v'). auto.
Qed.

Lemma get_middle k (v : V) done rest :
  NoDup (JsMap.keys (done ++ (k, v) :: rest)%list) ->
  JsMap.get k (done ++ (k, v) :: rest)%list = Some v.
Proof.
  intros Hnd. apply In_get; [exact Hnd|].
  apply in_or_app. right. left. reflexivity.
Qed.

End MapFacts.

Section MapLookup.
Context {V : Type}.

Lemma get_delete_same k (m : list (string * V)) :
  JsMap.get k (JsMap.delete k m) = None.
Proof.
  apply get_None_notin. unfold JsMap.keys, JsMap.delete. intros Hin.
  apply in_map_iff in Hin. destruct Hin as [[k' v] [E Hin]]. simpl in E. subst.
  apply filter_In in Hin. destruct Hin as [_ Hk]. simpl in Hk.
  rewrite String.eqb_refl in Hk. discriminate.
Qed.

Lemma get_delete_other k k' (m : list (string * V)) :
  k' <> k -> JsMap.get k' (JsMap.delete k m) = JsMap.get k' m.
Proof.
  intros Hne. induction m as [|[k0 v] m IH]; simpl; [reflexivity|].
  destruct (String.eqb_spec k k0) as [->|Hk]; simpl.
  - destruct (String.eqb_spec k' k0); [contradiction | exact IH].
  - destruct (String.eqb k' k0); [reflexivity | exact IH].
Qed.

Lemma get_update_same k (f : V -> V) (m : list (string * V)) :
  JsMap.get k (JsMap.update k f m) = option_map f (JsMap.get k m).
Proof.
  induction m as [|[k0 v] m IH]; simpl; [reflexivity|].
  destruct (String.eqb k k0) eqn:E; simpl; rewrite E; [reflexivity | exact IH].
Qed.

Lemma get_update_other k k' (f : V -> V) (m : list (string * V)) :
  k' <> k -> JsMap.get k' (JsMap.update k f m) = JsMap.get k' m.
Proof.
  intros Hne. induction m as [|[k0 v] m IH]; simpl; [reflexivity|].
  destruct (String.eqb_spec k k0) as [->|Hk]; simpl.
  - destruct (String.eqb_spec k' k0); [contradiction | exact IH].
  - destruct (String.eqb k' k0); [reflexivity | exact IH].
Qed.

End MapLookup.

(* ------------------------------------------------------------------ *)
(** ** Two loop shapes over [this.clients]                             *)
(* ------------------------------------------------------------------ *)

Lemma set_clients_same w : set_clients (clients w) w = w.
Proof. destruct w; reflexivity. Qed.

Lemma visit_present body k c w :
  JsMap.get k (clients w) = Some c -> visit body k w = body k c w.
Proof. intros H. unfold visit, bind, get_client. rewrite H. reflexivity. Qed.

Lemma for_each_cons {X} (x : X) l (body : X -> JS unit) w :
  for_each (x :: l) body w
  = match body x w with
    | (Normal _, w1) => for_each l body w1
    | (Thrown e, w1) => (Thrown e, w1)
    end.
Proof. reflexivity. Qed.

(** Loops that mutate a field of the clients selected by [p]. *)
Section UpdateLoop.
Variable p : SSEClient -> bool.
Variable f : SSEClient -> SSEClient.

Lemma update_loop_from rest : forall done w,
  clients w = (done ++ rest)%list ->
  NoDup (JsMap.keys (done ++ rest)%list) ->
  for_each (JsMap.keys rest) (visit (update_body p f)) w
  = (Normal tt, set_clients (done ++ map (touch p f) rest)%list w).
Proof.
  induction rest as [|[k c] rest IH]; intros done w Hc Hnd.
  - simpl. unfold ret. rewrite <- Hc, set_clients_same. reflexivity.
  - change (JsMap.keys ((k, c) :: rest)) with (k :: JsMap.keys rest).
    rewrite for_each_cons, (visit_present (update_body p f) k c)
      by (rewrite Hc; apply get_middle, Hnd).
    unfold update_body at 1. simpl map. unfold touch at 1. simpl fst. simpl snd.
    destruct (p c) eqn:Hp.
    + unfold modify_clients. rewrite Hc, (update_middle _ _ _ _ _ Hnd).
      rewrite (IH (done ++ [(k, f c)])%list).
      * simpl. rewrite <- app_assoc. reflexivity.
      * simpl. rewrite <- app_assoc. reflexivity.
      * rewrite <- app_assoc. simpl.
        unfold JsMap.keys in *. rewrite map_app in *. exact Hnd.
    + unfold ret. rewrite (IH (done ++ [(k, c)])%list).
      * rewrite <- app_assoc. reflexivity.
      * rewrite <- app_assoc. exact Hc.
      * rewrite <- app_assoc. exact Hnd.
Qed.

Lemma update_loop w :
  NoDup (JsMap.keys (clients w)) ->
  for_entries (update_body p f) w
  = (Normal tt, set_clients (map (touch p f) (clients w)) w).
Proof.
  intros Hnd. unfold for_entries.
  apply (update_loop_from (clients w) [] w); [reflexivity | exact Hnd].
Qed.

End UpdateLoop.

(** Loops that remove the clients selected by [p]. *)
Section FilterLoop.
Variable p : string -> SSEClient -> bool.
Variable body : string -> SSEClient -> JS unit.
Context {R : World -> World -> Prop} {P : Event -> Prop} {FP : Footprint R P}.
Variable S : string -> SSEClient -> Prop.
Variable Q : string -> SSEClient -> World -> Prop.

Hypothesis body_total : forall k c w,
  S k c -> JsMap.get k (clients w) = Some c -> p k c = true ->
  fst (body k c w) = Normal tt.
Hypothesis body_clients : forall k c w,
  S k c -> JsMap.get k (clients w) = Some c -> p k c = true ->
  clients (snd (body k c w)) = JsMap.delete k (clients w).
Hypothesis body_R : forall k c w,
  S k c -> JsMap.get k (clients w) = Some c -> p k c = true ->
  R w (snd (body k c w)).
Hypothesis body_Q : forall k c w,
  S k c -> JsMap.get k (clients w) = Some c -> p k c = true ->
  Q k c (snd (body k c w)).
Hypothesis Q_stable : forall k c w w', Q k c w -> R w w' -> Q k c w'.

Lemma filter_loop_from rest : forall done w,
  clients w = (done ++ rest)%list ->
  NoDup (JsMap.keys (done ++ rest)%list) ->
  (forall k c, In (k, c) rest -> S k c) ->
  fst (for_each (JsMap.keys rest) (visit (guarded p body)) w) = Normal tt
  /\ clients (snd (for_each (JsMap.keys rest) (visit (guarded p body)) w))
     = (done ++ filter (kept p) rest)%list
  /\ R w (snd (for_each (JsMap.keys rest) (visit (guarded p body)) w))
  /\ (forall k c, In (k, c) rest -> p k c = true ->
        Q k c (snd (for_each (JsMap.keys rest) (visit (guarded p body)) w))).
Proof.
  induction rest as [|[k c] rest IH]; intros done w Hc Hnd HS.
  - simpl. split; [reflexivity|]. split; [exact Hc|].
    split; [apply fp_refl|]. intros k c [].
  - assert (Hget : JsMap.get k (clients w) = Some c)
      by (rewrite Hc; apply get_middle, Hnd).
    assert (HSk : S k c) by (apply HS; left; reflexivity).
    change (JsMap.keys ((k, c) :: rest)) with (k :: JsMap.keys rest).
    rewrite for_each_cons, (visit_present (guarded p body) k c w Hget).
    simpl filter.
    destruct (p k c) eqn:Hp.
    + assert (Hg : guarded p body k c w = body k c w)
        by (unfold guarded; rewrite Hp; reflexivity).
      assert (Hk : kept p (k, c) = false)
        by (unfold kept; simpl; rewrite Hp; reflexivity).
      rewrite Hg, Hk.
      pose proof (body_total k c w HSk Hget Hp) as Ht.
      pose proof (body_clients k c w HSk Hget Hp) as Hcl.
      pose proof (body_R k c w HSk Hget Hp) as HR.
      pose proof (body_Q k c w HSk Hget Hp) as HQ.
      destruct (body k c w) as [[[]|e] w1]; simpl in *; [|discriminate].
      rewrite Hc, (delete_middle _ _ _ _ Hnd) in Hcl.
      assert (Hnd1 : NoDup (JsMap.keys (done ++ rest)%list)).
      { unfold JsMap.keys in *. rewrite map_app in *. simpl in Hnd.
        eapply NoDup_remove_1. exact Hnd. }
      destruct (IH done w1 Hcl Hnd1) as [I1 [I2 [I3 I4]]].
      { intros k' c' Hin. apply HS. right. exact Hin. }
      split; [exact I1|]. split; [exact I2|].
      split; [eapply fp_trans; eauto|].
      intros k' c' [E|Hin] Hp'.
      * inversion E; subst. eapply Q_stable; eauto.
      * apply I4; assumption.
    + assert (Hg : guarded p body k c w = (Normal tt, w))
        by (unfold guarded; rewrite Hp; reflexivity).
      assert (Hk : kept p (k, c) = true)
        by (unfold kept; simpl; rewrite Hp; reflexivity).
      rewrite Hg, Hk.
      destruct (IH (done ++ [(k, c)])%list w) as [I1 [I2 [I3 I4]]].
      { rewrite <- app_assoc. exact Hc. }
      { rewrite <- app_assoc. exact Hnd. }
      { intros k' c' Hin. apply HS. right. exact Hin. }
      split; [exact I1|].
      split; [rewrite I2, <- app_assoc; reflexivity|].
      split; [exact I3|].
      intros k' c' [E|Hin] Hp'.
      * inversion E; subst. congruence.
      * apply I4; assumption.
Qed.

Lemma filter_loop w :
  NoDup (JsMap.keys (clients w)) ->
  (forall k c, In (k, c) (clients w) -> S k c) ->
  fst (for_entries (guarded p body) w) = Normal tt
  /\ clients (snd (for_entries (guarded p body) w)) = filter (kept p) (clients w)
  /\ R w (snd (for_entries (guarded p body) w))
  /\ (forall k c, In (k, c) (clients w) -> p k c = true ->
        Q k c (snd (for_entries (guarded p body) w))).
Proof.
  intros Hnd HS. unfold for_entries.
  apply (filter_loop_from (clients w) [] w); auto.
Qed.

End FilterLoop.

(* ------------------------------------------------------------------ *)
(** ** Subscriptions                                                   *)
(* ------------------------------------------------------------------ *)

Section SubscriptionFacts.
Variable env : Env.

Lemma db_ok {A} call (effect : World -> A * World) w :
  db_fails env (trace w) call = None ->
  db env call effect w
  = (Normal (fst (effect (add_event (EvDb call None) w))),
     snd (effect (add_event (EvDb call None) w))).
Proof.
  intros H. unfold db. rewrite H.
  destruct (effect (add_event (EvDb call None) w)); reflexivity.
Qed.

Lemma db_failed {A} call (effect : World -> A * World) w e :
  db_fails env (trace w) call = Some e ->
  db env call effect w = (Thrown e, add_event (EvDb call (Some e)) w).
Proof. intros H. unfold db. rewrite H. reflexivity. Qed.

Lemma try_catch_normal {A} (m : JS A) h w a :
  fst (m w) = Normal a -> try_catch m h w = m w.
Proof.
  intros H. unfold try_catch. destruct (m w) as [[a'|e] w1]; simpl in *;
    [reflexivity | discriminate].
Qed.

Lemma cache_loop_total p f : total (for_entries (update_body p f)).
Proof. unfold update_body. walk_total. Qed.

Lemma cache_loop_keeps_subs p f :
  preserves (keeps subs) (for_entries (update_body p f)).
Proof. unfold update_body. frame_method. Qed.

Lemma cache_loop_keeps_sessions p f :
  preserves (keeps sessions) (for_entries (update_body p f)).
Proof. unfold update_body. frame_method. Qed.

Lemma cache_loop_quiet p f :
  preserves (appends no_write) (for_entries (update_body p f)).
Proof. unfold update_body. frame_method. Qed.

(** [subscribeToEvent] when the upsert succeeds. *)
Lemma subscribeToEvent_ok tok e cid w :
  db_fails env (trace w) (SubscriptionUpsert tok e tok) = None ->
  fst (subscribeToEvent env tok e cid w) = Normal tt
  /\ subs (snd (subscribeToEvent env tok e cid w))
     = Db.subscription_upsert tok e (Some tok) (subs w)
  /\ sessions (snd (subscribeToEvent env tok e cid w)) = sessions w.
Proof.
  intros Hdb. unfold subscribeToEvent.
  change (fun (k : string) (client : SSEClient) =>
            if opt_eqb (sessionToken client) (Some tok)
            then modify_clients (JsMap.update k (cache_add e))
            else ret tt)
    with (update_body (has_token tok) (cache_add e)).
  set (rest := for_entries (update_body (has_token tok) (cache_add e)) ;;
               log ("Session " ++ tok ++ " subscribed to event: " ++ e)).
  assert (Tr : total rest)
    by (unfold rest; apply total_bind;
        [apply cache_loop_total | intros; apply total_log]).
  assert (Ks : preserves (keeps subs) rest).
  { unfold rest. apply preserves_bind;
      [apply cache_loop_keeps_subs | intros; leaf_preserves]. }
  assert (Kss : preserves (keeps sessions) rest).
  { unfold rest. apply preserves_bind;
      [apply cache_loop_keeps_sessions | intros; leaf_preserves]. }
  set (w1 := set_subs (Db.subscription_upsert tok e (Some tok) (subs w))
                      (add_event (EvDb (SubscriptionUpsert tok e tok) None) w)).
  assert (E : bind (db env (SubscriptionUpsert tok e tok)
                       (on_subs (Db.subscription_upsert tok e (Some tok))))
                   (fun _ => rest) w = rest w1).
  { unfold bind. rewrite (db_ok _ _ _ Hdb). reflexivity. }
  pose proof (total_unit rest w1 Tr) as Hn.
  rewrite (try_catch_normal _ _ w tt) by (rewrite E; exact Hn).
  rewrite E. split; [exact Hn|]. split; [apply (Ks w1) | apply (Kss w1)].
Qed.

(** [unsubscribeFromEvent] when the delete succeeds. *)
Lemma unsubscribeFromEvent_ok tok e cid w :
  db_fails env (trace w) (SubscriptionDeleteMany tok (Some e)) = None ->
  fst (unsubscribeFromEvent env tok e cid w) = Normal tt
  /\ subs (snd (unsubscribeFromEvent env tok e cid w))
     = Db.subscription_deleteMany tok (Some e) (subs w).
Proof.
  intros Hdb. unfold unsubscribeFromEvent.
  change (fun (k : string) (client : SSEClient) =>
            if opt_eqb (sessionToken client) (Some tok)
            then modify_clients (JsMap.update k (cache_remove e))
            else ret tt)
    with (update_body (has_token tok) (cache_remove e)).
  set (rest := for_entries (update_body (has_token tok) (cache_remove e)) ;;
               log ("Session " ++ tok ++ " unsubscribed from event: " ++ e)).
  assert (Tr : total rest)
    by (unfold rest; apply total_bind;
        [apply cache_loop_total | intros; apply total_log]).
  assert (Ks : preserves (keeps subs) rest).
  { unfold rest. apply preserves_bind;
      [apply cache_loop_keeps_subs | intros; leaf_preserves]. }
  set (w1 := set_subs (Db.subscription_deleteMany tok (Some e) (subs w))
               (add_event (EvDb (SubscriptionDeleteMany tok (Some e)) None) w)).
  assert (E : bind (db env (SubscriptionDeleteMany tok (Some e))
                       (on_subs (Db.subscription_deleteMany tok (Some e))))
                   (fun _ => rest) w = rest w1).
  { unfold bind. rewrite (db_ok _ _ _ Hdb). reflexivity. }
  pose proof (total_unit rest w1 Tr) as Hn.
  rewrite (try_catch_normal _ _ w tt) by (rewrite E; exact Hn).
  rewrite E. split; [exact Hn | apply (Ks w1)].
Qed.

Lemma subscribeToEvent_total tok e cid : total (subscribeToEvent env tok e cid).
Proof. unfold subscribeToEvent. walk_total. Qed.

Lemma unsubscribeFromEvent_total tok e cid :
  total (unsubscribeFromEvent env tok e cid).
Proof. unfold unsubscribeFromEvent. walk_total. Qed.

Lemma unsubscribeFromAllEvents_total tok :
  total (unsubscribeFromAllEvents env tok).
Proof. unfold unsubscribeFromAllEvents. walk_total. Qed.

(** [unsubscribeFromAllEvents] when the delete succeeds: the rows are
    deleted, the caches are cleared, then building the log message throws
    and the [catch] logs that instead. *)
Lemma unsubscribeFromAllEvents_ok tok w :
  db_fails env (trace w) (SubscriptionDeleteMany tok None) = None ->
  NoDup (JsMap.keys (clients w)) ->
  unsubscribeFromAllEvents env tok w
  = (Normal tt,
     mkWorld (map (touch (has_token tok) cache_clear) (clients w))
             (sessions w)
             (Db.subscription_deleteMany tok None (subs w))
             (trace w ++
              [EvDb (SubscriptionDeleteMany tok None) None;
               EvLog ("[SSEManager] Error unsubscribing from event: "
                      ++ "ReferenceError: eventName is not defined")])).
Proof.
  intros Hdb Hnd. unfold unsubscribeFromAllEvents.
  change (fun (k : string) (client : SSEClient) =>
            if opt_eqb (sessionToken client) (Some tok)
            then modify_clients (JsMap.update k cache_clear)
            else ret tt)
    with (update_body (has_token tok) cache_clear).
  unfold try_catch, bind. rewrite (db_ok _ _ _ Hdb). simpl fst. simpl snd.
  rewrite update_loop by exact Hnd.
  unfold throw, log, on_subs, add_event, set_clients, set_subs. simpl.
  rewrite <- app_assoc. reflexivity.
Qed.

End SubscriptionFacts.

Lemma count_matching_app tok e a b :
  count_matching tok e (a ++ b) = (count_matching tok e a + count_matching tok e b)%nat.
Proof. unfold count_matching. rewrite filter_app, length_app. reflexivity. Qed.

Lemma count_matching_deleteMany tok e rows :
  count_matching tok e (Db.subscription_deleteMany tok (Some e) rows) = 0%nat.
Proof.
  unfold count_matching, Db.subscription_deleteMany, Db.subscription_where.
  induction rows as [|r rows IH]; simpl; [reflexivity|].
  destruct (String.eqb (sub_sessionToken r) tok && String.eqb (sub_eventName r) e)
    eqn:E; simpl; [exact IH|].
  rewrite E. exact IH.
Qed.

Lemma count_zero_no_triple tok e c rows :
  count_matching tok e rows = 0%nat ->
  existsb (Db.triple_matches tok e c) rows = false.
Proof.
  unfold count_matching, Db.triple_matches.
  induction rows as [|r rows IH]; simpl; [reflexivity|].
  destruct (String.eqb (sub_sessionToken r) tok && String.eqb (sub_eventName r) e);
    simpl; [discriminate | exact IH].
Qed.

Lemma upsert_fresh tok e c rows :
  count_matching tok e rows = 0%nat ->
  Db.subscription_upsert tok e c rows = (rows ++ [mkSubscription tok e c])%list.
Proof.
  intros H. unfold Db.subscription_upsert.
  rewrite (count_zero_no_triple _ _ _ _ H). reflexivity.
Qed.

Lemma upsert_again tok e c rows :
  Db.subscription_upsert tok e c (rows ++ [mkSubscription tok e c])%list
  = (rows ++ [mkSubscription tok e c])%list.
Proof.
  unfold Db.subscription_upsert. rewrite existsb_app. simpl.
  unfold Db.triple_matches at 2. simpl. rewrite !String.eqb_refl.
  assert (opt_eqb c c = true) as -> by (destruct c; simpl; auto using String.eqb_refl).
  simpl. rewrite orb_true_r. reflexivity.
Qed.

Lemma In_deleteMany_all tok rows r :
  In r (Db.subscription_deleteMany tok None rows)
  <-> In r rows /\ sub_sessionToken r <> tok.
Proof.
  unfold Db.subscription_deleteMany, Db.subscription_where.
  rewrite filter_In, andb_true_r, negb_true_iff.
  destruct (String.eqb_spec (sub_sessionToken r) tok); split;
    intros [H1 H2]; split; auto; congruence.
Qed.

Lemma has_token_true tok c : has_token tok c = true <-> sessionToken c = Some tok.
Proof.
  unfold has_token, opt_eqb. destruct (sessionToken c) as [t|].
  - destruct (String.eqb_spec t tok); split; congruence.
  - split; discriminate.
Qed.

Lemma cache_clear_token c : sessionToken (cache_clear c) = sessionToken c.
Proof. unfold cache_clear. destruct (subscriptions c); reflexivity. Qed.

Lemma cache_clear_cached c : cached (cache_clear c) = [].
Proof.
  unfold cache_clear, cached. destruct (subscriptions c) eqn:E; simpl;
    [reflexivity | rewrite E; reflexivity].
Qed.

(** When the read of the subscriptions fails, [sendEventToSubscribers]
    rejects with the database's error: nothing catches it, nothing is
    logged. *)
Lemma sendEventToSubscribers_rejects env e ev w err :
  db_fails env (trace w) (SubscriptionFindMany e) = Some err ->
  sendEventToSubscribers env e ev w
  = (Thrown err, add_event (EvDb (SubscriptionFindMany e) (Some err)) w).
Proof.
  intros H. unfold sendEventToSubscribers, bind.
  rewrite (db_failed _ _ _ _ _ H). reflexivity.
Qed.

(** C1: the scenario on the code.  After [c1] (id [c1], session [tokA])
    connects and [tokA] subscribes to [demo-event], the stored row carries
    [clientId = tokA]; [sendEventToSubscribers] then looks up a client with
    id [tokA], finds none, and writes nothing: the only event recorded is
    the database read. *)
Theorem C1_scenario_delivers_nothing :
  subs (snd ((addClient Scenario.calm Scenario.c1 ;;
              subscribeToEvent Scenario.calm "tokA" "demo-event" None)
               initial_world))
  = [mkSubscription "tokA" "demo-event" (Some "tokA")]
  /\ JsMap.keys
       (clients (snd ((addClient Scenario.calm Scenario.c1 ;;
                       subscribeToEvent Scenario.calm "tokA" "demo-event" None)
                        initial_world)))
     = ["c1"]
  /\ fst ((addClient Scenario.calm Scenario.c1 ;;
           subscribeToEvent Scenario.calm "tokA" "demo-event" None ;;
           sendEventToSubscribers Scenario.calm "demo-event" Scenario.demo)
            initial_world)
     = Normal tt
  /\ events_since
       (snd ((addClient Scenario.calm Scenario.c1 ;;
              subscribeToEvent Scenario.calm "tokA" "demo-event" None)
               initial_world))
       (snd ((addClient Scenario.calm Scenario.c1 ;;
              subscribeToEvent Scenario.calm "tokA" "demo-event" None ;;
              sendEventToSubscribers Scenario.calm "demo-event" Scenario.demo)
               initial_world))
     = [EvDb (SubscriptionFindMany "demo-event") None].
Proof. vm_compute. repeat split. Qed.

(** The same scenario with a client whose id is its session token, as the
    stream endpoint registers it: the frame is written once. *)
Lemma scenario_with_id_equal_to_token :
  events_since
    (snd ((addClient Scenario.calm
             (mkClient "tokA" Scenario.r1 (Some "tokA") 100000 None None None) ;;
           subscribeToEvent Scenario.calm "tokA" "demo-event" None)
            initial_world))
    (snd ((addClient Scenario.calm
             (mkClient "tokA" Scenario.r1 (Some "tokA") 100000 None None None) ;;
           subscribeToEvent Scenario.calm "tokA" "demo-event" None ;;
           sendEventToSubscribers Scenario.calm "demo-event" Scenario.demo)
            initial_world))
  = [EvDb (SubscriptionFindMany "demo-event") None;
     EvWrite Scenario.r1 Scenario.demo_frame None;
     EvLog "[SSEManager] Sent event 'demo-event' to stream client"].
Proof. vm_compute. reflexivity. Qed.

(** C2: the [clientId] argument of [subscribeToEvent] does not reach the
    store.  The call behaves the same for every [clientId], and the row it
    creates carries the session token in the [clientId] column, both when a
    different [clientId] is passed and when none is. *)
Theorem C2_clientId_argument_is_ignored :
  (forall env tok e cid cid' w,
      subscribeToEvent env tok e cid w = subscribeToEvent env tok e cid' w)
  /\ subs (snd (subscribeToEvent Scenario.calm "tokA" "demo-event" (Some "c1")
                                 Scenario.only_c1))
     = [mkSubscription "tokA" "demo-event" (Some "tokA")]
  /\ subs (snd (subscribeToEvent Scenario.calm "tokA" "demo-event" None
                                 Scenario.only_c1))
     = [mkSubscription "tokA" "demo-event" (Some "tokA")].
Proof. split; [reflexivity|]. vm_compute. split; reflexivity. Qed.

(** C3: with the database down, [sendEventToSubscribers] does not return
    normally: the rejection of [findMany] reaches the caller, and no log
    entry is made. *)
Theorem C3_sendEventToSubscribers_propagates_store_failure :
  sendEventToSubscribers Scenario.db_down "demo-event" Scenario.demo
                         Scenario.only_c1
  = (Thrown "P1001",
     add_event (EvDb (SubscriptionFindMany "demo-event") (Some "P1001"))
               Scenario.only_c1).
Proof. apply sendEventToSubscribers_rejects. reflexivity. Qed.

(** C6: with the store available and no row for [(tok, e)] to begin with,
    subscribe then unsubscribe leaves no row for [(tok, e)]; subscribe
    twice leaves exactly one, the second call leaving the table as the
    first left it.  All calls complete normally. *)
Theorem C6_subscription_round_trip :
  forall env tok e cid cid' w,
    (forall tr call, db_fails env tr call = None) ->
    count_matching tok e (subs w) = 0%nat ->
    let w1 := snd (subscribeToEvent env tok e cid w) in
    let w2 := snd (unsubscribeFromEvent env tok e cid' w1) in
    let w3 := snd (subscribeToEvent env tok e cid w1) in
    fst (subscribeToEvent env tok e cid w) = Normal tt
    /\ fst (unsubscribeFromEvent env tok e cid' w1) = Normal tt
    /\ fst (subscribeToEvent env tok e cid w1) = Normal tt
    /\ count_matching tok e (subs w1) = 1%nat
    /\ count_matching tok e (subs w2) = 0%nat
    /\ count_matching tok e (subs w3) = 1%nat
    /\ subs w3 = subs w1.
Proof.
  intros env tok e cid cid' w Hdb H0 w1 w2 w3.
  destruct (subscribeToEvent_ok env tok e cid w (Hdb _ _)) as [N1 [S1 _]].
  destruct (unsubscribeFromEvent_ok env tok e cid' w1 (Hdb _ _)) as [N2 S2].
  destruct (subscribeToEvent_ok env tok e cid w1 (Hdb _ _)) as [N3 [S3 _]].
  fold w1 in S1. fold w2 in S2. fold w3 in S3.
  rewrite (upsert_fresh _ _ _ _ H0) in S1.
  assert (C1 : count_matching tok e (subs w1) = 1%nat).
  { rewrite S1, count_matching_app, H0. unfold count_matching. simpl.
    rewrite !String.eqb_refl. reflexivity. }
  assert (E3 : subs w3 = subs w1).
  { rewrite S3, S1. apply upsert_again. }
  repeat split; auto.
  - rewrite S2. apply count_matching_deleteMany.
  - rewrite E3. exact C1.
Qed.

Lemma C6_witness :
  count_matching "tokA" "demo-event"
    (subs (snd (unsubscribeFromEvent Scenario.calm "tokA" "demo-event" None
             (snd (subscribeToEvent Scenario.calm "tokA" "demo-event" None
                     Scenario.only_c1))))) = 0%nat
  /\ count_matching "tokA" "demo-event"
    (subs (snd (subscribeToEvent Scenario.calm "tokA" "demo-event" None
             (snd (subscribeToEvent Scenario.calm "tokA" "demo-event" None
                     Scenario.only_c1))))) = 1%nat.
Proof.
  pose proof (C6_subscription_round_trip Scenario.calm "tokA" "demo-event"
                None None Scenario.only_c1 (fun _ _ => eq_refl) eq_refl) as H.
  cbv zeta in H. destruct H as [_ [_ [_ [_ [H2 [H3 _]]]]]].
  split; [exact H2 | exact H3].
Defined.

(** C7: [unsubscribeFromAllEvents] always completes normally.  When its
    delete succeeds, no row of the session is left and the rows of other
    sessions are as before; every client of the session has an empty cache
    and the other clients are as before; and the only log entry is the
    [catch] block reporting the [ReferenceError] raised while the success
    message was being built. *)
Theorem C7_unsubscribeFromAllEvents :
  forall env tok w,
    fst (unsubscribeFromAllEvents env tok w) = Normal tt
    /\ (db_fails env (trace w) (SubscriptionDeleteMany tok None) = None ->
        NoDup (JsMap.keys (clients w)) ->
        let w' := snd (unsubscribeFromAllEvents env tok w) in
        (forall r, In r (subs w') <-> In r (subs w) /\ sub_sessionToken r <> tok)
        /\ (forall k c, In (k, c) (clients w') ->
                        sessionToken c = Some tok -> cached c = [])
        /\ (forall k c, In (k, c) (clients w') ->
                        sessionToken c <> Some tok -> In (k, c) (clients w))
        /\ JsMap.keys (clients w') = JsMap.keys (clients w)
        /\ sessions w' = sessions w
        /\ events_since w w'
           = [EvDb (SubscriptionDeleteMany tok None) None;
              EvLog ("[SSEManager] Error unsubscribing from event: "
                     ++ "ReferenceError: eventName is not defined")]).
Proof.
  intros env tok w. split.
  - apply total_unit, unsubscribeFromAllEvents_total.
  - intros Hdb Hnd w'. unfold w'.
    rewrite (unsubscribeFromAllEvents_ok env tok w Hdb Hnd). simpl snd.
    simpl subs. simpl clients. simpl sessions.
    split; [intros r; apply In_deleteMany_all|].
    assert (Hin : forall k c,
      In (k, c) (map (touch (has_token tok) cache_clear) (clients w)) ->
      exists c0, In (k, c0) (clients w) /\
        ((has_token tok c0 = true /\ c = cache_clear c0)
         \/ (has_token tok c0 = false /\ c = c0))).
    { intros k c H. apply in_map_iff in H. destruct H as [[k0 c0] [E H]].
      unfold touch in E. simpl in E.
      destruct (has_token tok c0) eqn:Ht; inversion E; subst; eauto. }
    split; [|split; [|split; [|split]]].
    + intros k c H Htok. destruct (Hin k c H) as [c0 [_ [[_ ->]|[Hf ->]]]].
      * apply cache_clear_cached.
      * apply has_token_true in Htok. congruence.
    + intros k c H Htok. destruct (Hin k c H) as [c0 [H0 [[Ht ->]|[_ ->]]]].
      * exfalso. apply Htok. rewrite cache_clear_token.
        apply has_token_true, Ht.
      * exact H0.
    + unfold JsMap.keys. rewrite map_map. apply map_ext.
      intros [k c]. unfold touch. simpl. destruct (has_token tok c); reflexivity.
    + reflexivity.
    + apply events_since_app. reflexivity.
Qed.

Lemma C7_witness :
  subs (snd (unsubscribeFromAllEvents Scenario.calm "tokA"
          (snd (subscribeToEvent Scenario.calm "tokA" "demo-event" None
                  Scenario.only_c1)))) = []
  /\ fst (unsubscribeFromAllEvents Scenario.db_down "tokA" Scenario.only_c1)
     = Normal tt
  /\ JsMap.keys (clients (snd (unsubscribeFromAllEvents Scenario.calm "tokA"
                                  Scenario.only_c1)))
     = JsMap.keys (clients Scenario.only_c1).
Proof.
  split; [reflexivity|]. split.
  - exact (proj1 (C7_unsubscribeFromAllEvents Scenario.db_down "tokA"
                    Scenario.only_c1)).
  - pose proof (proj2 (C7_unsubscribeFromAllEvents Scenario.calm "tokA"
                         Scenario.only_c1) eq_refl) as H.
    assert (Hnd : NoDup (JsMap.keys (clients Scenario.only_c1))).
    { simpl. constructor; [intros [] | constructor]. }
    specialize (H Hnd). cbv zeta in H.
    exact (proj1 (proj2 (proj2 (proj2 H)))).
Defined.

(* ------------------------------------------------------------------ *)
(** ** Removing and adding clients                                     *)
(* ------------------------------------------------------------------ *)

Section MapSet.
Context {V : Type}.

Lemma get_set_same k (v : V) m : JsMap.get k (JsMap.set k v m) = Some v.
Proof.
  induction m as [|[k' v'] m IH]; simpl.
  - rewrite String.eqb_refl. reflexivity.
  - destruct (String.eqb k k') eqn:E; simpl.
    + rewrite String.eqb_refl. reflexivity.
    + rewrite E. exact IH.
Qed.

Lemma keys_set_In k (v : V) m x :
  In x (JsMap.keys (JsMap.set k v m)) -> x = k \/ In x (JsMap.keys m).
Proof.
  induction m as [|[k' v'] m IH]; simpl.
  - intros [E|[]]. left. symmetry. exact E.
  - destruct (String.eqb_spec k k') as [->|Hne]; simpl.
    + intros [E|H]; auto.
    + intros [E|H]; auto. destruct (IH H); auto.
Qed.

Lemma keys_set_NoDup k (v : V) m :
  NoDup (JsMap.keys m) -> NoDup (JsMap.keys (JsMap.set k v m)).
Proof.
  induction m as [|[k' v'] m IH]; simpl; intros Hnd.
  - constructor; [intros []|constructor].
  - inversion Hnd as [|? ? Hk Hnd']; subst.
    destruct (String.eqb_spec k k') as [->|Hne]; simpl.
    + constructor; assumption.
    + constructor; [|apply IH, Hnd'].
      intros Hin. destruct (keys_set_In _ _ _ _ Hin) as [E|H]; auto.
Qed.

Lemma In_set k (v : V) m k' v' :
  In (k', v') (JsMap.set k v m) -> (k' = k /\ v' = v) \/ In (k', v') m.
Proof.
  induction m as [|[k0 v0] m IH]; simpl.
  - intros [E|[]]. inversion E. auto.
  - destruct (String.eqb_spec k k0) as [->|Hne]; simpl.
    + intros [E|H]; [inversion E|]; auto.
    + intros [E|H]; auto. destruct (IH H); auto.
Qed.

End MapSet.

Section RemoveAdd.
Variable env : Env.

Lemma updateSession_silent c : preserves (appends silent) (updateSession env c).
Proof. unfold updateSession. frame_method. Qed.

Lemma markSessionOffline_silent k :
  preserves (appends silent) (markSessionOffline env k).
Proof. unfold markSessionOffline. frame_method. Qed.

Lemma markSessionOfflineBySessionToken_silent t :
  preserves (appends silent) (markSessionOfflineBySessionToken env t).
Proof. unfold markSessionOfflineBySessionToken. frame_method. Qed.

Lemma run_total (m : JS unit) w : total m -> m w = (Normal tt, snd (m w)).
Proof.
  intros H. pose proof (total_unit m w H) as E.
  destruct (m w) as [r w1]. simpl in *. subst. reflexivity.
Qed.

(** The call of [end()] in [removeClient] and [cleanup], with its [catch]. *)
Lemma end_step r (msg : string -> string) w :
  exists o evs,
    try_catch (if isStreamRes r then res_end env r else res_end env r)
              (fun err => log (msg err)) w
    = (Normal tt,
       mkWorld (clients w) (sessions w) (subs w)
               (trace w ++ EvEnd r o :: evs))
    /\ Forall silent evs.
Proof.
  unfold try_catch, res_end, log, add_event.
  destruct (isStreamRes r); destruct (end_throws env (trace w) r) as [e|]; simpl.
  1,3: exists (Some e), [EvLog ("[SSEManager] " ++ msg e)];
       rewrite <- app_assoc; simpl; split; [reflexivity|];
       repeat constructor.
  all: exists None, []; split; [reflexivity | constructor].
Qed.

(** [removeClient] on a client that is in the map: [end()] is called on its
    response, then only database calls and log entries follow, and the
    entry is deleted. *)
Lemma removeClient_present k c w :
  JsMap.get k (clients w) = Some c ->
  exists o evs w',
    removeClient env k w = (Normal tt, w')
    /\ clients w' = JsMap.delete k (clients w)
    /\ subs w' = subs w
    /\ trace w' = (trace w ++ EvEnd (res c) o :: evs)%list
    /\ Forall silent evs.
Proof.
  intros Hget. unfold removeClient. unfold bind at 1, get_client.
  rewrite Hget.
  destruct (end_step (res c)
              (fun err => "Error ending response for client " ++ k ++ ": " ++ err)
              w)
    as [o [evs1 [E1 F1]]].
  cbv beta in E1. unfold bind at 1. rewrite E1.
  set (w1 := mkWorld (clients w) (sessions w) (subs w)
                     (trace w ++ EvEnd (res c) o :: evs1)).
  set (mark := if truthy (sessionToken c)
               then markSessionOfflineBySessionToken env
                      (or_else (sessionToken c) EmptyString)
               else markSessionOffline env k).
  assert (Tm : total mark).
  { unfold mark. destruct (truthy (sessionToken c));
      auto using markSessionOffline_total,
                 markSessionOfflineBySessionToken_total. }
  assert (Km : preserves (keeps clients) mark).
  { unfold mark. destruct (truthy (sessionToken c));
      auto using markSessionOffline_keeps_clients,
                 markSessionOfflineBySessionToken_keeps_clients. }
  assert (Ks : preserves (keeps subs) mark).
  { unfold mark. destruct (truthy (sessionToken c));
      auto using markSessionOffline_keeps_subs,
                 markSessionOfflineBySessionToken_keeps_subs. }
  assert (Am : preserves (appends silent) mark).
  { unfold mark. destruct (truthy (sessionToken c));
      auto using markSessionOffline_silent,
                 markSessionOfflineBySessionToken_silent. }
  unfold bind. rewrite (run_total mark w1 Tm).
  destruct (Am w1) as [evs2 [E2 F2]].
  unfold modify_clients, log. simpl.
  exists o, (evs1 ++ evs2 ++ [EvLog ("[SSEManager] Client disconnected: " ++ k)])%list.
  eexists. split; [reflexivity|]. simpl.
  rewrite (Km w1), (Ks w1), E2. simpl.
  split; [reflexivity|]. split; [reflexivity|]. split.
  - rewrite <- !app_assoc. reflexivity.
  - apply Forall_app. split; [exact F1|].
    apply Forall_app. split; [exact F2 | repeat constructor].
Qed.

Lemma removeClient_absent k w :
  JsMap.get k (clients w) = None -> removeClient env k w = (Normal tt, w).
Proof.
  intros H. unfold removeClient, bind, get_client. rewrite H. reflexivity.
Qed.

Lemma removeClient_clients k w :
  clients (snd (removeClient env k w)) = JsMap.delete k (clients w).
Proof.
  destruct (JsMap.get k (clients w)) as [c|] eqn:Hget.
  - destruct (removeClient_present k c w Hget) as [o [evs [w' [E [Hc _]]]]].
    rewrite E. exact Hc.
  - rewrite (removeClient_absent k w Hget). simpl.
    symmetry. apply delete_notin. apply get_None_notin, Hget.
Qed.

End RemoveAdd.

Section AddClient.
Variable env : Env.

Lemma end_called_appends P r w w' :
  appends P w w' -> end_called r (trace w) -> end_called r (trace w').
Proof.
  intros [evs [E _]] [o H]. exists o. rewrite E. apply in_or_app. auto.
Qed.

(** The eviction loop at the head of [addClient]. *)
Lemma evict_loop c w :
  NoDup (JsMap.keys (clients w)) ->
  fst (for_entries (guarded (same_session c) (fun k _ => removeClient env k)) w)
  = Normal tt
  /\ clients (snd (for_entries
                     (guarded (same_session c) (fun k _ => removeClient env k)) w))
     = filter (kept (same_session c)) (clients w)
  /\ appends no_write w
       (snd (for_entries
               (guarded (same_session c) (fun k _ => removeClient env k)) w))
  /\ (forall k c0, In (k, c0) (clients w) -> same_session c k c0 = true ->
        end_called (res c0)
          (trace (snd (for_entries
                         (guarded (same_session c)
                                  (fun k _ => removeClient env k)) w)))).
Proof.
  intros Hnd.
  apply (filter_loop (same_session c) (fun k _ => removeClient env k)
           (R := appends no_write)
           (fun _ _ => True)
           (fun _ c0 w' => end_called (res c0) (trace w'))); auto.
  - intros k c0 w0 _ _ _. apply total_unit, removeClient_total.
  - intros k c0 w0 _ _ _. apply removeClient_clients.
  - intros k c0 w0 _ _ _. apply removeClient_quiet.
  - intros k c0 w0 _ Hget _.
    destruct (removeClient_present env k c0 w0 Hget)
      as [o [evs [w' [E [_ [_ [Ht _]]]]]]].
    rewrite E. simpl. exists o. rewrite Ht. apply in_or_app. right. left.
    reflexivity.
  - intros k c0 w0 w' H HR. eapply end_called_appends; eauto.
Qed.

Lemma addClient_unfold c w :
  addClient env c w
  = ((if truthy (sessionToken c)
      then for_entries (guarded (same_session c) (fun k _ => removeClient env k))
      else ret tt) ;;
     modify_clients (JsMap.set (id c) c) ;;
     updateSession env c ;;
     log ("Client connected: " ++ id c ++ " (Session: "
          ++ or_else (sessionToken c) "anonymous" ++ ")")) w.
Proof. reflexivity. Qed.

(** One [addClient]: the clients of the same (truthy) session are evicted
    and closed, then the new client is stored under its id. *)
Lemma addClient_run c w :
  NoDup (JsMap.keys (clients w)) ->
  fst (addClient env c w) = Normal tt
  /\ clients (snd (addClient env c w))
     = JsMap.set (id c) c
         (if truthy (sessionToken c)
          then filter (kept (same_session c)) (clients w)
          else clients w)
  /\ appends no_write w (snd (addClient env c w))
  /\ (truthy (sessionToken c) = true ->
      forall k c0, In (k, c0) (clients w) -> same_session c k c0 = true ->
        end_called (res c0) (trace (snd (addClient env c w)))).
Proof.
  intros Hnd.
  split; [apply total_unit, addClient_total|].
  split; [|split; [apply addClient_quiet|]].
  - rewrite addClient_unfold.
    set (pre := if truthy (sessionToken c)
                then for_entries (guarded (same_session c)
                                          (fun k _ => removeClient env k))
                else ret tt).
    assert (Hpre : fst (pre w) = Normal tt
                   /\ clients (snd (pre w))
                      = if truthy (sessionToken c)
                        then filter (kept (same_session c)) (clients w)
                        else clients w).
    { unfold pre. destruct (truthy (sessionToken c)).
      - destruct (evict_loop c w Hnd) as [H1 [H2 _]]. auto.
      - split; reflexivity. }
    destruct Hpre as [Hn Hc].
    unfold bind at 1. destruct (pre w) as [[[]|e] w1]; simpl in Hn, Hc;
      [|discriminate].
    unfold bind at 1, modify_clients.
    unfold bind. rewrite (run_total (updateSession env c) _
                            (updateSession_total env c)).
    unfold log. simpl.
    rewrite (updateSession_keeps_clients env c). simpl. rewrite Hc. reflexivity.
  - intros Ht k c0 Hin Hs.
    rewrite addClient_unfold, Ht.
    destruct (evict_loop c w Hnd) as [Hn [_ [_ He]]].
    specialize (He k c0 Hin Hs).
    set (pre := for_entries (guarded (same_session c)
                                     (fun k _ => removeClient env k))) in *.
    set (rest := modify_clients (JsMap.set (id c) c) ;;
                 updateSession env c ;;
                 log ("Client connected: " ++ id c ++ " (Session: "
                      ++ or_else (sessionToken c) "anonymous" ++ ")")).
    assert (Ar : preserves (appends no_write) rest).
    { unfold rest. walk_preserves; try leaf_preserves.
      apply updateSession_quiet. }
    unfold bind at 1. destruct (pre w) as [[[]|e] w1]; simpl in Hn, He;
      [|discriminate].
    eapply end_called_appends; [apply (Ar w1) | exact He].
Qed.

End AddClient.

(* ------------------------------------------------------------------ *)
(** ** Session rows only go offline                                    *)
(* ------------------------------------------------------------------ *)

Lemma Forall2_refl' {A} (R : A -> A -> Prop) l :
  (forall x, R x x) -> Forall2 R l l.
Proof. intros H. induction l; constructor; auto. Qed.

Lemma Forall2_trans' {A} (R : A -> A -> Prop) :
  (forall x y z, R x y -> R y z -> R x z) ->
  forall l1 l2 l3, Forall2 R l1 l2 -> Forall2 R l2 l3 -> Forall2 R l1 l3.
Proof.
  intros HR l1 l2 l3 H12. revert l3.
  induction H12; intros l3 H23; inversion H23; subst; constructor; eauto.
Qed.

#[export] Instance sess_mono_fp : Footprint sess_mono (fun _ => True).
Proof.
  split; unfold sess_mono.
  - intros w. apply Forall2_refl'. auto.
  - intros a b c. apply Forall2_trans'.
    intros x y z [E1 H1] [E2 H2]. split; [congruence | auto].
  - intros e w _. simpl. apply Forall2_refl'. auto.
Qed.

Lemma sess_mono_updateMany wh d w :
  (forall r, s_clientId (d r) = s_clientId r /\ s_status (d r) = offline) ->
  sess_mono w (set_sessions (Db.session_updateMany wh d (sessions w)) w).
Proof.
  intros Hd. unfold sess_mono. simpl.
  induction (sessions w) as [|r l IH]; simpl; constructor; [|exact IH].
  destruct (wh r); [|auto]. destruct (Hd r). auto.
Qed.

Lemma sess_mono_same w w' : sessions w' = sessions w -> sess_mono w w'.
Proof. intros E. unfold sess_mono. rewrite E. apply Forall2_refl'. auto. Qed.

Lemma sess_mono_ids w w' :
  sess_mono w w' -> map s_clientId (sessions w') = map s_clientId (sessions w).
Proof.
  unfold sess_mono. induction 1 as [|r r' l l' [E _] _ IH]; simpl;
    [reflexivity | rewrite E, IH; reflexivity].
Qed.

Lemma rows_offline_mono k w w' :
  rows_offline k w -> sess_mono w w' -> rows_offline k w'.
Proof.
  unfold rows_offline, sess_mono. intros H HF.
  induction HF as [|r r' l l' [E M] HF IH]; intros x Hin Hk; [contradiction|].
  simpl in H. destruct Hin as [<-|Hin].
  - apply M, H; [left; reflexivity | congruence].
  - apply IH; auto.
Qed.

(* ------------------------------------------------------------------ *)
(** ** Calls that are not awaited                                      *)
(* ------------------------------------------------------------------ *)

Lemma bind_normal {A B} (m : JS A) (f : A -> JS B) w a :
  fst (m w) = Normal a -> bind m f w = f a (snd (m w)).
Proof.
  unfold bind. destruct (m w) as [[a'|e] w']; simpl; intros H;
    [injection H as ->; reflexivity | discriminate].
Qed.

(** *** The final [settle] is a schedule like any other *)

Lemma advance_spent_head m others w :
  advance (repeat 0%nat m) ([] :: others) w = (Normal ([] :: others), w).
Proof. induction m as [|m IH]; simpl; [reflexivity | exact IH]. Qed.

Lemma advance_head call others : forall w,
  advance (repeat 0%nat (length call)) (call :: others) w
  = (Normal ([] :: others), snd (for_each call (fun piece => piece) w)).
Proof.
  induction call as [|piece rest IH]; intros w; [reflexivity|].
  simpl. unfold bind. destruct (piece w) as [[u|e] w'] eqn:E.
  - rewrite IH. reflexivity.
  - rewrite advance_spent_head. reflexivity.
Qed.

Lemma advance_tail picks call : forall others w,
  advance (map S picks) (call :: others) w
  = match advance picks others w with
    | (Normal others', w') => (Normal (call :: others'), w')
    | (Thrown e, w') => (Thrown e, w')
    end.
Proof.
  induction picks as [|n picks IH]; intros others w; simpl; [reflexivity|].
  unfold bind. destruct (resume n others w) as [[o1|e] w1]; simpl;
    [apply IH | reflexivity].
Qed.

Lemma advance_app p1 p2 : forall calls w,
  advance (p1 ++ p2) calls w = bind (advance p1 calls) (advance p2) w.
Proof.
  induction p1 as [|n p1 IH]; intros calls w; simpl; [reflexivity|].
  unfold bind. destruct (resume n calls w) as [[c1|e] w1]; [|reflexivity].
  exact (IH c1 w1).
Qed.

Lemma settle_as_advance calls : forall w,
  exists picks calls',
    advance picks calls w = (Normal calls', snd (settle calls w))
    /\ spent calls'
    /\ fst (settle calls w) = Normal tt.
Proof.
  induction calls as [|call others IH]; intros w.
  - exists [], []. repeat split. constructor.
  - destruct (IH (snd (for_each call (fun piece => piece) w)))
      as [picks [others' [E [Hs Hn]]]].
    exists (repeat 0%nat (length call) ++ map S picks)%list, ([] :: others').
    split; [|split].
    + rewrite advance_app. unfold bind. rewrite advance_head, advance_tail, E.
      reflexivity.
    + constructor; [reflexivity | exact Hs].
    + exact Hn.
Qed.

Lemma resume_normal n : forall calls w,
  exists calls', fst (resume n calls w) = Normal calls'.
Proof.
  induction n as [|n IH]; intros [|call others] w; simpl; eauto.
  - destruct call as [|piece rest]; simpl; eauto.
    destruct (piece w) as [[u|e] w']; simpl; eauto.
  - unfold bind. destruct (IH others w) as [o' E].
    destruct (resume n others w) as [[o1|e] w1]; simpl in *;
      [eauto | discriminate].
Qed.

(** Running one piece keeps a property of the world that every pending
    piece keeps. *)
Lemma resume_pieces (I : World -> Prop) (Q : JS unit -> Prop) :
  (forall p w, Q p -> I w -> I (snd (p w))) ->
  forall n calls w,
    I w /\ all_pieces Q calls ->
    exists calls',
      fst (resume n calls w) = Normal calls'
      /\ (I (snd (resume n calls w)) /\ all_pieces Q calls').
Proof.
  intros HQ. induction n as [|n IH]; intros [|call others] w [Hi Hc]; simpl.
  - exists []. auto.
  - inversion Hc as [|? ? Hcall Hothers]; subst.
    destruct call as [|piece rest]; simpl.
    + exists ([] :: others). auto.
    + inversion Hcall as [|? ? Hp Hrest]; subst.
      specialize (HQ piece w Hp Hi).
      destruct (piece w) as [[u|e] w']; simpl in *.
      * exists (rest :: others). repeat split; auto. constructor; auto.
      * exists ([] :: others). repeat split; auto. constructor; auto.
  - exists []. auto.
  - inversion Hc as [|? ? Hcall Hothers]; subst.
    destruct (IH others w (conj Hi Hothers)) as [o' [E [Hi' Ho']]].
    unfold bind. destruct (resume n others w) as [[o1|e] w1]; simpl in *;
      [|discriminate].
    injection E as ->. exists (call :: o'). repeat split; auto.
    constructor; auto.
Qed.

Lemma Exists_app_l {A} (P : A -> Prop) l l' : Exists P l -> Exists P (l ++ l').
Proof. intros H. apply Exists_app. auto. Qed.

(** Running one piece keeps the entry under [k] doomed, and keeps whatever
    property of the world harmless pieces keep. *)
Lemma resume_doomed k (J : World -> Prop) :
  (forall p w, harmless k p -> J w -> J (snd (p w))) ->
  forall n calls w,
    doomed k w calls /\ all_pieces (harmless k) calls /\ J w ->
    exists calls',
      fst (resume n calls w) = Normal calls'
      /\ (doomed k (snd (resume n calls w)) calls'
          /\ all_pieces (harmless k) calls'
          /\ J (snd (resume n calls w))).
Proof.
  intros HJ. induction n as [|n IH]; intros [|call others] w [Hd [Hc Hj]]; simpl.
  - exists []. auto.
  - inversion Hc as [|? ? Hcall Hothers]; subst.
    destruct call as [|piece rest]; simpl.
    + exists ([] :: others). auto.
    + inversion Hcall as [|? ? Hp Hrest]; subst.
      pose proof (HJ piece w Hp Hj) as Hj'.
      destruct Hp as [Ht [_ [Ha _]]].
      destruct (Ht w) as [u Eu]. specialize (Ha w). unfold stays_absent in Ha.
      assert (Hd' : doomed k (snd (piece w)) (rest :: others)).
      { destruct Hd as [Hd|Hd]; [left; auto|].
        inversion Hd as [? ? Hx|? ? Hx]; subst.
        - inversion Hx as [? ? Hy|? ? Hy]; subst.
          + left. apply Hy.
          + right. constructor. exact Hy.
        - right. apply Exists_cons_tl. exact Hx. }
      destruct (piece w) as [[u'|e] w']; simpl in *; [|discriminate].
      exists (rest :: others). repeat split; auto. constructor; auto.
  - exists []. auto.
  - inversion Hc as [|? ? Hcall Hothers]; subst.
    destruct Hd as [Hd|Hd].
    + destruct (IH others w (conj (or_introl Hd) (conj Hothers Hj)))
        as [o' [E [Hd' [Ho' Hj']]]].
      unfold bind. destruct (resume n others w) as [[o1|e] w1]; simpl in *;
        [|discriminate].
      injection E as ->. exists (call :: o'). repeat split; auto.
      * destruct Hd' as [Hd'|Hd']; [left; auto | right; apply Exists_cons_tl; auto].
      * constructor; auto.
    + inversion Hd as [? ? Hx|? ? Hx]; subst.
      * (* the call that deletes is not the one that runs *)
        destruct (resume_pieces J (harmless k) HJ n others w (conj Hj Hothers))
          as [o' [E [Hj' Ho']]].
        unfold bind. destruct (resume n others w) as [[o1|e] w1]; simpl in *;
          [|discriminate].
        injection E as ->. exists (call :: o'). repeat split; auto.
        -- right. constructor. exact Hx.
        -- constructor; auto.
      * destruct (IH others w (conj (or_intror Hx) (conj Hothers Hj)))
          as [o' [E [Hd' [Ho' Hj']]]].
        unfold bind. destruct (resume n others w) as [[o1|e] w1]; simpl in *;
          [|discriminate].
        injection E as ->. exists (call :: o'). repeat split; auto.
        -- destruct Hd' as [Hd'|Hd']; [left; auto | right; apply Exists_cons_tl; auto].
        -- constructor; auto.
Qed.

Section PendingInvariant.
Variable Inv : World -> list Pending -> Prop.
Hypothesis resume_ok : forall n calls w,
  Inv w calls ->
  exists calls',
    fst (resume n calls w) = Normal calls' /\ Inv (snd (resume n calls w)) calls'.

Lemma advance_ok picks : forall calls w,
  Inv w calls ->
  exists calls',
    fst (advance picks calls w) = Normal calls'
    /\ Inv (snd (advance picks calls w)) calls'.
Proof.
  induction picks as [|n picks IH]; intros calls w H; simpl.
  - exists calls. auto.
  - destruct (resume_ok n calls w H) as [c1 [E1 I1]].
    rewrite (bind_normal _ _ _ _ E1). apply IH, I1.
Qed.

Lemma settle_ok calls w :
  Inv w calls ->
  fst (settle calls w) = Normal tt
  /\ exists calls', spent calls' /\ Inv (snd (settle calls w)) calls'.
Proof.
  intros H. destruct (settle_as_advance calls w) as [picks [calls' [E [Hs Hn]]]].
  split; [exact Hn|]. exists calls'. split; [exact Hs|].
  destruct (advance_ok picks calls w H) as [c2 [E2 I2]].
  rewrite E in E2, I2. simpl in E2, I2. injection E2 as <-. exact I2.
Qed.

Variable env : Env.
Hypothesis step_ok : forall calls w w',
  Inv w calls ->
  clients w' = clients w -> subs w' = subs w -> sess_mono w w' ->
  appends (fun _ => True) w w' ->
  Inv w' calls.

Lemma markSessionOffline_issued_total k t :
  total (markSessionOffline_issued env k t).
Proof. unfold markSessionOffline_issued. walk_total. Qed.

Lemma markSessionOfflineBySessionToken_issued_total tok t :
  total (markSessionOfflineBySessionToken_issued env tok t).
Proof. unfold markSessionOfflineBySessionToken_issued. walk_total. Qed.

Lemma markSessionOffline_issued_keeps_clients k t :
  preserves (keeps clients) (markSessionOffline_issued env k t).
Proof. unfold markSessionOffline_issued. frame_method. Qed.

Lemma markSessionOffline_issued_keeps_subs k t :
  preserves (keeps subs) (markSessionOffline_issued env k t).
Proof. unfold markSessionOffline_issued. frame_method. Qed.

Lemma markSessionOffline_issued_appends k t :
  preserves (appends (fun _ => True)) (markSessionOffline_issued env k t).
Proof. unfold markSessionOffline_issued. frame_method. Qed.

Lemma markSessionOffline_issued_mono k t :
  preserves sess_mono (markSessionOffline_issued env k t).
Proof.
  unfold markSessionOffline_issued. walk_preserves.
  - apply preserves_db; [intros; exact I|]. intros w. simpl.
    apply sess_mono_updateMany. intros r. split; reflexivity.
  - apply preserves_log. exact I.
Qed.

Lemma markSessionOfflineBySessionToken_issued_keeps_clients tok t :
  preserves (keeps clients) (markSessionOfflineBySessionToken_issued env tok t).
Proof. unfold markSessionOfflineBySessionToken_issued. frame_method. Qed.

Lemma markSessionOfflineBySessionToken_issued_keeps_subs tok t :
  preserves (keeps subs) (markSessionOfflineBySessionToken_issued env tok t).
Proof. unfold markSessionOfflineBySessionToken_issued. frame_method. Qed.

Lemma markSessionOfflineBySessionToken_issued_appends tok t :
  preserves (appends (fun _ => True))
            (markSessionOfflineBySessionToken_issued env tok t).
Proof. unfold markSessionOfflineBySessionToken_issued. frame_method. Qed.

Lemma markSessionOfflineBySessionToken_issued_mono tok t :
  preserves sess_mono (markSessionOfflineBySessionToken_issued env tok t).
Proof.
  unfold markSessionOfflineBySessionToken_issued. walk_preserves.
  - apply preserves_db; [intros; exact I|]. intros w. simpl.
    apply sess_mono_updateMany. intros r. split; reflexivity.
  - apply preserves_log. exact I.
Qed.

Lemma removeClient_started_unfold k w :
  removeClient_started env k w
  = match JsMap.get k (clients w) with
    | Some c =>
        match
          try_catch
            (if isStreamRes (res c) then res_end env (res c)
             else res_end env (res c))
            (fun err =>
               log ("Error ending response for client " ++ k ++ ": " ++ err)) w
        with
        | (Normal _, w1) =>
            (Normal (removeClient_pending env k c (Date_now env (trace w1))), w1)
        | (Thrown e, w1) => (Thrown e, w1)
        end
    | None => (Normal [], w)
    end.
Proof.
  unfold removeClient_started, bind, get_client, now.
  destruct (JsMap.get k (clients w)); reflexivity.
Qed.

(** The started part of [removeClient]: the connection is ended, nothing
    else changes, and the call that is left is that of the client found. *)
Lemma removeClient_started_run k w :
  exists call,
    fst (removeClient_started env k w) = Normal call
    /\ clients (snd (removeClient_started env k w)) = clients w
    /\ sessions (snd (removeClient_started env k w)) = sessions w
    /\ subs (snd (removeClient_started env k w)) = subs w
    /\ appends (fun _ => True) w (snd (removeClient_started env k w))
    /\ match JsMap.get k (clients w) with
       | Some c =>
           (exists t, call = removeClient_pending env k c t)
           /\ end_called (res c) (trace (snd (removeClient_started env k w)))
       | None => call = []
       end.
Proof.
  rewrite removeClient_started_unfold.
  destruct (JsMap.get k (clients w)) as [c|].
  - destruct (end_step env (res c)
                (fun err => "Error ending response for client " ++ k ++ ": " ++ err)
                w)
      as [o [evs [E _]]].
    cbv beta in E. rewrite E. simpl.
    eexists. split; [reflexivity|].
    split; [reflexivity|]. split; [reflexivity|]. split; [reflexivity|].
    split; [|split].
    + exists (EvEnd (res c) o :: evs). split; [reflexivity|].
      apply Forall_forall. intros; exact I.
    + eexists. reflexivity.
    + exists o. apply in_or_app. right. left. reflexivity.
  - simpl. exists [].
    split; [reflexivity|]. split; [reflexivity|]. split; [reflexivity|].
    split; [reflexivity|]. split; [|reflexivity].
    exists []. rewrite app_nil_r. auto.
Qed.

Lemma sweep_entries_cons j rest cutoff during calls w :
  sweep_entries env (j :: rest) cutoff during calls w
  = match JsMap.get j (clients w) with
    | Some client =>
        if lastPing client <? cutoff then
          match
            advance (hd [] during) calls
              (add_event
                 (EvLog ("[SSEManager] Client " ++ j
                         ++ " hasn't pinged recently, marking as offline")) w)
          with
          | (Normal calls1, w2) =>
              match
                markSessionOffline_issued env j
                  (Date_now env
                     (trace w ++
                      [EvLog ("[SSEManager] Client " ++ j
                              ++ " hasn't pinged recently, marking as offline")]))
                  w2
              with
              | (Normal _, w3) =>
                  match removeClient_started env j w3 with
                  | (Normal call, w4) =>
                      sweep_entries env rest cutoff (tl during)
                                    (calls1 ++ [call])%list w4
                  | (Thrown e, w4) => (Thrown e, w4)
                  end
              | (Thrown e, w3) => (Thrown e, w3)
              end
          | (Thrown e, w2) => (Thrown e, w2)
          end
        else sweep_entries env rest cutoff during calls w
    | None => sweep_entries env rest cutoff during calls w
    end.
Proof.
  simpl. unfold bind at 1, get_client.
  destruct (JsMap.get j (clients w)) as [client|]; [|reflexivity].
  destruct (lastPing client <? cutoff); reflexivity.
Qed.

Section Sweep.
Variable cutoff : Z.
Variable F : string -> Prop.
Hypothesis push_ok : forall j calls w call,
  F j -> Inv w calls ->
  match JsMap.get j (clients w) with
  | Some c => exists t, call = removeClient_pending env j c t
  | None => call = []
  end ->
  Inv w (calls ++ [call])%list.

(** The loop over the keys [before], from a world and pending calls that
    satisfy the invariant, arrives at the rest of the loop with the
    invariant intact. *)
Lemma sweep_ok before : forall l during calls w,
  (forall j client w' calls',
      In j before -> Inv w' calls' ->
      JsMap.get j (clients w') = Some client ->
      (lastPing client <? cutoff) = true -> F j) ->
  Inv w calls ->
  exists during' calls' w',
    sweep_entries env (before ++ l) cutoff during calls w
    = sweep_entries env l cutoff during' calls' w'
    /\ Inv w' calls'.
Proof.
  induction before as [|j before IH]; intros l during calls w HF H.
  - exists during, calls, w. auto.
  - assert (HF' : forall j' client w' calls',
               In j' before -> Inv w' calls' ->
               JsMap.get j' (clients w') = Some client ->
               (lastPing client <? cutoff) = true -> F j')
      by (intros; eapply HF; eauto; right; assumption).
    simpl app. rewrite sweep_entries_cons.
    destruct (JsMap.get j (clients w)) as [client|] eqn:G;
      [|apply IH; assumption].
    destruct (lastPing client <? cutoff) eqn:S; [|apply IH; assumption].
    assert (Fj : F j) by (apply (HF j client w calls); auto; left; reflexivity).
    set (w1 := add_event _ w).
    assert (H1 : Inv w1 calls).
    { apply (step_ok calls w w1 H); try reflexivity.
      - apply sess_mono_same. reflexivity.
      - apply fp_event. exact I. }
    destruct (advance_ok (hd [] during) calls w1 H1) as [calls1 [E1 I1]].
    destruct (advance (hd [] during) calls w1) as [r1 w2]. simpl in E1, I1.
    subst r1.
    set (t := Date_now env _).
    pose proof (total_unit _ w2 (markSessionOffline_issued_total j t)) as E2.
    assert (I2 : Inv (snd (markSessionOffline_issued env j t w2)) calls1).
    { apply (step_ok calls1 w2 _ I1).
      - apply markSessionOffline_issued_keeps_clients.
      - apply markSessionOffline_issued_keeps_subs.
      - apply markSessionOffline_issued_mono.
      - apply markSessionOffline_issued_appends. }
    destruct (markSessionOffline_issued env j t w2) as [r2 w3]. simpl in E2, I2.
    subst r2.
    destruct (removeClient_started_run j w3)
      as [call [E3 [C3 [S3 [B3 [A3 Shape]]]]]].
    assert (I3 : Inv (snd (removeClient_started env j w3)) (calls1 ++ [call])%list).
    { apply (push_ok j); [exact Fj | |].
      - apply (step_ok calls1 w3 _ I2); auto. apply sess_mono_same. exact S3.
      - rewrite C3. destruct (JsMap.get j (clients w3)); [apply Shape | exact Shape]. }
    destruct (removeClient_started env j w3) as [r3 w4]. simpl in E3, I3.
    subst r3.
    apply IH; assumption.
Qed.

End Sweep.
End PendingInvariant.

(** The callback when the bulk update fails: the [catch] logs the error,
    and the loop over the clients is not entered. *)
Lemma session_cleanup_callback_failed env during w e :
  db_fails env (trace w)
    (SessionUpdateManyStale (Date_now env (trace w) - STALE_AFTER_MS)) = Some e ->
  session_cleanup_callback env during w
  = (Normal [],
     add_event (EvLog ("[SSEManager] Error in session cleanup: " ++ e))
       (add_event
          (EvDb (SessionUpdateManyStale
                   (Date_now env (trace w) - STALE_AFTER_MS)) (Some e)) w)).
Proof.
  intros Edb. unfold session_cleanup_callback, try_catch, bind, now.
  cbv beta zeta. rewrite (db_failed env _ _ _ _ Edb). reflexivity.
Qed.

(** The callback when the bulk update succeeds. *)
Lemma session_cleanup_callback_swept env during w :
  db_fails env (trace w)
    (SessionUpdateManyStale (Date_now env (trace w) - STALE_AFTER_MS)) = None ->
  session_cleanup_callback env during w
  = try_catch
      (fun w1 =>
         sweep_entries env (JsMap.keys (clients w1))
                       (Date_now env (trace w1) - STALE_AFTER_MS) during [] w1)
      (fun err => log ("Error in session cleanup: " ++ err) ;; ret [])
      (bulk_updated env w).
Proof.
  intros Edb. unfold session_cleanup_callback, try_catch, bind, now.
  cbv beta zeta. rewrite (db_ok env _ _ _ Edb). reflexivity.
Qed.

(** The whole tick keeps an invariant that every piece and every step of
    the callback keeps; it completes normally with nothing left pending. *)
Lemma session_cleanup_tick_ok (Inv : World -> list Pending -> Prop) env :
  (forall n calls w,
      Inv w calls ->
      exists calls',
        fst (resume n calls w) = Normal calls'
        /\ Inv (snd (resume n calls w)) calls') ->
  (forall calls w w',
      Inv w calls ->
      clients w' = clients w -> subs w' = subs w -> sess_mono w w' ->
      appends (fun _ => True) w w' ->
      Inv w' calls) ->
  (forall j calls w call,
      Inv w calls ->
      match JsMap.get j (clients w) with
      | Some c => exists t, call = removeClient_pending env j c t
      | None => call = []
      end ->
      Inv w (calls ++ [call])%list) ->
  forall schedule w,
    Inv w [] ->
    fst (session_cleanup_tick env schedule w) = Normal tt
    /\ exists calls',
         spent calls' /\ Inv (snd (session_cleanup_tick env schedule w)) calls'.
Proof.
  intros Hres Hstep Hpush schedule w H.
  assert (C : exists calls1,
             fst (session_cleanup_callback env (during schedule) w) = Normal calls1
             /\ Inv (snd (session_cleanup_callback env (during schedule) w)) calls1).
  { set (call := SessionUpdateManyStale (Date_now env (trace w) - STALE_AFTER_MS)).
    destruct (db_fails env (trace w) call) as [e|] eqn:Edb.
    - rewrite (session_cleanup_callback_failed env _ w e Edb).
      exists []. split; [reflexivity|]. simpl snd.
      apply (Hstep [] w _ H); try reflexivity.
      + apply sess_mono_same. reflexivity.
      + exists [EvDb call (Some e);
                EvLog ("[SSEManager] Error in session cleanup: " ++ e)].
        simpl. rewrite <- app_assoc. split; [reflexivity|].
        repeat constructor.
    - rewrite (session_cleanup_callback_swept env _ w Edb).
      set (w1 := bulk_updated env w).
      assert (H1 : Inv w1 []).
      { apply (Hstep [] w _ H); try reflexivity.
        - unfold w1, bulk_updated. apply (fp_trans (R := sess_mono)) with
            (b := add_event (EvDb call None) w).
          + apply fp_event. exact I.
          + apply (sess_mono_updateMany _ _ (add_event (EvDb call None) w)).
            intros r. split; reflexivity.
        - exists [EvDb call None]. split; [reflexivity | repeat constructor]. }
      destruct (sweep_ok Inv Hres env Hstep
                  (Date_now env (trace w1) - STALE_AFTER_MS) (fun _ => True)
                  (fun j calls w0 c _ => Hpush j calls w0 c)
                  (JsMap.keys (clients w1)) [] (during schedule) [] w1
                  (fun _ _ _ _ _ _ _ _ => I) H1)
        as [d' [calls' [w' [E I']]]].
      rewrite app_nil_r in E. unfold try_catch. rewrite E. simpl.
      exists calls'. auto. }
  destruct C as [calls1 [E1 I1]].
  unfold session_cleanup_tick. rewrite (bind_normal _ _ _ _ E1).
  destruct (advance_ok Inv Hres (after schedule) calls1 _ I1) as [calls2 [E2 I2]].
  rewrite (bind_normal _ _ _ _ E2).
  apply (settle_ok Inv Hres). exact I2.
Qed.

(** Once the callback has returned, what is pending runs to its end and
    keeps the invariant. *)
Lemma session_cleanup_tick_finish (Inv : World -> list Pending -> Prop) env :
  (forall n calls w,
      Inv w calls ->
      exists calls',
        fst (resume n calls w) = Normal calls'
        /\ Inv (snd (resume n calls w)) calls') ->
  forall schedule w calls1 wc,
    session_cleanup_callback env (during schedule) w = (Normal calls1, wc) ->
    Inv wc calls1 ->
    fst (session_cleanup_tick env schedule w) = Normal tt
    /\ exists calls',
         spent calls' /\ Inv (snd (session_cleanup_tick env schedule w)) calls'.
Proof.
  intros Hres schedule w calls1 wc E1 I1.
  unfold session_cleanup_tick. unfold bind at 1 3. rewrite E1.
  destruct (advance_ok Inv Hres (after schedule) calls1 wc I1) as [calls2 [E2 I2]].
  rewrite (bind_normal _ _ _ _ E2).
  apply (settle_ok Inv Hres). exact I2.
Qed.

Section TickFrames.
Variable env : Env.

Lemma session_cleanup_tick_total schedule :
  total (session_cleanup_tick env schedule).
Proof.
  intros w.
  destruct (session_cleanup_tick_ok (fun _ _ => True) env) with
    (schedule := schedule) (w := w) as [E _]; auto.
  - intros n calls w0 _. destruct (resume_normal n calls w0) as [c E]. eauto.
  - exists tt. exact E.
Qed.

Context {R : World -> World -> Prop} {P : Event -> Prop}.
Context {FP : Footprint R P}.

(** A relation that every step of the callback and every pending piece
    keeps is kept by the tick, whatever the schedule. *)
Lemma session_cleanup_tick_preserves :
  (forall w w',
      clients w' = clients w -> subs w' = subs w -> sess_mono w w' ->
      R w w') ->
  (forall j c t, Forall (preserves R) (removeClient_pending env j c t)) ->
  forall schedule, preserves R (session_cleanup_tick env schedule).
Proof.
  intros Hstep Hcall schedule w.
  destruct (session_cleanup_tick_ok
              (fun w' calls => R w w' /\ all_pieces (preserves R) calls) env)
    with (schedule := schedule) (w := w) as [_ [calls' [_ [HR _]]]].
  - apply resume_pieces. intros p w0 Hp H0.
    eapply fp_trans; [exact H0 | apply Hp].
  - intros calls w0 w' [H0 Hc] E1 E2 E3 _. split; [|exact Hc].
    eapply fp_trans; [exact H0 | apply Hstep; assumption].
  - intros j calls w0 call [H0 Hc] Shape. split; [exact H0|].
    apply Forall_app. split; [exact Hc|]. constructor; [|constructor].
    destruct (JsMap.get j (clients w0)).
    + destruct Shape as [t ->]. apply Hcall.
    + subst call. constructor.
  - split; [apply fp_refl | constructor].
  - exact HR.
Qed.

End TickFrames.

(** The operations whose every database call sits inside a [try]: none of
    them throws, whatever the environment does. *)
Lemma guarded_operations_never_throw env :
  (forall c, total (addClient env c))
  /\ (forall k, total (removeClient env k))
  /\ (forall k ev, total (sendEventToClient env k ev))
  /\ (forall t ev, total (sendEventToUser env t ev))
  /\ (forall ev, total (broadcast env ev))
  /\ (forall t e c, total (subscribeToEvent env t e c))
  /\ (forall t e c, total (unsubscribeFromEvent env t e c))
  /\ (forall t, total (unsubscribeFromAllEvents env t))
  /\ total (heartbeat_tick env)
  /\ (forall schedule, total (session_cleanup_tick env schedule)).
Proof.
  repeat split; intros;
    auto using addClient_total, removeClient_total, sendEventToClient_total,
      sendEventToUser_total, broadcast_total, subscribeToEvent_total,
      unsubscribeFromEvent_total, unsubscribeFromAllEvents_total,
      heartbeat_tick_total, session_cleanup_tick_total.
Qed.

(* ------------------------------------------------------------------ *)
(** ** One live connection per session                                 *)
(* ------------------------------------------------------------------ *)

Lemma truthy_token tok : tok <> EmptyString -> truthy (Some tok) = true.
Proof.
  intros H. simpl. destruct (String.eqb_spec tok EmptyString); [contradiction|].
  reflexivity.
Qed.

Lemma same_session_true c tok k c0 :
  sessionToken c = Some tok ->
  (same_session c k c0 = true <-> sessionToken c0 = Some tok).
Proof.
  intros Hc. unfold same_session. rewrite Hc. apply has_token_true.
Qed.

Lemma filter_singleton {V} (p : string * V -> bool) l k v :
  NoDup (JsMap.keys l) ->
  In (k, v) l -> p (k, v) = true ->
  (forall k' v', In (k', v') l -> p (k', v') = true -> k' = k) ->
  filter p l = [(k, v)].
Proof.
  induction l as [|[k0 v0] l IH]; simpl; intros Hnd Hin Hp Huniq; [contradiction|].
  inversion Hnd as [|? ? Hk Hnd']; subst.
  assert (Hnot : forall k' v', In (k', v') l -> k' <> k0).
  { intros k' v' H E. subst. apply Hk.
    change (In (fst (k0, v')) (map fst l)). apply in_map, H. }
  destruct Hin as [E|Hin].
  - inversion E; subst. rewrite Hp. f_equal.
    assert (Hnone : forall x, In x l -> p x = false).
    { intros [k' v'] H. destruct (p (k', v')) eqn:Ep; [|reflexivity].
      exfalso. apply (Hnot k' v' H). apply (Huniq k' v'); auto. }
    clear -Hnone. induction l as [|x l IH]; simpl; [reflexivity|].
    rewrite (Hnone x) by (left; reflexivity). apply IH.
    intros y Hy. apply Hnone. right. exact Hy.
  - destruct (p (k0, v0)) eqn:Ep.
    + exfalso. apply (Hnot k v Hin). symmetry. apply (Huniq k0 v0); auto.
    + apply IH; auto. intros k' v' H. apply Huniq. right. exact H.
Qed.

Section SingleSession.
Variable env : Env.
Variable tok : string.
Hypothesis tok_nonempty : tok <> EmptyString.

(** One [addClient] of a client of session [tok]. *)
Lemma addClient_session_step c w :
  sessionToken c = Some tok ->
  NoDup (JsMap.keys (clients w)) ->
  NoDup (JsMap.keys (clients (snd (addClient env c w))))
  /\ JsMap.get (id c) (clients (snd (addClient env c w))) = Some c
  /\ (forall k c', In (k, c') (clients (snd (addClient env c w))) ->
        (k = id c /\ c' = c)
        \/ (In (k, c') (clients w) /\ sessionToken c' <> Some tok))
  /\ (forall k c0, In (k, c0) (clients w) -> sessionToken c0 = Some tok ->
        end_called (res c0) (trace (snd (addClient env c w))))
  /\ appends no_write w (snd (addClient env c w)).
Proof.
  intros Hc Hnd.
  assert (Ht : truthy (sessionToken c) = true)
    by (rewrite Hc; apply truthy_token, tok_nonempty).
  destruct (addClient_run env c w Hnd) as [_ [Hcl [Ha He]]].
  rewrite Ht in Hcl. rewrite Hcl.
  split; [apply keys_set_NoDup, keys_filter_NoDup, Hnd|].
  split; [apply get_set_same|].
  split; [|split; [|exact Ha]].
  - intros k c' Hin. destruct (In_set _ _ _ _ _ Hin) as [H|H]; [left; exact H|].
    right. apply filter_In in H. destruct H as [H Hk]. split; [exact H|].
    unfold kept in Hk. simpl in Hk. apply negb_true_iff in Hk.
    intros E. apply (same_session_true c tok k c' Hc) in E. congruence.
  - intros k c0 Hin E. apply (He Ht k c0 Hin).
    apply (same_session_true c tok k c0 Hc). exact E.
Qed.

(** A run of [addClient] calls for clients of session [tok] with distinct
    ids, from any well-formed map. *)
Lemma add_sequence cs : forall last w,
  NoDup (JsMap.keys (clients w)) ->
  (forall c, In c (cs ++ [last])%list -> sessionToken c = Some tok) ->
  NoDup (map id (cs ++ [last])%list) ->
  fst (for_each (cs ++ [last])%list (addClient env) w) = Normal tt
  /\ NoDup (JsMap.keys
             (clients (snd (for_each (cs ++ [last])%list (addClient env) w))))
  /\ JsMap.get (id last)
       (clients (snd (for_each (cs ++ [last])%list (addClient env) w)))
     = Some last
  /\ (forall k c',
        In (k, c')
           (clients (snd (for_each (cs ++ [last])%list (addClient env) w))) ->
        (k = id last /\ c' = last)
        \/ (In (k, c') (clients w) /\ sessionToken c' <> Some tok))
  /\ (forall k c0, In (k, c0) (clients w) -> sessionToken c0 = Some tok ->
        end_called (res c0)
          (trace (snd (for_each (cs ++ [last])%list (addClient env) w))))
  /\ appends no_write w (snd (for_each (cs ++ [last])%list (addClient env) w))
  /\ (forall c, In c cs ->
        JsMap.get (id c)
          (clients (snd (for_each (cs ++ [last])%list (addClient env) w)))
        = None
        /\ end_called (res c)
             (trace (snd (for_each (cs ++ [last])%list (addClient env) w)))).
Proof.
  induction cs as [|c cs IH]; intros last w Hnd Htok Hids.
  - assert (E : for_each ([] ++ [last])%list (addClient env) w
                = (Normal tt, snd (addClient env last w))).
    { simpl app. rewrite for_each_cons.
      rewrite (run_total (addClient env last) w (addClient_total env last)).
      reflexivity. }
    rewrite E. simpl fst. simpl snd.
    destruct (addClient_session_step last w) as [S2 [S3 [S4 [S5 S6]]]];
      [apply Htok; left; reflexivity | exact Hnd |].
    split; [reflexivity|].
    repeat (split; [assumption|]). intros c [].
  - assert (E : for_each ((c :: cs) ++ [last])%list (addClient env) w
                = for_each (cs ++ [last])%list (addClient env)
                           (snd (addClient env c w))).
    { simpl app. rewrite for_each_cons.
      rewrite (run_total (addClient env c) w (addClient_total env c)).
      reflexivity. }
    rewrite E.
    destruct (addClient_session_step c w) as [S2 [S3 [S4 [S5 S6]]]];
      [apply Htok; left; reflexivity | exact Hnd |].
    set (w1 := snd (addClient env c w)) in *.
    simpl in Hids. inversion Hids as [|? ? Hidc Hids']; subst.
    destruct (IH last w1 S2) as [I1 [I2 [I3 [I4 [I5 [I6 I7]]]]]];
      [intros c' H; apply Htok; right; exact H | exact Hids' |].
    set (w' := snd (for_each (cs ++ [last])%list (addClient env) w1)) in *.
    assert (Hc_in : In (id c, c) (clients w1)) by (apply get_In, S3).
    assert (Hc_tok : sessionToken c = Some tok)
      by (apply Htok; left; reflexivity).
    split; [exact I1|]. split; [exact I2|]. split; [exact I3|].
    split; [|split; [|split]].
    + intros k c' Hin. destruct (I4 k c' Hin) as [H|[H Hne]]; [left; exact H|].
      destruct (S4 k c' H) as [[_ ->]|H']; [contradiction | right; exact H'].
    + intros k c0 Hin E0. eapply end_called_appends; [exact I6|].
      apply (S5 k c0 Hin E0).
    + eapply fp_trans; eauto.
    + intros c' [<-|Hin]; [|apply I7, Hin].
      split; [|apply (I5 (id c) c Hc_in Hc_tok)].
      destruct (JsMap.get (id c) (clients w')) as [c''|] eqn:G; [|reflexivity].
      exfalso. apply get_In in G.
      destruct (I4 (id c) c'' G) as [[E0 _]|[H Hne]].
      * apply Hidc. rewrite E0. apply in_map, in_or_app. right. left. reflexivity.
      * apply (In_get _ _ _ S2) in H. rewrite S3 in H.
        inversion H; subst. contradiction.
Qed.

End SingleSession.

Lemma shrinks_same w w' : clients w' = clients w -> shrinks w w'.
Proof.
  intros E. unfold shrinks. rewrite E. split; [auto|]. intros k c H. eauto.
Qed.

#[export] Instance shrinks_fp : Footprint shrinks (fun _ => True).
Proof.
  split.
  - intros w. apply shrinks_same. reflexivity.
  - intros a b c [N1 H1] [N2 H2]. split; [auto|].
    intros k c' Hin. destruct (H2 k c' Hin) as [c1 [Hin1 E1]].
    destruct (H1 k c1 Hin1) as [c0 [Hin0 E0]]. exists c0. split; congruence.
  - intros e w _. apply shrinks_same. reflexivity.
Qed.

Lemma shrinks_delete k w :
  shrinks w (set_clients (JsMap.delete k (clients w)) w).
Proof.
  split; simpl.
  - apply keys_filter_NoDup.
  - intros k' c' H. apply filter_In in H. destruct H as [H _]. eauto.
Qed.

Lemma shrinks_update k f w :
  (forall c, sessionToken (f c) = sessionToken c) ->
  shrinks w (set_clients (JsMap.update k f (clients w)) w).
Proof.
  intros Hf. split; simpl.
  - rewrite keys_update. auto.
  - intros k' c' H. unfold JsMap.update in H. apply in_map_iff in H.
    destruct H as [[k0 c0] [E H]]. simpl in E.
    destruct (String.eqb k k0); inversion E; subst; eauto.
Qed.

Lemma shrinks_clear w : shrinks w (set_clients [] w).
Proof. split; simpl; [intros _; constructor | intros k c []]. Qed.

Lemma shrinks_of_keeps {A} (m : JS A) :
  preserves (keeps clients) m -> preserves shrinks m.
Proof. intros H w. apply shrinks_same, H. Qed.

Lemma cache_add_token e c : sessionToken (cache_add e c) = sessionToken c.
Proof. reflexivity. Qed.

Lemma cache_remove_token e c : sessionToken (cache_remove e c) = sessionToken c.
Proof. unfold cache_remove. destruct (subscriptions c); reflexivity. Qed.

Ltac leaf_shrinks :=
  first
    [ apply preserves_log; exact I
    | apply preserves_res_write; intros; exact I
    | apply preserves_res_end; intros; exact I
    | apply preserves_db;
      [ intros; exact I | intros; apply shrinks_same; reflexivity ]
    | apply preserves_modify_clients; intros;
      first [ apply shrinks_delete
            | apply shrinks_clear
            | apply shrinks_update; intros;
              first [ reflexivity | apply cache_remove_token
                    | apply cache_clear_token ] ]
    | apply shrinks_of_keeps; solve [auto with footprint] ].

Section Shrinking.
Variable env : Env.

Lemma removeClient_shrinks k : preserves shrinks (removeClient env k).
Proof.
  intros w. destruct (shrinks_delete k w) as [N H].
  split; rewrite removeClient_clients; assumption.
Qed.

Lemma subscribeToEvent_shrinks t e c :
  preserves shrinks (subscribeToEvent env t e c).
Proof. unfold subscribeToEvent. walk_preserves; leaf_shrinks. Qed.

Lemma unsubscribeFromEvent_shrinks t e c :
  preserves shrinks (unsubscribeFromEvent env t e c).
Proof. unfold unsubscribeFromEvent. walk_preserves; leaf_shrinks. Qed.

Lemma unsubscribeFromAllEvents_shrinks t :
  preserves shrinks (unsubscribeFromAllEvents env t).
Proof. unfold unsubscribeFromAllEvents. walk_preserves; leaf_shrinks. Qed.

Lemma heartbeat_tick_shrinks : preserves shrinks (heartbeat_tick env).
Proof.
  unfold heartbeat_tick. walk_preserves; try cbv zeta; walk_preserves;
    first [ apply removeClient_shrinks
          | apply shrinks_of_keeps, updateSessionPing_keeps_clients
          | leaf_shrinks ].
Qed.

Lemma session_cleanup_tick_shrinks schedule :
  preserves shrinks (session_cleanup_tick env schedule).
Proof.
  apply (session_cleanup_tick_preserves env (P := fun _ => True)).
  - intros w w' E _ _. apply shrinks_same, E.
  - intros j c t. unfold removeClient_pending.
    constructor; [|constructor; [|constructor]].
    + destruct (truthy (sessionToken c)); apply shrinks_of_keeps.
      * apply markSessionOfflineBySessionToken_issued_keeps_clients.
      * apply markSessionOffline_issued_keeps_clients.
    + walk_preserves; leaf_shrinks.
Qed.

Lemma cleanup_shrinks : preserves shrinks (cleanup env).
Proof. unfold cleanup. walk_preserves; leaf_shrinks. Qed.

Lemma send_op_shrinks target ev : preserves shrinks (send_op env target ev).
Proof.
  apply shrinks_of_keeps. destruct target; simpl;
    auto using sendEventToClient_keeps_clients, sendEventToUser_keeps_clients,
      sendEventToSubscribers_keeps_clients, broadcast_keeps_clients.
Qed.

End Shrinking.

Lemma one_per_session_shrinks w w' :
  shrinks w w' -> one_per_session (clients w) -> one_per_session (clients w').
Proof.
  intros [N H] [Hnd Hu]. split; [auto|].
  intros k1 c1 k2 c2 H1 H2 Ht E.
  destruct (H k1 c1 H1) as [d1 [D1 E1]]. destruct (H k2 c2 H2) as [d2 [D2 E2]].
  apply (Hu k1 d1 k2 d2 D1 D2); congruence.
Qed.

Lemma same_session_refl c k : truthy (sessionToken c) = true ->
  same_session c k c = true.
Proof.
  unfold same_session, truthy, opt_eqb. destruct (sessionToken c);
    [intros _; apply String.eqb_refl | discriminate].
Qed.

Lemma opt_eqb_eq a b : opt_eqb a b = true <-> a = b.
Proof.
  destruct a as [x|], b as [y|]; simpl; try (split; congruence).
  destruct (String.eqb_spec x y); split; congruence.
Qed.

Lemma one_per_session_addClient env c w :
  one_per_session (clients w) ->
  one_per_session (clients (snd (addClient env c w))).
Proof.
  intros [Hnd Hu].
  destruct (addClient_run env c w Hnd) as [_ [Hcl _]]. rewrite Hcl.
  assert (Hsub : forall k c',
    In (k, c') (if truthy (sessionToken c)
                then filter (kept (same_session c)) (clients w)
                else clients w) ->
    In (k, c') (clients w)
    /\ (truthy (sessionToken c) = true -> sessionToken c' <> sessionToken c)).
  { intros k c' H. destruct (truthy (sessionToken c)); [|split; [auto|discriminate]].
    apply filter_In in H. destruct H as [H Hk]. split; [exact H|].
    intros _ E. unfold kept, same_session in Hk. simpl in Hk.
    apply negb_true_iff in Hk. apply opt_eqb_eq in E. congruence. }
  split.
  - apply keys_set_NoDup. destruct (truthy (sessionToken c));
      [apply keys_filter_NoDup|]; exact Hnd.
  - intros k1 c1 k2 c2 H1 H2 Ht E.
    destruct (In_set _ _ _ _ _ H1) as [[-> ->]|H1'];
      destruct (In_set _ _ _ _ _ H2) as [[-> ->]|H2']; auto.
    + destruct (Hsub _ _ H2') as [_ Hne]. exfalso. apply (Hne Ht E).
    + destruct (Hsub _ _ H1') as [_ Hne]. exfalso.
      rewrite <- E in Ht. apply (Hne Ht). congruence.
    + destruct (Hsub _ _ H1') as [G1 _]. destruct (Hsub _ _ H2') as [G2 _].
      apply (Hu k1 c1 k2 c2); auto.
Qed.

(** Every reachable registry holds at most one entry per truthy session. *)
Lemma reachable_one_per_session env w :
  reachable env w -> one_per_session (clients w).
Proof.
  induction 1 as [|w op Hr IH].
  - split; simpl; [constructor | intros ? ? ? ? []].
  - destruct op; simpl.
    + apply one_per_session_addClient, IH.
    + eapply one_per_session_shrinks; [apply removeClient_shrinks | exact IH].
    + eapply one_per_session_shrinks; [apply send_op_shrinks | exact IH].
    + eapply one_per_session_shrinks; [apply subscribeToEvent_shrinks | exact IH].
    + eapply one_per_session_shrinks; [apply unsubscribeFromEvent_shrinks | exact IH].
    + eapply one_per_session_shrinks; [apply unsubscribeFromAllEvents_shrinks | exact IH].
    + eapply one_per_session_shrinks; [apply heartbeat_tick_shrinks | exact IH].
    + eapply one_per_session_shrinks; [apply session_cleanup_tick_shrinks | exact IH].
    + eapply one_per_session_shrinks; [apply cleanup_shrinks | exact IH].
Qed.

Lemma one_per_session_count l tok :
  one_per_session l -> tok <> EmptyString ->
  (length (filter (fun kc => has_token tok (snd kc)) l) <= 1)%nat.
Proof.
  intros [Hnd Hu] Hne. induction l as [|[k c] l IH]; simpl; [lia|].
  inversion Hnd as [|? ? Hk Hnd']; subst.
  assert (IH' : (length (filter (fun kc => has_token tok (snd kc)) l) <= 1)%nat).
  { apply IH; [exact Hnd'|]. intros k1 c1 k2 c2 H1 H2.
    apply Hu; right; assumption. }
  destruct (has_token tok c) eqn:Hc; [|exact IH'].
  assert (Hnone : filter (fun kc => has_token tok (snd kc)) l = []).
  { destruct (filter (fun kc => has_token tok (snd kc)) l) as [|[k' c'] r] eqn:F;
      [reflexivity|].
    assert (Hin : In (k', c') (filter (fun kc => has_token tok (snd kc)) l))
      by (rewrite F; left; reflexivity).
    apply filter_In in Hin. destruct Hin as [Hin Hc']. simpl in Hc'.
    apply has_token_true in Hc, Hc'.
    exfalso. apply Hk.
    assert (k = k').
    { apply (Hu k c k' c'); [left; reflexivity | right; exact Hin | |congruence].
      rewrite Hc. apply truthy_token, Hne. }
    subst. change (In (fst (k', c')) (map fst l)). apply in_map, Hin. }
  rewrite Hnone. simpl. lia.
Qed.

(** C4: a run of [addClient] calls for clients of one non-empty session
    with pairwise distinct ids, from any registry with unique keys: every
    call completes normally; afterwards the only live entry of the session
    is the client added last; every earlier client of the run is gone from
    the map and [end()] was called on its response (as it was for the
    clients of the session that were live before the run).  Hence every
    reachable registry holds at most one live entry per non-empty session. *)
Theorem C4_single_connection_per_session :
  (forall env tok cs last w,
      tok <> EmptyString ->
      NoDup (JsMap.keys (clients w)) ->
      (forall c, In c (cs ++ [last])%list -> sessionToken c = Some tok) ->
      NoDup (map id (cs ++ [last])%list) ->
      let w' := snd (for_each (cs ++ [last])%list (addClient env) w) in
      fst (for_each (cs ++ [last])%list (addClient env) w) = Normal tt
      /\ live_for tok w' = [(id last, last)]
      /\ (forall c, In c cs ->
            JsMap.get (id c) (clients w') = None
            /\ end_called (res c) (trace w'))
      /\ (forall k c0, In (k, c0) (clients w) -> sessionToken c0 = Some tok ->
            end_called (res c0) (trace w')))
  /\ (forall env w tok,
      reachable env w -> tok <> EmptyString ->
      (length (live_for tok w) <= 1)%nat).
Proof.
  split.
  - intros env tok cs last w Hne Hnd Htok Hids w'.
    destruct (add_sequence env tok Hne cs last w Hnd Htok Hids)
      as [I1 [I2 [I3 [I4 [I5 [_ I7]]]]]].
    fold w' in I2, I3, I4, I5, I7.
    split; [exact I1|]. split; [|split; [exact I7 | exact I5]].
    unfold live_for. apply filter_singleton.
    + exact I2.
    + apply get_In, I3.
    + simpl. apply has_token_true, Htok, in_or_app. right. left. reflexivity.
    + intros k' c' Hin Hp. simpl in Hp. apply has_token_true in Hp.
      destruct (I4 k' c' Hin) as [[E _]|[_ Hn]]; [exact E | contradiction].
  - intros env w tok Hr Hne. unfold live_for.
    apply one_per_session_count; [apply (reachable_one_per_session env), Hr | exact Hne].
Qed.

Lemma C4_witness :
  live_for "tokA"
    (snd (for_each [Scenario.c1; Scenario.c2; Scenario.c3]
                   (addClient Scenario.calm) initial_world))
  = [("c3", Scenario.c3)]
  /\ JsMap.get "c1"
       (clients (snd (for_each [Scenario.c1; Scenario.c2; Scenario.c3]
                               (addClient Scenario.calm) initial_world)))
     = None
  /\ end_called Scenario.r1
       (trace (snd (for_each [Scenario.c1; Scenario.c2; Scenario.c3]
                             (addClient Scenario.calm) initial_world)))
  /\ (length (live_for "tokA"
                (snd (exec Scenario.calm (OpAddClient Scenario.c2)
                        (snd (exec Scenario.calm (OpAddClient Scenario.c1)
                                initial_world))))) <= 1)%nat.
Proof.
  assert (Hne : "tokA" <> EmptyString) by discriminate.
  assert (Hnd : NoDup (JsMap.keys (clients initial_world))) by constructor.
  assert (Htok : forall c,
             In c ([Scenario.c1; Scenario.c2] ++ [Scenario.c3])%list ->
             sessionToken c = Some "tokA")
    by (intros c [<-|[<-|[<-|[]]]]; reflexivity).
  assert (Hids : NoDup (map id ([Scenario.c1; Scenario.c2] ++ [Scenario.c3])%list)).
  { simpl. repeat constructor; simpl; intuition discriminate. }
  pose proof (proj1 C4_single_connection_per_session Scenario.calm "tokA"
                [Scenario.c1; Scenario.c2] Scenario.c3 initial_world
                Hne Hnd Htok Hids) as H.
  cbv zeta in H. destruct H as [_ [H1 [H2 _]]].
  split; [exact H1|].
  destruct (H2 Scenario.c1 (or_introl eq_refl)) as [G E].
  split; [exact G|]. split; [exact E|].
  apply (proj2 C4_single_connection_per_session Scenario.calm _ "tokA");
    [|exact Hne].
  apply reach_step, reach_step, reach_init.
Defined.

(* ------------------------------------------------------------------ *)
(** ** The session reaper                                              *)
(* ------------------------------------------------------------------ *)

Section Reaper.
Variable env : Env.

(** *** The pieces of [removeClient] *)

Lemma markSessionOffline_issued_at_call k w :
  markSessionOffline env k w
  = markSessionOffline_issued env k (Date_now env (trace w)) w.
Proof. reflexivity. Qed.

Lemma markSessionOfflineBySessionToken_issued_at_call tok w :
  markSessionOfflineBySessionToken env tok w
  = markSessionOfflineBySessionToken_issued env tok (Date_now env (trace w)) w.
Proof. reflexivity. Qed.

(** [removeClient] is its started part followed by the pieces that part
    leaves pending, run one after the other. *)
Lemma removeClient_started_then_pending k w :
  removeClient env k w
  = (call <- removeClient_started env k ;;
     for_each call (fun piece => piece)) w.
Proof.
  unfold bind at 1. rewrite removeClient_started_unfold.
  unfold removeClient. unfold bind at 1, get_client.
  destruct (JsMap.get k (clients w)) as [c|]; [|reflexivity].
  unfold bind at 1.
  destruct (try_catch _ _ w) as [[u|e] w1]; [|reflexivity].
  unfold removeClient_pending. simpl for_each.
  destruct (truthy (sessionToken c)).
  - unfold bind. rewrite markSessionOfflineBySessionToken_issued_at_call.
    destruct (markSessionOfflineBySessionToken_issued env _ _ w1)
      as [[u2|e2] w2]; reflexivity.
  - unfold bind. rewrite markSessionOffline_issued_at_call.
    destruct (markSessionOffline_issued env _ _ w1) as [[u2|e2] w2];
      reflexivity.
Qed.

Lemma stays_absent_of_keeps k {A} (m : JS A) :
  preserves (keeps clients) m -> preserves (stays_absent k) m.
Proof. intros H w Ha. rewrite (H w). exact Ha. Qed.

Lemma untouched_of_keeps k {A} (m : JS A) :
  preserves (keeps clients) m -> preserves (untouched k) m.
Proof. intros H w. unfold untouched, keeps. rewrite (H w). reflexivity. Qed.

Lemma delete_entry_run j w :
  (modify_clients (JsMap.delete j) ;; log ("Client disconnected: " ++ j)) w
  = (Normal tt,
     add_event (EvLog ("[SSEManager] Client disconnected: " ++ j))
               (set_clients (JsMap.delete j (clients w)) w)).
Proof. reflexivity. Qed.

Lemma removeClient_pending_harmless k j c t :
  Forall (harmless k) (removeClient_pending env j c t).
Proof.
  unfold removeClient_pending. constructor; [|constructor; [|constructor]].
  - destruct (truthy (sessionToken c)); repeat split.
    + apply markSessionOfflineBySessionToken_issued_total.
    + apply markSessionOfflineBySessionToken_issued_appends.
    + apply stays_absent_of_keeps,
        markSessionOfflineBySessionToken_issued_keeps_clients.
    + apply markSessionOfflineBySessionToken_issued_mono.
    + apply markSessionOffline_issued_total.
    + apply markSessionOffline_issued_appends.
    + apply stays_absent_of_keeps, markSessionOffline_issued_keeps_clients.
    + apply markSessionOffline_issued_mono.
  - split; [|split; [|split]]; intros w; rewrite delete_entry_run; simpl.
    + exists tt. reflexivity.
    + exists [EvLog ("[SSEManager] Client disconnected: " ++ j)].
      split; [reflexivity | repeat constructor].
    + unfold stays_absent. simpl. intros Ha.
      destruct (String.eqb_spec k j) as [->|Hne].
      * apply get_delete_same.
      * rewrite get_delete_other; assumption.
    + apply sess_mono_same. reflexivity.
Qed.

Lemma removeClient_pending_untouched k j c t :
  j <> k -> Forall (preserves (untouched k)) (removeClient_pending env j c t).
Proof.
  intros Hne. unfold removeClient_pending.
  constructor; [|constructor; [|constructor]].
  - destruct (truthy (sessionToken c)); apply untouched_of_keeps.
    + apply markSessionOfflineBySessionToken_issued_keeps_clients.
    + apply markSessionOffline_issued_keeps_clients.
  - intros w. rewrite delete_entry_run. unfold untouched, keeps. simpl.
    apply get_delete_other. congruence.
Qed.

Lemma removeClient_pending_deletes j c t :
  Exists (deletes j) (removeClient_pending env j c t).
Proof.
  unfold removeClient_pending. apply Exists_cons_tl, Exists_cons_hd.
  intros w. rewrite delete_entry_run. simpl. apply get_delete_same.
Qed.

Lemma spent_not_pending (Q : JS unit -> Prop) calls :
  spent calls -> ~ Exists (Exists Q) calls.
Proof.
  intros Hs Hx. induction Hs as [|call calls -> _ IH].
  - inversion Hx.
  - inversion Hx as [? ? H|? ? H]; subst; [inversion H | auto].
Qed.

Lemma markSessionOffline_issued_ok k t w :
  db_fails env (trace w) (SessionUpdateManyOffline k) = None ->
  rows_offline k (snd (markSessionOffline_issued env k t w)).
Proof.
  intros Hdb. unfold markSessionOffline_issued, try_catch.
  rewrite (db_ok env _ _ _ Hdb). simpl.
  unfold rows_offline, Db.session_updateMany. intros r Hin Hk.
  apply in_map_iff in Hin. destruct Hin as [r0 [E Hin]].
  destruct (String.eqb_spec (s_clientId r0) k) as [Ek|Ek].
  - subst r. reflexivity.
  - subst r. contradiction.
Qed.

(** *** The tick when the bulk update fails *)

Lemma advance_nothing picks : forall w, advance picks [] w = (Normal [], w).
Proof.
  induction picks as [|n picks IH]; intros w; [reflexivity|].
  destruct n; apply IH.
Qed.

(** A rejected bulk update ends the tick: the error is logged and no client
    is looked at. *)
Lemma session_cleanup_tick_failed schedule w e :
  db_fails env (trace w)
    (SessionUpdateManyStale (Date_now env (trace w) - STALE_AFTER_MS)) = Some e ->
  session_cleanup_tick env schedule w
  = (Normal tt,
     add_event (EvLog ("[SSEManager] Error in session cleanup: " ++ e))
       (add_event
          (EvDb (SessionUpdateManyStale
                   (Date_now env (trace w) - STALE_AFTER_MS)) (Some e)) w)).
Proof.
  intros Edb. unfold session_cleanup_tick. unfold bind at 1.
  rewrite (session_cleanup_callback_failed env _ w e Edb).
  unfold bind. rewrite advance_nothing. reflexivity.
Qed.

(** *** The tick when the bulk update succeeds *)

Section Swept.
Variable schedule : Schedule.
Variable w : World.
Hypothesis keys_unique : NoDup (JsMap.keys (clients w)).
Hypothesis bulk_ok :
  db_fails env (trace w)
    (SessionUpdateManyStale (Date_now env (trace w) - STALE_AFTER_MS)) = None.

(** An invariant that holds after the bulk update and is kept by the loop
    holds when the tick ends. *)
Lemma swept_ok (Inv : World -> list Pending -> Prop) (F : string -> Prop) :
  (forall n calls w0,
      Inv w0 calls ->
      exists calls',
        fst (resume n calls w0) = Normal calls'
        /\ Inv (snd (resume n calls w0)) calls') ->
  (forall calls w0 w',
      Inv w0 calls ->
      clients w' = clients w0 -> subs w' = subs w0 -> sess_mono w0 w' ->
      appends (fun _ => True) w0 w' ->
      Inv w' calls) ->
  (forall j calls w0 call,
      F j -> Inv w0 calls ->
      match JsMap.get j (clients w0) with
      | Some c => exists t, call = removeClient_pending env j c t
      | None => call = []
      end ->
      Inv w0 (calls ++ [call])%list) ->
  (forall j client w0 calls,
      Inv w0 calls -> JsMap.get j (clients w0) = Some client ->
      (lastPing client <? (sweep_cutoff env w)) = true -> F j) ->
  Inv (bulk_updated env w) [] ->
  fst (session_cleanup_tick env schedule w) = Normal tt
  /\ exists calls',
       spent calls' /\ Inv (snd (session_cleanup_tick env schedule w)) calls'.
Proof.
  intros Hres Hstep Hpush Hvisit H1.
  destruct (sweep_ok Inv Hres env Hstep (sweep_cutoff env w) F Hpush
              (JsMap.keys (clients (bulk_updated env w))) [] (during schedule) [] (bulk_updated env w)
              (fun j client w0 calls _ => Hvisit j client w0 calls) H1)
    as [d' [calls' [w' [E I']]]].
  rewrite app_nil_r in E. simpl in E.
  apply (session_cleanup_tick_finish Inv env Hres schedule w calls' w');
    [|exact I'].
  rewrite (session_cleanup_callback_swept env _ w bulk_ok).
  fold (bulk_updated env w). unfold try_catch. fold (sweep_cutoff env w).
  change (clients (bulk_updated env w)) with (clients w). rewrite E. reflexivity.
Qed.

(** A client that is not stale is still there, as it was. *)
Lemma fresh_client_stays k c :
  In (k, c) (clients w) -> (sweep_cutoff env w) <= lastPing c ->
  JsMap.get k (clients (snd (session_cleanup_tick env schedule w))) = Some c.
Proof.
  intros Hin Hfresh.
  destruct (swept_ok
              (fun w0 calls => JsMap.get k (clients w0) = Some c
                               /\ all_pieces (preserves (untouched k)) calls)
              (fun j => j <> k))
    as [_ [calls' [_ [H _]]]]; [| | | | |exact H].
  - apply resume_pieces. intros p w0 Hp H0. rewrite (Hp w0). exact H0.
  - intros calls w0 w' [H0 Hc] E _ _ _. rewrite E. auto.
  - intros j calls w0 call Hne [H0 Hc] Shape. split; [exact H0|].
    apply Forall_app. split; [exact Hc|]. constructor; [|constructor].
    destruct (JsMap.get j (clients w0)).
    + destruct Shape as [t ->]. apply removeClient_pending_untouched, Hne.
    + subst call. constructor.
  - intros j client w0 calls [H0 _] G S ->.
    rewrite H0 in G. injection G as <-. apply Z.ltb_lt in S. lia.
  - split; [|constructor]. apply In_get; assumption.
Qed.

(** Rows keep their place and client id, and none goes back online, from
    the bulk update to the end of the tick. *)
Lemma rows_after_bulk_update :
  sess_mono (bulk_updated env w) (snd (session_cleanup_tick env schedule w)).
Proof.
  destruct (swept_ok
              (fun w0 calls => sess_mono (bulk_updated env w) w0
                               /\ all_pieces (preserves sess_mono) calls)
              (fun _ => True))
    as [_ [calls' [_ [H _]]]]; [| | | | |exact H].
  - apply resume_pieces. intros p w0 Hp H0.
    eapply fp_trans; [exact H0 | apply Hp].
  - intros calls w0 w' [H0 Hc] _ _ M _. split; [|exact Hc].
    eapply fp_trans; [exact H0 | exact M].
  - intros j calls w0 call _ [H0 Hc] Shape. split; [exact H0|].
    apply Forall_app. split; [exact Hc|]. constructor; [|constructor].
    destruct (JsMap.get j (clients w0)).
    + destruct Shape as [t ->].
      eapply Forall_impl; [|apply (removeClient_pending_harmless j)].
      intros p Hp. apply Hp.
    + subst call. constructor.
  - intros; exact I.
  - split; [apply fp_refl | constructor].
Qed.

(** A stale client is gone when the tick ends, its connection was ended,
    and with the store available its session rows are offline. *)
Lemma stale_client_goes k c :
  In (k, c) (clients w) -> lastPing c < (sweep_cutoff env w) ->
  JsMap.get k (clients (snd (session_cleanup_tick env schedule w))) = None
  /\ end_called (res c) (trace (snd (session_cleanup_tick env schedule w)))
  /\ ((forall tr call, db_fails env tr call = None) ->
      rows_offline k (snd (session_cleanup_tick env schedule w))).
Proof.
  intros Hin Hstale.
  set (store_up := forall tr call, db_fails env tr call = None).
  set (J := fun w0 : World => end_called (res c) (trace w0)
                              /\ (store_up -> rows_offline k w0)).
  set (Inv1 := fun (w0 : World) (calls : list Pending) =>
                 JsMap.get k (clients w0) = Some c
                 /\ all_pieces (fun p => harmless k p
                                         /\ preserves (untouched k) p) calls).
  set (Inv2 := fun (w0 : World) (calls : list Pending) =>
                 doomed k w0 calls /\ all_pieces (harmless k) calls /\ J w0).
  assert (HJ : forall p w0, harmless k p -> J w0 -> J (snd (p w0))).
  { intros p w0 [_ [Ha [_ Hm]]] [He Hr]. split.
    - eapply end_called_appends; [apply Ha | exact He].
    - intros Hup. eapply rows_offline_mono; [apply Hr, Hup | apply Hm]. }
  assert (Hres1 : forall n calls w0,
             Inv1 w0 calls ->
             exists calls',
               fst (resume n calls w0) = Normal calls'
               /\ Inv1 (snd (resume n calls w0)) calls').
  { apply resume_pieces. intros p w0 [_ Hp] H0. rewrite (Hp w0). exact H0. }
  assert (Hstep1 : forall calls w0 w',
             Inv1 w0 calls ->
             clients w' = clients w0 -> subs w' = subs w0 -> sess_mono w0 w' ->
             appends (fun _ => True) w0 w' -> Inv1 w' calls).
  { intros calls w0 w' [H0 Hc] E _ _ _. split; [rewrite E; exact H0 | exact Hc]. }
  assert (Hres2 : forall n calls w0,
             Inv2 w0 calls ->
             exists calls',
               fst (resume n calls w0) = Normal calls'
               /\ Inv2 (snd (resume n calls w0)) calls').
  { apply resume_doomed, HJ. }
  assert (Hstep2 : forall calls w0 w',
             Inv2 w0 calls ->
             clients w' = clients w0 -> subs w' = subs w0 -> sess_mono w0 w' ->
             appends (fun _ => True) w0 w' -> Inv2 w' calls).
  { intros calls w0 w' [Hd [Hc [He Hr]]] E _ M A.
    split; [|split; [exact Hc|split]].
    - unfold doomed in *. rewrite E. exact Hd.
    - eapply end_called_appends; [exact A | exact He].
    - intros Hup. eapply rows_offline_mono; [apply Hr, Hup | exact M]. }
  (* the keys before [k], [k] itself, the keys after it *)
  assert (Hk : In k (JsMap.keys (clients (bulk_updated env w)))).
  { apply in_map_iff. exists (k, c). auto. }
  destruct (in_split _ _ Hk) as [before [rest Ekeys]].
  assert (Hnd : NoDup (before ++ k :: rest)%list)
    by (rewrite <- Ekeys; exact keys_unique).
  apply NoDup_remove_2 in Hnd.
  (* up to the turn of [k] *)
  destruct (sweep_ok Inv1 Hres1 env Hstep1 (sweep_cutoff env w) (fun j => j <> k))
    with (before := before) (l := k :: rest) (during := during schedule)
         (calls := @nil Pending) (w := (bulk_updated env w))
    as [d1 [calls1 [wa [E1 [Ga Pa]]]]].
  { intros j calls w0 call Hne [H0 Hc] Shape. split; [exact H0|].
    apply Forall_app. split; [exact Hc|]. constructor; [|constructor].
    destruct (JsMap.get j (clients w0)).
    - destruct Shape as [t ->].
      apply Forall_forall. intros p Hp. split.
      + pose proof (removeClient_pending_harmless k j s t) as Hh.
        rewrite Forall_forall in Hh. apply Hh, Hp.
      + pose proof (removeClient_pending_untouched k j s t Hne) as Hu.
        rewrite Forall_forall in Hu. apply Hu, Hp.
    - subst call. constructor. }
  { intros j client w0 calls Hj _ _ _ ->. apply Hnd, in_or_app. auto. }
  { split; [|constructor]. apply In_get; assumption. }
  (* the turn of [k] *)
  rewrite sweep_entries_cons, Ga in E1.
  assert (S : (lastPing c <? (sweep_cutoff env w)) = true) by (apply Z.ltb_lt; exact Hstale).
  rewrite S in E1.
  set (wl := add_event _ wa) in E1.
  assert (Il : Inv1 wl calls1).
  { apply (Hstep1 calls1 wa); try reflexivity; [split; assumption| |].
    - apply sess_mono_same. reflexivity.
    - apply fp_event. exact I. }
  destruct (advance_ok Inv1 Hres1 (hd [] d1) calls1 wl Il) as [calls2 [E2 [Gb Pb]]].
  destruct (advance (hd [] d1) calls1 wl) as [r2 wb]. simpl in E2, Gb.
  subst r2.
  set (t := Date_now env _) in E1.
  pose proof (total_unit _ wb (markSessionOffline_issued_total env k t)) as E3.
  pose proof (markSessionOffline_issued_keeps_clients env k t wb) as C3.
  pose proof (markSessionOffline_issued_ok k t wb) as R3.
  destruct (markSessionOffline_issued env k t wb) as [r3 wc]. simpl in E3, C3, R3.
  subst r3. unfold keeps in C3.
  destruct (removeClient_started_run env k wc)
    as [call [E4 [C4 [S4 [_ [A4 Shape]]]]]].
  rewrite C3, Gb in Shape. destruct Shape as [[t' ->] He].
  assert (I2 : Inv2 (snd (removeClient_started env k wc))
                    (calls2 ++ [removeClient_pending env k c t'])%list).
  { split; [|split; [|split]].
    - right. apply Exists_app. right. constructor.
      apply removeClient_pending_deletes.
    - apply Forall_app. split.
      + eapply Forall_impl; [|exact Pb]. intros call Hc.
        eapply Forall_impl; [|exact Hc]. intros p Hp. apply Hp.
      + constructor; [apply removeClient_pending_harmless | constructor].
    - exact He.
    - intros Hup. eapply rows_offline_mono; [apply R3, Hup|].
      apply sess_mono_same. exact S4. }
  destruct (removeClient_started env k wc) as [r4 wd]. simpl in E4, I2.
  subst r4.
  (* after the turn of [k] *)
  destruct (sweep_ok Inv2 Hres2 env Hstep2 (sweep_cutoff env w) (fun _ => True))
    with (before := rest) (l := @nil string) (during := tl d1)
         (calls := (calls2 ++ [removeClient_pending env k c t'])%list) (w := wd)
    as [d2 [calls3 [we [E5 I5]]]].
  { intros j calls w0 call _ [Hd [Hc Hj]] Shape.
    split; [|split; [|exact Hj]].
    - destruct Hd as [Hd|Hd]; [left; exact Hd | right; apply Exists_app_l, Hd].
    - apply Forall_app. split; [exact Hc|]. constructor; [|constructor].
      destruct (JsMap.get j (clients w0)).
      + destruct Shape as [t0 ->]. apply removeClient_pending_harmless.
      + subst call. constructor. }
  { intros; exact I. }
  { exact I2. }
  rewrite app_nil_r in E5. rewrite E5 in E1. simpl in E1.
  (* the end of the tick *)
  destruct (session_cleanup_tick_finish Inv2 env Hres2 schedule w calls3 we)
    as [_ [calls' [Hs [Hd [_ [He' Hr']]]]]].
  { rewrite (session_cleanup_callback_swept env _ w bulk_ok).
    fold (bulk_updated env w). unfold try_catch. fold (sweep_cutoff env w).
    rewrite <- Ekeys in E1. rewrite E1. reflexivity. }
  { exact I5. }
  split; [|split; assumption].
  destruct Hd as [Hd|Hd]; [exact Hd|].
  exfalso. exact (spent_not_pending _ _ Hs Hd).
Qed.

End Swept.

Lemma Forall2_compose {A} (R1 R2 : A -> A -> Prop) l1 l2 :
  Forall2 R1 l1 l2 -> forall l3, Forall2 R2 l2 l3 ->
  Forall2 (fun x z => exists y, R1 x y /\ R2 y z) l1 l3.
Proof.
  induction 1; intros l3 H23; inversion H23; subst; constructor; eauto.
Qed.

Lemma durable_sweep cutoff rows :
  Forall2 (fun r r1 =>
             s_clientId r1 = s_clientId r
             /\ (s_status r = offline
                 \/ (s_status r = online /\ s_lastPing r < cutoff)
                 -> s_status r1 = offline))
          rows
          (Db.session_updateMany
             (fun r => (s_lastPing r <? cutoff) && Db.is_online r)
             Db.set_status_offline rows).
Proof.
  induction rows as [|r rows IH]; simpl; constructor; [|exact IH].
  destruct ((s_lastPing r <? cutoff) && Db.is_online r) eqn:E.
  - split; reflexivity.
  - split; [reflexivity|]. intros [H|[H1 H2]]; [exact H|].
    apply Z.ltb_lt in H2. unfold Db.is_online in E. rewrite H1, H2 in E.
    discriminate.
Qed.

(** One tick of the session cleanup whose bulk update succeeds, on a map
    with unique keys, whenever the pending [removeClient] calls run.  [t1]
    and [t2] are the readings of the clock before and after the bulk
    update.  The tick completes normally.  A client whose [lastPing] is
    older than 30 000 ms at [t2] is gone when the tick ends and [end()]
    was called on its connection; with the store available its rows are
    offline.  Every other client is there as it was.  Every row keeps
    its place and client id and is offline afterwards if it was offline,
    or was online with a [lastPing] older than 30 000 ms at [t1]. *)
Lemma session_cleanup_tick_sweeps schedule w :
  let t1 := Date_now env (trace w) in
  let sweep := SessionUpdateManyStale (t1 - STALE_AFTER_MS) in
  let t2 := Date_now env (trace w ++ [EvDb sweep None]) in
  let w' := snd (session_cleanup_tick env schedule w) in
  NoDup (JsMap.keys (clients w)) ->
  db_fails env (trace w) sweep = None ->
  fst (session_cleanup_tick env schedule w) = Normal tt
  /\ (forall k c, In (k, c) (clients w) -> lastPing c < t2 - STALE_AFTER_MS ->
        JsMap.get k (clients w') = None
        /\ end_called (res c) (trace w')
        /\ ((forall tr call, db_fails env tr call = None) -> rows_offline k w'))
  /\ (forall k c, In (k, c) (clients w) -> t2 - STALE_AFTER_MS <= lastPing c ->
        JsMap.get k (clients w') = Some c)
  /\ Forall2
       (fun r r' =>
          s_clientId r' = s_clientId r
          /\ (s_status r = offline
              \/ (s_status r = online /\ s_lastPing r < t1 - STALE_AFTER_MS)
              -> s_status r' = offline))
       (sessions w) (sessions w').
Proof.
  intros t1 sweep t2 w' Hnd Hdb.
  split; [apply total_unit, session_cleanup_tick_total|].
  split; [|split].
  - intros k c Hin Hlt. apply (stale_client_goes schedule w Hnd Hdb k c Hin Hlt).
  - intros k c Hin Hge. apply (fresh_client_stays schedule w Hnd Hdb k c Hin Hge).
  - pose proof (rows_after_bulk_update schedule w Hdb) as M.
    pose proof (durable_sweep (t1 - STALE_AFTER_MS) (sessions w)) as D.
    pose proof (Forall2_compose _ _ _ _ D _ M) as F.
    eapply Forall2_impl; [|exact F]. simpl.
    intros r r' [r1 [[E1 H1] [E2 H2]]]. split; [congruence | auto].
Qed.

End Reaper.

(** The removals the callback starts are pending when it returns.  With
    two stale clients and no pending call running before the callback
    returns, both are still in the map then, their connections ended; when
    the first removal runs while the callback waits for the second time,
    only the last client is.  Either way the map is empty when the tick
    ends. *)
Example removals_are_pending_when_the_callback_returns :
  JsMap.keys
    (clients (snd (session_cleanup_callback Scenario.calm
                     (during Scenario.late) Scenario.two_idle)))
  = ["c0"; "c8"]
  /\ JsMap.keys
       (clients (snd (session_cleanup_callback Scenario.calm
                        (during Scenario.eager) Scenario.two_idle)))
     = ["c8"]
  /\ clients (snd (session_cleanup_tick Scenario.calm Scenario.late
                                        Scenario.two_idle)) = []
  /\ clients (snd (session_cleanup_tick Scenario.calm Scenario.eager
                                        Scenario.two_idle)) = []
  /\ filter (fun e => match e with EvEnd _ _ => true | _ => false end)
       (trace (snd (session_cleanup_callback Scenario.calm
                      (during Scenario.late) Scenario.two_idle)))
     = [EvEnd Scenario.r3 None; EvEnd Scenario.r2 None].
Proof. vm_compute. repeat split. Qed.

(** The comparison of the sweep is strict: a client whose last ping is
    exactly 30 000 ms old when the tick reads the clock stays in the map. *)
Example tick_at_exactly_30000_keeps :
  Date_now Scenario.calm
    [EvDb (SessionUpdateManyStale (100000 - 30000)) None]
  - lastPing Scenario.on_the_edge = 30000
  /\ clients (snd (session_cleanup_tick Scenario.calm Scenario.late
                     (mkWorld [("c9", Scenario.on_the_edge)] [] [] [])))
     = [("c9", Scenario.on_the_edge)].
Proof. vm_compute. split; reflexivity. Qed.

(** C5: a tick of the session cleanup whose bulk update is rejected, all
    else working.  [c0] has been silent for 40 000 ms when the tick reads
    the clock.  The rejection is caught by the one [try] that holds both
    sweeps: the tick logs the error and ends, whatever the schedule of
    pending calls.  [c0] is still in the map, [end()] was called on no
    connection, and both session rows are still [online].  The same tick
    with the store available removes [c0]. *)
Theorem C5_rejected_bulk_update_skips_the_in_memory_sweep :
  forall schedule,
    Date_now Scenario.sweep_down (trace Scenario.idle_and_c1)
    - lastPing Scenario.idle = 40000
    /\ session_cleanup_tick Scenario.sweep_down schedule Scenario.idle_and_c1
       = (Normal tt,
          add_event (EvLog "[SSEManager] Error in session cleanup: P2024")
            (add_event (EvDb (SessionUpdateManyStale 70000) (Some "P2024"))
                       Scenario.idle_and_c1))
    /\ JsMap.get "c0"
         (clients (snd (session_cleanup_tick Scenario.sweep_down schedule
                                             Scenario.idle_and_c1)))
       = Some Scenario.idle
    /\ (forall r o,
          ~ In (EvEnd r o)
               (trace (snd (session_cleanup_tick Scenario.sweep_down schedule
                                                 Scenario.idle_and_c1))))
    /\ map s_status
         (sessions (snd (session_cleanup_tick Scenario.sweep_down schedule
                                              Scenario.idle_and_c1)))
       = [online; online]
    /\ JsMap.get "c0"
         (clients (snd (session_cleanup_tick Scenario.calm schedule
                                             Scenario.idle_and_c1)))
       = None.
Proof.
  intros schedule.
  assert (E : session_cleanup_tick Scenario.sweep_down schedule Scenario.idle_and_c1
              = (Normal tt,
                 add_event (EvLog "[SSEManager] Error in session cleanup: P2024")
                   (add_event (EvDb (SessionUpdateManyStale 70000) (Some "P2024"))
                              Scenario.idle_and_c1)))
    by (apply (session_cleanup_tick_failed Scenario.sweep_down schedule
                 Scenario.idle_and_c1 "P2024"); reflexivity).
  split; [reflexivity|]. split; [exact E|]. rewrite E.
  split; [reflexivity|]. split; [|split; [reflexivity|]].
  - intros r o [H|[H|[]]]; discriminate.
  - assert (Hnd : NoDup (JsMap.keys (clients Scenario.idle_and_c1))).
    { simpl. repeat constructor; simpl; intuition discriminate. }
    destruct (session_cleanup_tick_sweeps Scenario.calm schedule
                Scenario.idle_and_c1 Hnd eq_refl) as [_ [H _]].
    apply (H "c0" Scenario.idle); [left; reflexivity | reflexivity].
Qed.


(* ------------------------------------------------------------------ *)
(** ** Further properties: disconnecting                               *)
(* ------------------------------------------------------------------ *)

(** X1: [removeClient] of a client that is in the map, in any environment:
    it completes normally; [end()] is called on that client's response as
    the first thing, and only log entries and database calls follow; the
    entry is gone, every other entry is as it was, and the subscription
    table is not touched. *)
Theorem removeClient_effect :
  forall env k c w,
    JsMap.get k (clients w) = Some c ->
    fst (removeClient env k w) = Normal tt
    /\ JsMap.get k (clients (snd (removeClient env k w))) = None
    /\ (forall k', k' <> k ->
          JsMap.get k' (clients (snd (removeClient env k w)))
          = JsMap.get k' (clients w))
    /\ (exists o evs,
          events_since w (snd (removeClient env k w)) = EvEnd (res c) o :: evs
          /\ Forall silent evs)
    /\ subs (snd (removeClient env k w)) = subs w.
Proof.
  intros env k c w Hget.
  destruct (removeClient_present env k c w Hget)
    as [o [evs [w' [E [Hc [Hs [Ht Hf]]]]]]].
  rewrite E. simpl fst. simpl snd. rewrite Hc.
  split; [reflexivity|]. split; [apply get_delete_same|].
  split; [intros k' Hne; apply get_delete_other, Hne|].
  split; [|exact Hs].
  exists o, evs. split; [apply events_since_app, Ht | exact Hf].
Qed.

Lemma removeClient_effect_witness :
  JsMap.get "c1"
    (clients (snd (removeClient Scenario.db_down "c1" Scenario.idle_and_c1)))
  = None
  /\ JsMap.get "c0"
       (clients (snd (removeClient Scenario.db_down "c1" Scenario.idle_and_c1)))
     = Some Scenario.idle.
Proof.
  destruct (removeClient_effect Scenario.db_down "c1" Scenario.c1
              Scenario.idle_and_c1 eq_refl) as [_ [H1 [H2 _]]].
  split; [exact H1|].
  rewrite (H2 "c0"); [reflexivity | discriminate].
Defined.

(** X2: [removeClient] is idempotent, in any environment: for an id that
    is not in the map it returns with the world untouched (no call on any
    connection, no database call, no log entry), and a second
    [removeClient] of the same id is such a call. *)
Theorem removeClient_idempotent :
  (forall env k w,
      JsMap.get k (clients w) = None ->
      removeClient env k w = (Normal tt, w))
  /\ (forall env k w,
      removeClient env k (snd (removeClient env k w))
      = (Normal tt, snd (removeClient env k w))).
Proof.
  split.
  - intros env k w H. apply removeClient_absent, H.
  - intros env k w. apply removeClient_absent.
    rewrite removeClient_clients. apply get_delete_same.
Qed.

Lemma removeClient_idempotent_witness :
  removeClient Scenario.calm "ghost" Scenario.only_c1
  = (Normal tt, Scenario.only_c1).
Proof.
  apply (proj1 removeClient_idempotent Scenario.calm "ghost" Scenario.only_c1).
  reflexivity.
Defined.

(* ------------------------------------------------------------------ *)
(** ** Further properties: session rows                                *)
(* ------------------------------------------------------------------ *)

Section SessionRows.
Variable env : Env.
Hypothesis store_up : forall tr call, db_fails env tr call = None.

Lemma updateSession_run c w :
  updateSession env c w
  = (Normal tt,
     set_sessions
       (Db.session_upsert c (clock env (trace w) 0) (clock env (trace w) 1)
                          (clock env (trace w) 2) (clock env (trace w) 3)
                          (sessions w))
       (add_event (EvDb (SessionUpsert (id c)) None) w)).
Proof.
  unfold updateSession, try_catch, bind, now, now_again, Date_now.
  rewrite (db_ok env _ _ _ (store_up _ _)). reflexivity.
Qed.

Lemma markSessionOffline_run k w :
  markSessionOffline env k w
  = (Normal tt,
     set_sessions
       (Db.session_updateMany (fun r => String.eqb (s_clientId r) k)
                              (Db.set_offline (Date_now env (trace w)))
                              (sessions w))
       (add_event (EvDb (SessionUpdateManyOffline k) None) w)).
Proof.
  unfold markSessionOffline, try_catch, bind, now.
  rewrite (db_ok env _ _ _ (store_up _ _)). reflexivity.
Qed.

Lemma markSessionOfflineBySessionToken_run t w :
  markSessionOfflineBySessionToken env t w
  = (Normal tt,
     set_sessions
       (Db.session_updateMany (fun r => opt_eqb (s_sessionToken r) (Some t))
                              (Db.set_offline (Date_now env (trace w)))
                              (sessions w))
       (add_event (EvDb (SessionUpdateManyOfflineByToken t) None) w)).
Proof.
  unfold markSessionOfflineBySessionToken, try_catch, bind, now.
  rewrite (db_ok env _ _ _ (store_up _ _)). reflexivity.
Qed.

(** The rows after [removeClient] of a client that is in the map. *)
Lemma removeClient_sessions k c w :
  JsMap.get k (clients w) = Some c ->
  exists t,
    sessions (snd (removeClient env k w))
    = Db.session_updateMany
        (if truthy (sessionToken c)
         then (fun r => opt_eqb (s_sessionToken r)
                                (Some (or_else (sessionToken c) EmptyString)))
         else (fun r => String.eqb (s_clientId r) k))
        (Db.set_offline t) (sessions w).
Proof.
  intros Hget. unfold removeClient. unfold bind at 1, get_client.
  rewrite Hget.
  destruct (end_step env (res c)
              (fun err => "Error ending response for client " ++ k ++ ": " ++ err)
              w)
    as [o [evs1 [E1 F1]]].
  cbv beta in E1. unfold bind at 1. rewrite E1.
  set (w1 := mkWorld (clients w) (sessions w) (subs w)
                     (trace w ++ EvEnd (res c) o :: evs1)).
  exists (Date_now env (trace w1)).
  destruct (truthy (sessionToken c)).
  - unfold bind. rewrite markSessionOfflineBySessionToken_run. reflexivity.
  - unfold bind. rewrite markSessionOffline_run. reflexivity.
Qed.

(** The rows after [addClient]: an upsert for the new client on top of
    whatever the eviction left. *)
Lemma addClient_sessions c w :
  exists tr rows,
    sessions (snd (addClient env c w))
    = Db.session_upsert c (clock env tr 0) (clock env tr 1)
                        (clock env tr 2) (clock env tr 3) rows.
Proof.
  rewrite addClient_unfold.
  set (pre := if truthy (sessionToken c)
              then for_entries (guarded (same_session c)
                                        (fun k _ => removeClient env k))
              else ret tt).
  assert (Tp : total pre).
  { unfold pre. destruct (truthy (sessionToken c)); [|apply total_ret].
    apply total_for_entries. intros k c0. unfold guarded.
    destruct (same_session c k c0); [apply removeClient_total | apply total_ret]. }
  unfold bind at 1. rewrite (run_total pre w Tp).
  unfold bind at 1, modify_clients. unfold bind.
  rewrite updateSession_run. unfold log. simpl.
  eexists. eexists. reflexivity.
Qed.

End SessionRows.

Lemma upsert_rows c t1 t2 t3 t4 rows :
  (exists r, In r (Db.session_upsert c t1 t2 t3 t4 rows) /\ s_clientId r = id c)
  /\ (forall r, In r (Db.session_upsert c t1 t2 t3 t4 rows) ->
        s_clientId r = id c ->
        s_status r = online
        /\ ((s_lastSeen r = t1 /\ s_lastPing r = t2)
            \/ (s_lastSeen r = t3 /\ s_lastPing r = t4))
        /\ (forall tk, sessionToken c = Some tk -> s_sessionToken r = Some tk)).
Proof.
  unfold Db.session_upsert.
  destruct (existsb (fun r => String.eqb (s_clientId r) (id c)) rows) eqn:E.
  - split.
    + apply existsb_exists in E. destruct E as [r0 [Hin Hk]].
      eexists. split.
      * unfold Db.session_updateMany. apply in_map_iff. exists r0.
        split; [reflexivity | exact Hin].
      * rewrite Hk. simpl. apply String.eqb_eq, Hk.
    + intros r Hin Hk. unfold Db.session_updateMany in Hin.
      apply in_map_iff in Hin. destruct Hin as [r0 [Er Hin]].
      destruct (String.eqb (s_clientId r0) (id c)) eqn:Ek; subst r; simpl.
      * split; [reflexivity|]. split; [left; split; reflexivity|].
        intros tk Htk. rewrite Htk. reflexivity.
      * apply String.eqb_eq in Hk. congruence.
  - split.
    + eexists. split; [apply in_or_app; right; left; reflexivity | reflexivity].
    + intros r Hin Hk. apply in_app_or in Hin. destruct Hin as [Hin|[<-|[]]].
      * exfalso. assert (X : existsb (fun r => String.eqb (s_clientId r) (id c)) rows = true)
          by (apply existsb_exists; exists r; split;
              [exact Hin | apply String.eqb_eq, Hk]).
        congruence.
      * simpl. split; [reflexivity|]. split; [right; split; reflexivity|].
        auto.
Qed.



(** The two time stamps of a row are two readings of the clock: on a
    clock that moves between readings they differ, in a new row and in a
    row that is updated. *)
Example lastSeen_and_lastPing_are_read_separately :
  map (fun r => (s_lastSeen r, s_lastPing r))
      (sessions (snd (addClient Scenario.ticking Scenario.c1 initial_world)))
  = [(100002, 100003)]
  /\ map (fun r => (s_lastSeen r, s_lastPing r))
       (sessions (snd ((addClient Scenario.ticking Scenario.c1 ;;
                        addClient Scenario.ticking Scenario.c1) initial_world)))
     = [(100005, 100006)].
Proof. vm_compute. split; reflexivity. Qed.

(** X4: with the store available, [addClient] followed by [removeClient] of
    the same id leaves the client out of the map with [end()] called on its
    response, and leaves its session row in the table, offline: the row
    outlives the connection. *)
Theorem connect_then_disconnect :
  forall env c w,
    (forall tr call, db_fails env tr call = None) ->
    NoDup (JsMap.keys (clients w)) ->
    let w1 := snd (addClient env c w) in
    let w2 := snd (removeClient env (id c) w1) in
    JsMap.get (id c) (clients w2) = None
    /\ end_called (res c) (trace w2)
    /\ (exists r, In r (sessions w2) /\ s_clientId r = id c)
    /\ rows_offline (id c) w2.
Proof.
  intros env c w Hdb Hnd w1 w2.
  destruct (addClient_run env c w Hnd) as [_ [Hcl _]].
  assert (Hget : JsMap.get (id c) (clients w1) = Some c)
    by (unfold w1; rewrite Hcl; apply get_set_same).
  destruct (addClient_sessions env Hdb c w) as [tr [rows Hs]]. fold w1 in Hs.
  destruct (upsert_rows c (clock env tr 0) (clock env tr 1)
                          (clock env tr 2) (clock env tr 3) rows)
    as [[r1 [Hin1 Hk1]] U2].
  rewrite <- Hs in Hin1, U2.
  destruct (removeClient_present env (id c) c w1 Hget)
    as [o [evs [w' [E [Hc [_ [Ht _]]]]]]].
  destruct (removeClient_sessions env Hdb (id c) c w1 Hget) as [t' Hs2].
  fold w2 in Hs2. unfold w2 at 1 2. rewrite E. simpl snd.
  split; [rewrite Hc; apply get_delete_same|].
  split; [exists o; rewrite Ht; apply in_or_app; right; left; reflexivity|].
  assert (Hsel : forall r, In r (sessions w1) -> s_clientId r = id c ->
            (if truthy (sessionToken c)
             then (fun r => opt_eqb (s_sessionToken r)
                              (Some (or_else (sessionToken c) EmptyString)))
             else (fun r => String.eqb (s_clientId r) (id c))) r = true).
  { intros r Hin Hk. destruct (U2 r Hin Hk) as [_ [_ Htok]].
    destruct (sessionToken c) as [tk|] eqn:Etk; simpl.
    - destruct (String.eqb tk EmptyString) eqn:Ee; simpl.
      + apply String.eqb_eq, Hk.
      + rewrite (Htok tk eq_refl). simpl. apply String.eqb_refl.
    - apply String.eqb_eq, Hk. }
  split.
  - eexists. split.
    + rewrite Hs2. unfold Db.session_updateMany. apply in_map_iff.
      exists r1. split; [reflexivity | exact Hin1].
    + rewrite (Hsel r1 Hin1 Hk1). exact Hk1.
  - unfold rows_offline. rewrite Hs2. intros r Hin Hk.
    unfold Db.session_updateMany in Hin. apply in_map_iff in Hin.
    destruct Hin as [r0 [Er Hin]].
    assert (Hk0 : s_clientId r0 = id c).
    { subst r. destruct (_ r0); simpl in Hk; exact Hk. }
    rewrite (Hsel r0 Hin Hk0) in Er. subst r. reflexivity.
Qed.

Lemma connect_then_disconnect_witness :
  JsMap.get "c1"
    (clients (snd (removeClient Scenario.calm "c1"
                     (snd (addClient Scenario.calm Scenario.c1 initial_world)))))
  = None
  /\ rows_offline "c1"
       (snd (removeClient Scenario.calm "c1"
               (snd (addClient Scenario.calm Scenario.c1 initial_world)))).
Proof.
  assert (Hnd : NoDup (JsMap.keys (clients initial_world))) by constructor.
  pose proof (connect_then_disconnect Scenario.calm Scenario.c1 initial_world
                (fun _ _ => eq_refl) Hnd) as H.
  cbv zeta in H. destruct H as [H1 [_ [_ H4]]].
  split; [exact H1 | exact H4].
Defined.

(* ------------------------------------------------------------------ *)
(** ** Further properties: uniqueness in the store                     *)
(* ------------------------------------------------------------------ *)

Lemma keeps_unique_same w w' :
  sessions w' = sessions w -> subs w' = subs w -> keeps_unique w w'.
Proof. intros E1 E2. unfold keeps_unique. rewrite E1, E2. auto. Qed.

#[export] Instance keeps_unique_fp : Footprint keeps_unique (fun _ => True).
Proof.
  split.
  - intros w. apply keeps_unique_same; reflexivity.
  - intros a b c [A1 A2] [B1 B2]. split; auto.
  - intros e w _. apply keeps_unique_same; reflexivity.
Qed.

Lemma ids_updateMany wh d rows :
  (forall r, s_clientId (d r) = s_clientId r) ->
  map s_clientId (Db.session_updateMany wh d rows) = map s_clientId rows.
Proof.
  intros Hd. unfold Db.session_updateMany. rewrite map_map. apply map_ext.
  intros r. destruct (wh r); auto.
Qed.

Lemma keeps_unique_updateMany wh d w :
  (forall r, s_clientId (d r) = s_clientId r) ->
  keeps_unique w (set_sessions (Db.session_updateMany wh d (sessions w)) w).
Proof.
  intros Hd. split; simpl; [|auto]. rewrite (ids_updateMany _ _ _ Hd). auto.
Qed.

Lemma keeps_unique_session_upsert c t1 t2 t3 t4 w :
  keeps_unique w
    (set_sessions (Db.session_upsert c t1 t2 t3 t4 (sessions w)) w).
Proof.
  split; simpl; [|auto]. intros Hnd. unfold Db.session_upsert.
  destruct (existsb (fun r => String.eqb (s_clientId r) (id c)) (sessions w)) eqn:E.
  - rewrite ids_updateMany; [exact Hnd | reflexivity].
  - rewrite map_app. simpl.
    apply NoDup_app; [exact Hnd | constructor; [intros []|constructor] |].
    intros x Hin [<-|[]].
    apply in_map_iff in Hin. destruct Hin as [r [Hk Hin]].
    assert (X : existsb (fun r => String.eqb (s_clientId r) (id c)) (sessions w) = true)
      by (apply existsb_exists; exists r; split;
          [exact Hin | apply String.eqb_eq, Hk]).
    congruence.
Qed.

Lemma triple_matches_self r :
  Db.triple_matches (sub_sessionToken r) (sub_eventName r) (sub_clientId r) r
  = true.
Proof.
  unfold Db.triple_matches. rewrite !String.eqb_refl.
  destruct (sub_clientId r); simpl; auto using String.eqb_refl.
Qed.

Lemma keeps_unique_sub_upsert s e c w :
  keeps_unique w (set_subs (Db.subscription_upsert s e c (subs w)) w).
Proof.
  split; simpl; [auto|]. intros Hnd. unfold Db.subscription_upsert.
  destruct (existsb (Db.triple_matches s e c) (subs w)) eqn:E; [exact Hnd|].
  apply NoDup_app; [exact Hnd | constructor; [intros []|constructor] |].
  intros x Hin [<-|[]].
  assert (X : existsb (Db.triple_matches s e c) (subs w) = true).
  { apply existsb_exists. eexists. split; [exact Hin|].
    apply (triple_matches_self (mkSubscription s e c)). }
  congruence.
Qed.

Lemma keeps_unique_deleteMany s e w :
  keeps_unique w (set_subs (Db.subscription_deleteMany s e (subs w)) w).
Proof.
  split; simpl; [auto|]. intros Hnd. apply NoDup_filter, Hnd.
Qed.

Lemma keeps_unique_of_keeps {A} (m : JS A) :
  preserves (keeps sessions) m -> preserves (keeps subs) m ->
  preserves keeps_unique m.
Proof. intros H1 H2 w. apply keeps_unique_same; [apply H1 | apply H2]. Qed.

Ltac leaf_unique :=
  first
    [ apply preserves_log; exact I
    | apply preserves_res_write; intros; exact I
    | apply preserves_res_end; intros; exact I
    | apply preserves_db;
      [ intros; exact I
      | intros; simpl;
        first [ apply keeps_unique_updateMany; intros; reflexivity
              | apply keeps_unique_session_upsert
              | apply keeps_unique_sub_upsert
              | apply keeps_unique_deleteMany
              | apply keeps_unique_same; reflexivity ] ]
    | apply preserves_modify_clients; intros;
      apply keeps_unique_same; reflexivity ].

Section StoreUniqueness.
Variable env : Env.

Lemma updateSession_unique c : preserves keeps_unique (updateSession env c).
Proof. unfold updateSession. walk_preserves; leaf_unique. Qed.

Lemma updateSessionPing_unique k : preserves keeps_unique (updateSessionPing env k).
Proof. unfold updateSessionPing. walk_preserves; leaf_unique. Qed.

Lemma markSessionOffline_unique k :
  preserves keeps_unique (markSessionOffline env k).
Proof. unfold markSessionOffline. walk_preserves; leaf_unique. Qed.

Lemma markSessionOfflineBySessionToken_unique t :
  preserves keeps_unique (markSessionOfflineBySessionToken env t).
Proof. unfold markSessionOfflineBySessionToken. walk_preserves; leaf_unique. Qed.

Lemma removeClient_unique k : preserves keeps_unique (removeClient env k).
Proof.
  unfold removeClient. walk_preserves;
    first [ apply markSessionOffline_unique
          | apply markSessionOfflineBySessionToken_unique
          | leaf_unique ].
Qed.

Lemma addClient_unique c : preserves keeps_unique (addClient env c).
Proof.
  unfold addClient. walk_preserves;
    first [ apply removeClient_unique | apply updateSession_unique
          | leaf_unique ].
Qed.

Lemma send_op_unique target ev : preserves keeps_unique (send_op env target ev).
Proof.
  apply keeps_unique_of_keeps; destruct target; simpl;
    auto using sendEventToClient_keeps_sessions, sendEventToUser_keeps_sessions,
      sendEventToSubscribers_keeps_sessions, broadcast_keeps_sessions,
      sendEventToClient_keeps_subs, sendEventToUser_keeps_subs,
      sendEventToSubscribers_keeps_subs, broadcast_keeps_subs.
Qed.

Lemma subscribeToEvent_unique t e c :
  preserves keeps_unique (subscribeToEvent env t e c).
Proof. unfold subscribeToEvent. walk_preserves; leaf_unique. Qed.

Lemma unsubscribeFromEvent_unique t e c :
  preserves keeps_unique (unsubscribeFromEvent env t e c).
Proof. unfold unsubscribeFromEvent. walk_preserves; leaf_unique. Qed.

Lemma unsubscribeFromAllEvents_unique t :
  preserves keeps_unique (unsubscribeFromAllEvents env t).
Proof. unfold unsubscribeFromAllEvents. walk_preserves; leaf_unique. Qed.

Lemma heartbeat_tick_unique : preserves keeps_unique (heartbeat_tick env).
Proof.
  unfold heartbeat_tick. walk_preserves; try cbv zeta; walk_preserves;
    first [ apply removeClient_unique | apply updateSessionPing_unique
          | leaf_unique ].
Qed.

Lemma session_cleanup_tick_unique schedule :
  preserves keeps_unique (session_cleanup_tick env schedule).
Proof.
  apply (session_cleanup_tick_preserves env (P := fun _ => True)).
  - intros w w' _ E M. split; [|rewrite E; auto].
    rewrite (sess_mono_ids _ _ M). auto.
  - intros j c t. unfold removeClient_pending.
    constructor; [|constructor; [|constructor]].
    + destruct (truthy (sessionToken c)).
      * unfold markSessionOfflineBySessionToken_issued.
        walk_preserves; leaf_unique.
      * unfold markSessionOffline_issued. walk_preserves; leaf_unique.
    + walk_preserves; leaf_unique.
Qed.

Lemma cleanup_unique : preserves keeps_unique (cleanup env).
Proof. unfold cleanup. walk_preserves; leaf_unique. Qed.

Lemma exec_unique op : preserves keeps_unique (exec env op).
Proof.
  destruct op; simpl;
    auto using addClient_unique, removeClient_unique, send_op_unique,
      subscribeToEvent_unique, unsubscribeFromEvent_unique,
      unsubscribeFromAllEvents_unique, heartbeat_tick_unique,
      session_cleanup_tick_unique, cleanup_unique.
Qed.

End StoreUniqueness.

(** X5: starting from empty tables, whatever operations run and whatever
    fails, the session table never holds two rows for one client id and
    the subscription table never holds the same
    (sessionToken, eventName, clientId) row twice. *)
Theorem reachable_store_unique :
  forall env w, reachable env w -> store_unique w.
Proof.
  intros env w Hr. induction Hr as [|w op Hr IH].
  - split; constructor.
  - destruct IH as [I1 I2]. destruct (exec_unique env op w) as [K1 K2].
    split; auto.
Qed.

Lemma reachable_store_unique_witness :
  store_unique
    (snd (exec Scenario.calm (OpSubscribe "tokA" "demo-event" None)
            (snd (exec Scenario.calm (OpAddClient Scenario.c1) initial_world)))).
Proof.
  apply (reachable_store_unique Scenario.calm).
  apply reach_step, reach_step, reach_init.
Defined.

(* ------------------------------------------------------------------ *)
(** ** Further properties: who receives an event                       *)
(* ------------------------------------------------------------------ *)

Lemma write_attempts_app a b :
  write_attempts (a ++ b) = (write_attempts a ++ write_attempts b)%list.
Proof.
  induction a as [|e a IH]; simpl; [reflexivity|].
  destruct e; simpl; rewrite IH; reflexivity.
Qed.

Lemma flat_map_single {A B} (f : A -> B) l :
  flat_map (fun x => [f x]) l = map f l.
Proof. induction l as [|x l IH]; simpl; [reflexivity | rewrite IH; reflexivity]. Qed.

Lemma flat_map_filter {A B} (p : A -> bool) (f : A -> B) l :
  flat_map (fun x => if p x then [f x] else []) l = map f (filter p l).
Proof.
  induction l as [|x l IH]; simpl; [reflexivity|].
  destruct (p x); simpl; rewrite IH; reflexivity.
Qed.

Section Emitting.
Variable env : Env.
Variable cs : list (string * SSEClient).

Lemma emits_ret : emits cs (ret tt) [].
Proof.
  intros w Hc. exists []. split; [|reflexivity].
  unfold ret. rewrite app_nil_r, <- Hc. destruct w; reflexivity.
Qed.

Lemma emits_send r ev : emits cs (send env r ev) [(r, frame ev)].
Proof.
  intros w Hc. destruct (send_present env r ev w) as [o [msg E]].
  exists [EvWrite r (frame ev) o; EvLog msg]. split; [|reflexivity].
  rewrite E. unfold add_event. simpl. rewrite <- app_assoc, Hc. reflexivity.
Qed.

Lemma emits_bind m k a b :
  emits cs m a -> emits cs k b -> emits cs (m ;; k) (a ++ b)%list.
Proof.
  intros Hm Hk w Hc. destruct (Hm w Hc) as [e1 [E1 W1]].
  unfold bind. rewrite E1.
  destruct (Hk (mkWorld cs (sessions w) (subs w) (trace w ++ e1)) eq_refl)
    as [e2 [E2 W2]].
  exists (e1 ++ e2)%list. rewrite E2. simpl.
  rewrite write_attempts_app, W1, W2, app_assoc. split; reflexivity.
Qed.

Lemma emits_for_each {X} (l : list X) body g :
  (forall x, In x l -> emits cs (body x) (g x)) ->
  emits cs (for_each l body) (flat_map g l).
Proof.
  induction l as [|x l IH]; intros H; simpl.
  - apply emits_ret.
  - apply emits_bind; [apply H; left; reflexivity|].
    apply IH. intros y Hy. apply H. right. exact Hy.
Qed.

Lemma emits_visit body k c ws :
  JsMap.get k cs = Some c -> emits cs (body k c) ws ->
  emits cs (visit body k) ws.
Proof.
  intros Hget Hb w Hc. rewrite (visit_present body k c w); [apply Hb, Hc|].
  rewrite Hc. exact Hget.
Qed.

Lemma emits_for_entries body g :
  NoDup (JsMap.keys cs) ->
  (forall k c, In (k, c) cs -> emits cs (body k c) (g k c)) ->
  emits cs (for_entries body) (flat_map (fun kc => g (fst kc) (snd kc)) cs).
Proof.
  intros Hnd Hb.
  assert (G : forall l, incl l cs ->
            emits cs (for_each (JsMap.keys l) (visit body))
                     (flat_map (fun kc => g (fst kc) (snd kc)) l)).
  { induction l as [|[k c] l IH]; intros Hi; simpl.
    - apply emits_ret.
    - apply emits_bind.
      + apply (emits_visit body k c); [|apply Hb]; [apply In_get; auto|];
          apply Hi; left; reflexivity.
      + apply IH. intros x Hx. apply Hi. right. exact Hx. }
  intros w Hc. unfold for_entries. rewrite Hc.
  apply (G cs (incl_refl cs) w Hc).
Qed.

Lemma emits_sendEventToClient k ev :
  emits cs (sendEventToClient env k ev)
        (match JsMap.get k cs with
         | Some c => [(res c, frame ev)]
         | None => []
         end).
Proof.
  intros w Hc. unfold sendEventToClient, bind, get_client. rewrite Hc.
  destruct (JsMap.get k cs) as [c|]; [apply emits_send | apply emits_ret];
    exact Hc.
Qed.

Lemma emits_broadcast ev :
  NoDup (JsMap.keys cs) ->
  emits cs (broadcast env ev) (map (fun kc => (res (snd kc), frame ev)) cs).
Proof.
  intros Hnd. unfold broadcast.
  rewrite <- (flat_map_single (fun kc : string * SSEClient =>
                                 (res (snd kc), frame ev)) cs).
  apply (emits_for_entries (fun _ client => send env (res client) ev)
           (fun _ c => [(res c, frame ev)]) Hnd).
  intros k c _. apply emits_send.
Qed.

Lemma emits_sendEventToUser tok ev :
  NoDup (JsMap.keys cs) ->
  emits cs (sendEventToUser env tok ev)
        (map (fun kc => (res (snd kc), frame ev))
             (filter (fun kc => has_token tok (snd kc)) cs)).
Proof.
  intros Hnd. unfold sendEventToUser.
  rewrite <- (flat_map_filter (fun kc : string * SSEClient =>
                                 has_token tok (snd kc))
                              (fun kc => (res (snd kc), frame ev)) cs).
  apply (emits_for_entries
           (fun _ client => if opt_eqb (sessionToken client) (Some tok)
                            then send env (res client) ev else ret tt)
           (fun _ c => if has_token tok c then [(res c, frame ev)] else [])
           Hnd).
  intros k c _. unfold has_token.
  destruct (opt_eqb (sessionToken c) (Some tok));
    [apply emits_send | apply emits_ret].
Qed.

End Emitting.

Lemma emits_run cs m ws w :
  emits cs m ws -> clients w = cs ->
  fst (m w) = Normal tt
  /\ clients (snd (m w)) = clients w
  /\ write_attempts (events_since w (snd (m w))) = ws.
Proof.
  intros H Hc. destruct (H w Hc) as [evs [E W]]. rewrite E. simpl.
  split; [reflexivity|]. split; [symmetry; exact Hc|].
  rewrite (events_since_app w _ evs); [exact W | reflexivity].
Qed.

(** X6: [broadcast] on a map with unique keys calls [write] exactly once
    per live client, in the order of the map, each time with the frame of
    the event; this holds whether or not the writes throw, and the call
    completes normally.  The frame is [event: <name>\ndata: <payload>\n\n]
    with the payload as [JSON.stringify] prints it; its numbers are safe
    integers. *)
Theorem broadcast_delivery :
  forall env ev w,
    NoDup (JsMap.keys (clients w)) ->
    fst (broadcast env ev w) = Normal tt
    /\ write_attempts (events_since w (snd (broadcast env ev w)))
       = map (fun kc => (res (snd kc), frame ev)) (clients w).
Proof.
  intros env ev w Hnd.
  destruct (emits_run _ _ _ w (emits_broadcast env (clients w) ev Hnd) eq_refl)
    as [H1 [_ H3]].
  split; assumption.
Qed.

Lemma broadcast_delivery_witness :
  write_attempts
    (events_since Scenario.idle_and_c1
       (snd (broadcast Scenario.broken_pipe Scenario.demo Scenario.idle_and_c1)))
  = [(Scenario.r3, frame Scenario.demo); (Scenario.r1, frame Scenario.demo)].
Proof.
  assert (Hnd : NoDup (JsMap.keys (clients Scenario.idle_and_c1))).
  { simpl. repeat constructor; simpl; intuition discriminate. }
  exact (proj2 (broadcast_delivery Scenario.broken_pipe Scenario.demo
                  Scenario.idle_and_c1 Hnd)).
Defined.

(** X7: [sendEventToUser] on a map with unique keys calls [write] exactly
    once for each live client whose session token is the given one, in map
    order, with the frame of the event, and for no other client.  The
    payload in the frame is as [JSON.stringify] prints it; its numbers are
    safe integers. *)
Theorem sendEventToUser_delivery :
  forall env tok ev w,
    NoDup (JsMap.keys (clients w)) ->
    fst (sendEventToUser env tok ev w) = Normal tt
    /\ write_attempts (events_since w (snd (sendEventToUser env tok ev w)))
       = map (fun kc => (res (snd kc), frame ev)) (live_for tok w).
Proof.
  intros env tok ev w Hnd.
  destruct (emits_run _ _ _ w
              (emits_sendEventToUser env (clients w) tok ev Hnd) eq_refl)
    as [H1 [_ H3]].
  split; assumption.
Qed.

Lemma sendEventToUser_delivery_witness :
  write_attempts
    (events_since Scenario.idle_and_c1
       (snd (sendEventToUser Scenario.calm "tokB" Scenario.demo
                             Scenario.idle_and_c1)))
  = [(Scenario.r3, frame Scenario.demo)].
Proof.
  assert (Hnd : NoDup (JsMap.keys (clients Scenario.idle_and_c1))).
  { simpl. repeat constructor; simpl; intuition discriminate. }
  exact (proj2 (sendEventToUser_delivery Scenario.calm "tokB" Scenario.demo
                  Scenario.idle_and_c1 Hnd)).
Defined.

Lemma emits_eq cs m ws ws' : emits cs m ws -> ws = ws' -> emits cs m ws'.
Proof. intros H <-. exact H. Qed.

Lemma emits_row env cs ev row :
  NoDup (JsMap.keys cs) ->
  emits cs
    (if truthy (sub_clientId row)
     then sendEventToClient env (or_else (sub_clientId row) EmptyString) ev
     else sendEventToUser env (sub_sessionToken row) ev)
    (map (fun c => (res c, frame ev)) (targets_of_row cs row)).
Proof.
  intros Hnd. unfold targets_of_row. destruct (truthy (sub_clientId row)).
  - eapply emits_eq; [apply emits_sendEventToClient|].
    destruct (JsMap.get _ cs); reflexivity.
  - eapply emits_eq; [apply emits_sendEventToUser, Hnd|].
    rewrite map_map. reflexivity.
Qed.

(** X8: the fan-out of [sendEventToSubscribers] when the read of the
    subscriptions succeeds, on a map with unique keys.  The rows for the
    event name are served in table order.  A row with a non-empty
    [clientId] yields one [write] to the client stored under that id, or
    nothing when no such client is live (its session token plays no part);
    a row without one yields one [write] to every live client of the
    row's session.  Nothing else is written, and a client addressed by two
    rows is written to twice.  What is written is the frame of the event,
    the payload as [JSON.stringify] prints it; its numbers are safe
    integers. *)
Theorem sendEventToSubscribers_fan_out :
  forall env e ev w,
    db_fails env (trace w) (SubscriptionFindMany e) = None ->
    NoDup (JsMap.keys (clients w)) ->
    fst (sendEventToSubscribers env e ev w) = Normal tt
    /\ write_attempts (events_since w (snd (sendEventToSubscribers env e ev w)))
       = flat_map
           (fun row => map (fun c => (res c, frame ev))
                           (targets_of_row (clients w) row))
           (Db.subscription_findMany e (subs w)).
Proof.
  intros env e ev w Hdb Hnd.
  unfold sendEventToSubscribers, bind. rewrite (db_ok env _ _ _ Hdb).
  simpl fst. simpl snd.
  set (w1 := add_event (EvDb (SubscriptionFindMany e) None) w).
  change (subs w1) with (subs w).
  pose proof (emits_for_each (clients w)
                (Db.subscription_findMany e (subs w))
                (fun subscription =>
                   if truthy (sub_clientId subscription)
                   then sendEventToClient env
                          (or_else (sub_clientId subscription) EmptyString) ev
                   else sendEventToUser env (sub_sessionToken subscription) ev)
                (fun row => map (fun c => (res c, frame ev))
                                (targets_of_row (clients w) row))
                (fun row _ => emits_row env (clients w) ev row Hnd)) as H.
  destruct (H w1 eq_refl) as [evs [E W]].
  rewrite E. simpl fst. simpl snd. split; [reflexivity|].
  rewrite (events_since_app w _ (EvDb (SubscriptionFindMany e) None :: evs)).
  - simpl. exact W.
  - simpl. rewrite <- app_assoc. reflexivity.
Qed.

Lemma sendEventToSubscribers_fan_out_witness :
  write_attempts
    (events_since Cases.fan_out
       (snd (sendEventToSubscribers Scenario.calm "demo-event" Scenario.demo
                                    Cases.fan_out)))
  = [(Scenario.r3, frame Scenario.demo); (Scenario.r1, frame Scenario.demo)].
Proof.
  assert (Hnd : NoDup (JsMap.keys (clients Cases.fan_out))).
  { simpl. repeat constructor; simpl; intuition discriminate. }
  exact (proj2 (sendEventToSubscribers_fan_out Scenario.calm "demo-event"
                  Scenario.demo Cases.fan_out eq_refl Hnd)).
Defined.

(* ------------------------------------------------------------------ *)
(** ** Further properties: heartbeat                                   *)
(* ------------------------------------------------------------------ *)

(** Loops whose body for the entry [k] leaves every other entry alone. *)
Section LocalLoop.
Variable body : string -> SSEClient -> JS unit.
Context {R : World -> World -> Prop} {P : Event -> Prop} {FP : Footprint R P}.
Variable w0 : World.
Variable Q : string -> SSEClient -> World -> Prop.

Hypothesis body_total : forall k c w,
  JsMap.get k (clients w) = Some c -> fst (body k c w) = Normal tt.
Hypothesis body_local : forall k c w k',
  JsMap.get k (clients w) = Some c -> k' <> k ->
  JsMap.get k' (clients (snd (body k c w))) = JsMap.get k' (clients w).
Hypothesis body_R : forall k c w,
  JsMap.get k (clients w) = Some c -> R w (snd (body k c w)).
Hypothesis body_Q : forall k c w,
  R w0 w -> JsMap.get k (clients w) = Some c -> Q k c (snd (body k c w)).
Hypothesis Q_stable : forall k c w w',
  Q k c w -> R w w' ->
  JsMap.get k (clients w') = JsMap.get k (clients w) -> Q k c w'.

Lemma local_loop_from ks : forall w,
  NoDup ks -> R w0 w ->
  (forall k, In k ks ->
     exists c, JsMap.get k (clients w0) = Some c
               /\ JsMap.get k (clients w) = Some c) ->
  fst (for_each ks (visit body) w) = Normal tt
  /\ R w (snd (for_each ks (visit body) w))
  /\ (forall k, ~ In k ks ->
        JsMap.get k (clients (snd (for_each ks (visit body) w)))
        = JsMap.get k (clients w))
  /\ (forall k c, In k ks -> JsMap.get k (clients w0) = Some c ->
        Q k c (snd (for_each ks (visit body) w))).
Proof.
  induction ks as [|k ks IH]; intros w Hnd HR0 Hk.
  - simpl. split; [reflexivity|]. split; [apply fp_refl|].
    split; [reflexivity | intros k c []].
  - destruct (Hk k (or_introl eq_refl)) as [c [G0 Gw]].
    rewrite for_each_cons, (visit_present body k c w Gw).
    pose proof (body_total k c w Gw) as T.
    pose proof (body_local k c w) as L.
    pose proof (body_R k c w Gw) as Rb.
    pose proof (body_Q k c w HR0 Gw) as Qb.
    destruct (body k c w) as [[[]|e] w1]; simpl in T, L, Rb, Qb; [|discriminate].
    inversion Hnd as [|? ? Hnk Hnd']; subst.
    destruct (IH w1 Hnd') as [I1 [I2 [I3 I4]]].
    { eapply fp_trans; eauto. }
    { intros k' Hin. destruct (Hk k' (or_intror Hin)) as [c' [G0' Gw']].
      exists c'. split; [exact G0'|]. rewrite (L k' Gw); [exact Gw'|].
      intros ->. contradiction. }
    split; [exact I1|]. split; [eapply fp_trans; eauto|]. split.
    + intros k' Hn. rewrite I3 by (intros H; apply Hn; right; exact H).
      apply (L k' Gw). intros ->. apply Hn. left. reflexivity.
    + intros k' c' [<-|Hin] G.
      * assert (c' = c) by congruence. subst c'.
        apply (Q_stable k c w1); [exact Qb | exact I2 | apply I3, Hnk].
      * apply I4; assumption.
Qed.

Lemma local_loop :
  NoDup (JsMap.keys (clients w0)) ->
  fst (for_entries body w0) = Normal tt
  /\ R w0 (snd (for_entries body w0))
  /\ (forall k, JsMap.get k (clients w0) = None ->
        JsMap.get k (clients (snd (for_entries body w0))) = None)
  /\ (forall k c, In (k, c) (clients w0) ->
        Q k c (snd (for_entries body w0))).
Proof.
  intros Hnd. unfold for_entries.
  destruct (local_loop_from (JsMap.keys (clients w0)) w0 Hnd (fp_refl w0))
    as [I1 [I2 [I3 I4]]].
  { intros k Hin. unfold JsMap.keys in Hin. apply in_map_iff in Hin.
    destruct Hin as [[k' c] [E Hin]]. simpl in E. subst k'.
    exists c. split; apply (In_get _ _ _ Hnd Hin). }
  split; [exact I1|]. split; [exact I2|]. split.
  - intros k Hk. rewrite I3; [exact Hk | apply get_None_notin, Hk].
  - intros k c Hin. apply I4.
    + change k with (fst (k, c)). apply in_map, Hin.
    + apply (In_get _ _ _ Hnd Hin).
Qed.

End LocalLoop.

Section Heartbeat.
Variable env : Env.

Lemma updateSessionPing_silent k :
  preserves (appends silent) (updateSessionPing env k).
Proof. unfold updateSessionPing. frame_method. Qed.

(** What [ping_client] does to a client that is in the map. *)
Lemma ping_client_run t k c w :
  JsMap.get k (clients w) = Some c ->
  exists w',
    ping_client env t k c w = (Normal tt, w')
    /\ match write_throws env (trace w) (res c) PING_FRAME with
       | None =>
           clients w' = JsMap.update k (set_lastPing t) (clients w)
           /\ exists evs,
                trace w' = (trace w ++ EvWrite (res c) PING_FRAME None :: evs)%list
                /\ Forall silent evs
       | Some err =>
           clients w' = JsMap.delete k (clients w)
           /\ exists o evs,
                trace w'
                = (trace w ++
                   EvWrite (res c) PING_FRAME (Some err)
                   :: EvLog ("[SSEManager] Error pinging client " ++ k ++ ": " ++ err)
                   :: EvEnd (res c) o :: evs)%list
                /\ Forall silent evs
       end.
Proof.
  intros Hget. unfold ping_client, try_catch. cbv zeta.
  assert (Ew : (if isStreamRes (res c)
                then res_write env (res c) PING_FRAME
                else res_write env (res c) PING_FRAME)
               = res_write env (res c) PING_FRAME)
    by (destruct (isStreamRes (res c)); reflexivity).
  rewrite Ew. unfold bind at 1, res_write.
  destruct (write_throws env (trace w) (res c) PING_FRAME) as [err|].
  - unfold bind at 1, log.
    set (w1 := add_event _ (add_event _ w)).
    assert (Hget1 : JsMap.get k (clients w1) = Some c) by exact Hget.
    destruct (removeClient_present env k c w1 Hget1)
      as [o [evs [w' [E [Hc [_ [Ht Hf]]]]]]].
    exists w'. split; [exact E|]. split; [exact Hc|].
    exists o, evs. split; [|exact Hf].
    rewrite Ht. unfold w1. simpl. rewrite <- !app_assoc. reflexivity.
  - unfold bind, modify_clients.
    set (w1 := set_clients _ (add_event _ w)).
    rewrite (run_total (updateSessionPing env k) w1 (updateSessionPing_total env k)).
    eexists. split; [reflexivity|]. split.
    + rewrite (updateSessionPing_keeps_clients env k). reflexivity.
    + destruct (updateSessionPing_silent k w1) as [evs [Ht Hf]].
      exists evs. split; [|exact Hf]. rewrite Ht. unfold w1. simpl.
      rewrite <- app_assoc. reflexivity.
Qed.

Lemma ping_client_total t k c w :
  JsMap.get k (clients w) = Some c -> fst (ping_client env t k c w) = Normal tt.
Proof.
  intros H. destruct (ping_client_run t k c w H) as [w' [E _]].
  rewrite E. reflexivity.
Qed.

Lemma ping_client_local t k c w k' :
  JsMap.get k (clients w) = Some c -> k' <> k ->
  JsMap.get k' (clients (snd (ping_client env t k c w)))
  = JsMap.get k' (clients w).
Proof.
  intros H Hne. destruct (ping_client_run t k c w H) as [w' [E M]].
  rewrite E. simpl.
  destruct (write_throws env (trace w) (res c) PING_FRAME);
    destruct M as [-> _];
    [apply get_delete_other | apply get_update_other]; exact Hne.
Qed.

Lemma ping_client_grows t k c w :
  JsMap.get k (clients w) = Some c ->
  appends (fun _ => True) w (snd (ping_client env t k c w)).
Proof.
  intros H. destruct (ping_client_run t k c w H) as [w' [E M]].
  rewrite E. simpl.
  destruct (write_throws env (trace w) (res c) PING_FRAME).
  - destruct M as [_ [o [evs [Ht _]]]]. eexists. split; [exact Ht|].
    apply Forall_forall. auto.
  - destruct M as [_ [evs [Ht _]]]. eexists. split; [exact Ht|].
    apply Forall_forall. auto.
Qed.

Lemma ping_client_pinged t w0 k c w :
  appends (fun _ => True) w0 w ->
  JsMap.get k (clients w) = Some c ->
  pinged env t w0 k c (snd (ping_client env t k c w)).
Proof.
  intros [before [Hb _]] H.
  destruct (ping_client_run t k c w H) as [w' [E M]].
  rewrite E. simpl. rewrite Hb in M.
  destruct (write_throws env (trace w0 ++ before) (res c) PING_FRAME) as [err|] eqn:W.
  - destruct M as [Hc [o [evs [Ht _]]]].
    exists before. eexists. split; [rewrite Ht, <- app_assoc; reflexivity|].
    right. exists err. split; [rewrite Hc; apply get_delete_same|].
    split; [exact W|]. split; [left; reflexivity|].
    exists o. right. right. left. reflexivity.
  - destruct M as [Hc [evs [Ht _]]].
    exists before. eexists. split; [rewrite Ht, <- app_assoc; reflexivity|].
    left. split; [rewrite Hc, get_update_same, H; reflexivity|].
    split; [exact W | left; reflexivity].
Qed.

Lemma pinged_stable t w0 k c w w' :
  pinged env t w0 k c w -> appends (fun _ => True) w w' ->
  JsMap.get k (clients w') = JsMap.get k (clients w) ->
  pinged env t w0 k c w'.
Proof.
  intros [before [after [Ht H]]] [more [Hm _]] G.
  exists before, (after ++ more)%list.
  split; [rewrite Hm, Ht, <- !app_assoc; reflexivity|].
  rewrite G. destruct H as [[A [B C]]|[err [A [B [C [o D]]]]]].
  - left. split; [exact A|]. split; [exact B|]. apply in_or_app. auto.
  - right. exists err. split; [exact A|]. split; [exact B|].
    split; [apply in_or_app; auto|]. exists o. apply in_or_app. auto.
Qed.

Lemma heartbeat_tick_unfold w :
  heartbeat_tick env w
  = for_entries (ping_client env (Date_now env (trace w))) w.
Proof. reflexivity. Qed.

End Heartbeat.

(** X9: one heartbeat tick on a map with unique keys, in any environment.
    The tick reads the clock once ([t]) and completes normally.  For every
    client of the map one of two things happened: the ping frame was
    written to its response and the client is still there with
    [lastPing = t]; or that write threw and the client is gone, with
    [end()] called on its response.  In particular a client whose writes
    never throw is kept, and one whose writes always throw is evicted.  No
    entry appears. *)
Theorem heartbeat_tick_outcome :
  forall env w,
    NoDup (JsMap.keys (clients w)) ->
    let t := Date_now env (trace w) in
    let w' := snd (heartbeat_tick env w) in
    fst (heartbeat_tick env w) = Normal tt
    /\ (forall k c, In (k, c) (clients w) -> pinged env t w k c w')
    /\ (forall k c, In (k, c) (clients w) ->
          (forall tr, write_throws env tr (res c) PING_FRAME = None) ->
          JsMap.get k (clients w') = Some (set_lastPing t c))
    /\ (forall k c, In (k, c) (clients w) ->
          (forall tr, write_throws env tr (res c) PING_FRAME <> None) ->
          JsMap.get k (clients w') = None
          /\ end_called (res c) (events_since w w'))
    /\ (forall k, JsMap.get k (clients w) = None ->
          JsMap.get k (clients w') = None).
Proof.
  intros env w Hnd t w'. unfold w'. rewrite heartbeat_tick_unfold. fold t.
  destruct (local_loop (ping_client env t) (R := appends (fun _ => True))
              w (pinged env t w)) as [L1 [L2 [L3 L4]]]; auto.
  - apply ping_client_total.
  - apply ping_client_local.
  - apply ping_client_grows.
  - apply ping_client_pinged.
  - apply pinged_stable.
  - split; [exact L1|]. split; [exact L4|]. split; [|split; [|exact L3]].
    + intros k c Hin Hok.
      destruct (L4 k c Hin) as [b [a [_ [[A _]|[err [_ [B _]]]]]]]; [exact A|].
      rewrite Hok in B. discriminate.
    + intros k c Hin Hbad.
      destruct (L4 k c Hin) as [b [a [Ht [[_ [B _]]|[err [A [_ [_ [o D]]]]]]]]].
      * exfalso. apply (Hbad _ B).
      * split; [exact A|]. exists o.
        rewrite (events_since_app w _ (b ++ a)%list Ht).
        apply in_or_app. auto.
Qed.

Lemma heartbeat_tick_outcome_witness :
  JsMap.get "c0"
    (clients (snd (heartbeat_tick Cases.r1_broken Scenario.idle_and_c1)))
  = Some (set_lastPing 100000 Scenario.idle)
  /\ JsMap.get "c1"
       (clients (snd (heartbeat_tick Cases.r1_broken Scenario.idle_and_c1)))
     = None.
Proof.
  assert (Hnd : NoDup (JsMap.keys (clients Scenario.idle_and_c1))).
  { simpl. repeat constructor; simpl; intuition discriminate. }
  pose proof (heartbeat_tick_outcome Cases.r1_broken Scenario.idle_and_c1 Hnd)
    as H.
  cbv zeta in H. destruct H as [_ [_ [H3 [H4 _]]]].
  split.
  - apply (H3 "c0" Scenario.idle); [left; reflexivity | reflexivity].
  - apply (H4 "c1" Scenario.c1); [right; left; reflexivity|].
    intros tr. discriminate.
Defined.

(* ------------------------------------------------------------------ *)
(** ** The wire format                                                 *)
(* ------------------------------------------------------------------ *)

(** The write attempts of [sendEventToSubscribers] when its read of the
    subscriptions succeeds. *)
Lemma fan_out_attempts env e ev w :
  db_fails env (trace w) (SubscriptionFindMany e) = None ->
  NoDup (JsMap.keys (clients w)) ->
  write_attempts (events_since w (snd (sendEventToSubscribers env e ev w)))
  = flat_map
      (fun row => map (fun c => (res c, frame ev))
                      (targets_of_row (clients w) row))
      (Db.subscription_findMany e (subs w)).
Proof.
  intros Hdb Hnd.
  unfold sendEventToSubscribers, bind. rewrite (db_ok env _ _ _ Hdb).
  simpl fst. simpl snd.
  set (w1 := add_event (EvDb (SubscriptionFindMany e) None) w).
  change (subs w1) with (subs w).
  destruct (emits_for_each (clients w)
              (Db.subscription_findMany e (subs w))
              (fun subscription =>
                 if truthy (sub_clientId subscription)
                 then sendEventToClient env
                        (or_else (sub_clientId subscription) EmptyString) ev
                 else sendEventToUser env (sub_sessionToken subscription) ev)
              (fun row => map (fun c => (res c, frame ev))
                              (targets_of_row (clients w) row))
              (fun row _ => emits_row env (clients w) ev row Hnd) w1 eq_refl)
    as [evs [E W]].
  rewrite E. simpl snd.
  rewrite (events_since_app w _ (EvDb (SubscriptionFindMany e) None :: evs)).
  - simpl. exact W.
  - simpl. rewrite <- app_assoc. reflexivity.
Qed.

Lemma write_attempts_silent evs : Forall silent evs -> write_attempts evs = [].
Proof.
  induction 1 as [|e evs He _ IH]; [reflexivity|].
  destruct e; simpl in *; [contradiction | contradiction | exact IH | exact IH].
Qed.

(** The one write attempt of the heartbeat on a client. *)
Lemma ping_client_attempts env t k c w :
  JsMap.get k (clients w) = Some c ->
  exists evs,
    trace (snd (ping_client env t k c w)) = (trace w ++ evs)%list
    /\ write_attempts evs = [(res c, PING_FRAME)].
Proof.
  intros H. destruct (ping_client_run env t k c w H) as [w' [E M]].
  rewrite E. simpl snd.
  destruct (write_throws env (trace w) (res c) PING_FRAME) as [err|].
  - destruct M as [_ [o [evs [Ht Hs]]]]. eexists. split; [exact Ht|].
    simpl. rewrite (write_attempts_silent _ Hs). reflexivity.
  - destruct M as [_ [evs [Ht Hs]]]. eexists. split; [exact Ht|].
    simpl. rewrite (write_attempts_silent _ Hs). reflexivity.
Qed.

(** The heartbeat over the entries [l], each of them in the map as it was
    when the loop began: one write attempt per entry, in order. *)
Lemma heartbeat_attempts_from env t l : forall w,
  NoDup (JsMap.keys l) ->
  (forall k c, In (k, c) l -> JsMap.get k (clients w) = Some c) ->
  exists evs,
    trace (snd (for_each (JsMap.keys l) (visit (ping_client env t)) w))
    = (trace w ++ evs)%list
    /\ write_attempts evs = map (fun kc => (res (snd kc), PING_FRAME)) l.
Proof.
  induction l as [|[k c] l IH]; intros w Hnd Hget.
  - exists []. simpl. rewrite app_nil_r. auto.
  - simpl JsMap.keys. simpl in Hnd. inversion Hnd as [|? ? Hk Hnd']; subst.
    pose proof (Hget k c (or_introl eq_refl)) as G.
    rewrite for_each_cons, (visit_present _ k c w G).
    pose proof (ping_client_total env t k c w G) as T.
    pose proof (ping_client_local env t k c w) as L.
    destruct (ping_client_attempts env t k c w G) as [e1 [E1 W1]].
    destruct (ping_client env t k c w) as [[[]|e] w1]; simpl in T, L, E1;
      [|discriminate].
    destruct (IH w1 Hnd') as [e2 [E2 W2]].
    { intros k' c' Hin. rewrite (L k' G).
      - apply Hget. right. exact Hin.
      - intros ->. apply Hk. apply in_map_iff. exists (k, c'). auto. }
    exists (e1 ++ e2)%list. split.
    + rewrite E2, E1, app_assoc. reflexivity.
    + rewrite write_attempts_app, W1, W2. reflexivity.
Qed.

(** The heartbeat attempts exactly one write on every client of the map,
    in the order of the map: that of the ping frame. *)
Lemma heartbeat_tick_attempts env w :
  NoDup (JsMap.keys (clients w)) ->
  write_attempts (events_since w (snd (heartbeat_tick env w)))
  = map (fun kc => (res (snd kc), PING_FRAME)) (clients w).
Proof.
  intros Hnd. rewrite heartbeat_tick_unfold. unfold for_entries.
  destruct (heartbeat_attempts_from env (Date_now env (trace w)) (clients w) w Hnd)
    as [evs [E W]].
  - intros k c Hin. apply In_get; assumption.
  - rewrite (events_since_app w _ evs E). exact W.
Qed.

(** C9: the bytes on the wire.  [wire ev] is the text
    [event: <name>\ndata: <JSON payload>\n\n] of an envelope.
    - Whatever a send operation writes to a connection is [wire ev].
    - The write is made: [sendEventToClient] attempts exactly one write,
      of [wire ev], to a client that is present; [sendEventToUser] one to
      each live client of the session, [broadcast] one to each live
      client, and [sendEventToSubscribers], when its read of the
      subscriptions succeeds, one per client each row addresses; none of
      them attempts any other write.
    - Every write of a heartbeat tick is the text
      [event: ping\ndata: {}\n\n], the frame of the [ping] event with
      payload [{}], and the tick attempts that write exactly once on every
      client of the map, in the order of the map. *)
Theorem C9_wire_format :
  let wire := fun ev : SSEEvent =>
    "event: " ++ event ev ++ Text.LF
    ++ "data: " ++ JSON_stringify (data ev) ++ Text.LF ++ Text.LF in
  (forall env target ev w r chunk o,
      In (EvWrite r chunk o) (events_since w (snd (send_op env target ev w))) ->
      chunk = wire ev)
  /\ (forall env clientId ev w client,
      JsMap.get clientId (clients w) = Some client ->
      write_attempts
        (events_since w (snd (send_op env (ToClient clientId) ev w)))
      = [(res client, wire ev)])
  /\ (forall env tok ev w,
      NoDup (JsMap.keys (clients w)) ->
      write_attempts (events_since w (snd (send_op env (ToUser tok) ev w)))
      = map (fun kc => (res (snd kc), wire ev)) (live_for tok w))
  /\ (forall env ev w,
      NoDup (JsMap.keys (clients w)) ->
      write_attempts (events_since w (snd (send_op env ToAll ev w)))
      = map (fun kc => (res (snd kc), wire ev)) (clients w))
  /\ (forall env eventName ev w,
      db_fails env (trace w) (SubscriptionFindMany eventName) = None ->
      NoDup (JsMap.keys (clients w)) ->
      write_attempts
        (events_since w (snd (send_op env (ToSubscribers eventName) ev w)))
      = flat_map
          (fun row => map (fun c => (res c, wire ev))
                          (targets_of_row (clients w) row))
          (Db.subscription_findMany eventName (subs w)))
  /\ (forall env w r chunk o,
      In (EvWrite r chunk o) (events_since w (snd (heartbeat_tick env w))) ->
      chunk = "event: ping" ++ Text.LF ++ "data: {}" ++ Text.LF ++ Text.LF
      /\ chunk = wire (mkEvent "ping" (JObject [])))
  /\ (forall env w,
      NoDup (JsMap.keys (clients w)) ->
      write_attempts (events_since w (snd (heartbeat_tick env w)))
      = map (fun kc =>
               (res (snd kc),
                "event: ping" ++ Text.LF ++ "data: {}" ++ Text.LF ++ Text.LF))
            (clients w)).
Proof.
  intros wire.
  assert (Hwire : forall ev, wire ev = frame ev) by reflexivity.
  split; [|split; [|split; [|split; [|split; [|split]]]]].
  - intros env target ev w r chunk o Hin.
    destruct (appends_writes _ _ _ (send_op_appends env target ev w))
      as [evs [Ht Hc]].
    rewrite (events_since_app _ _ _ Ht) in Hin. exact (Hc _ _ _ Hin).
  - intros env clientId ev w client Hget. simpl send_op.
    destruct (emits_run _ _ _ w
                (emits_sendEventToClient env (clients w) clientId ev) eq_refl)
      as [_ [_ H]].
    rewrite H, Hget. reflexivity.
  - intros env tok ev w Hnd. simpl send_op.
    destruct (emits_run _ _ _ w
                (emits_sendEventToUser env (clients w) tok ev Hnd) eq_refl)
      as [_ [_ H]].
    exact H.
  - intros env ev w Hnd. simpl send_op.
    destruct (emits_run _ _ _ w (emits_broadcast env (clients w) ev Hnd) eq_refl)
      as [_ [_ H]].
    exact H.
  - intros env eventName ev w Hdb Hnd. simpl send_op.
    exact (fan_out_attempts env eventName ev w Hdb Hnd).
  - intros env w r chunk o Hin.
    destruct (appends_writes _ _ _ (heartbeat_tick_pings env w))
      as [evs [Ht Hc]].
    rewrite (events_since_app _ _ _ Ht) in Hin.
    rewrite (Hc _ _ _ Hin). split; reflexivity.
  - intros env w Hnd. exact (heartbeat_tick_attempts env w Hnd).
Qed.

Lemma C9_witness :
  write_attempts
    (events_since Cases.fan_out
       (snd (send_op Scenario.calm (ToSubscribers "demo-event") Scenario.demo
                     Cases.fan_out)))
  = [(Scenario.r3, Scenario.demo_frame); (Scenario.r1, Scenario.demo_frame)]
  /\ write_attempts
       (events_since Scenario.idle_and_c1
          (snd (heartbeat_tick Cases.r1_broken Scenario.idle_and_c1)))
     = [(Scenario.r3, PING_FRAME); (Scenario.r1, PING_FRAME)].
Proof.
  assert (Hnd : NoDup (JsMap.keys (clients Cases.fan_out))).
  { simpl. repeat constructor; simpl; intuition discriminate. }
  assert (Hnd' : NoDup (JsMap.keys (clients Scenario.idle_and_c1))).
  { simpl. repeat constructor; simpl; intuition discriminate. }
  pose proof C9_wire_format as H. cbv zeta in H.
  destruct H as [_ [_ [_ [_ [H5 [_ H7]]]]]].
  split.
  - exact (H5 Scenario.calm "demo-event" Scenario.demo Cases.fan_out eq_refl Hnd).
  - exact (H7 Cases.r1_broken Scenario.idle_and_c1 Hnd').
Defined.

(* ------------------------------------------------------------------ *)
(** ** Further properties: shutdown                                    *)
(* ------------------------------------------------------------------ *)

Section Shutdown.
Variable env : Env.

Lemma end_client_run k c w :
  exists o evs,
    end_client env k c w
    = (Normal tt,
       mkWorld (clients w) (sessions w) (subs w)
               (trace w ++ EvEnd (res c) o :: evs))
    /\ Forall offline_only evs.
Proof.
  unfold end_client, try_catch, res_end, log, add_event.
  destruct (isStreamRes (res c)); destruct (end_throws env (trace w) (res c)) as [e|];
    simpl.
  1,3: exists (Some e),
         [EvLog ("[SSEManager] Error ending response for client "
                 ++ id c ++ ": " ++ e)];
       rewrite <- app_assoc; simpl; split; [reflexivity|];
       repeat constructor.
  all: exists None, []; split; [reflexivity | constructor].
Qed.

Lemma cleanup_unfold w :
  cleanup env w
  = (for_entries (end_client env) ;;
     modify_clients (fun _ => []) ;;
     log "SSEManager cleaned up all clients and intervals.") w.
Proof. reflexivity. Qed.

Lemma end_loop w :
  NoDup (JsMap.keys (clients w)) ->
  fst (for_entries (end_client env) w) = Normal tt
  /\ appends offline_only w (snd (for_entries (end_client env) w))
  /\ (forall k c, In (k, c) (clients w) ->
        exists evs,
          trace (snd (for_entries (end_client env) w)) = (trace w ++ evs)%list
          /\ end_called (res c) evs).
Proof.
  intros Hnd.
  destruct (local_loop (end_client env) (R := appends offline_only) w
              (fun _ c w' => exists evs, trace w' = (trace w ++ evs)%list
                                         /\ end_called (res c) evs))
    as [L1 [L2 [_ L4]]]; auto.
  - intros k c w0 _. destruct (end_client_run k c w0) as [o [evs [E _]]].
    rewrite E. reflexivity.
  - intros k c w0 k' _ _. destruct (end_client_run k c w0) as [o [evs [E _]]].
    rewrite E. reflexivity.
  - intros k c w0 _. destruct (end_client_run k c w0) as [o [evs [E F]]].
    rewrite E. exists (EvEnd (res c) o :: evs). split; [reflexivity|].
    constructor; [exact I | exact F].
  - intros k c w0 [before [Hb _]] _.
    destruct (end_client_run k c w0) as [o [evs [E _]]]. rewrite E. simpl.
    exists (before ++ EvEnd (res c) o :: evs)%list.
    split; [rewrite Hb, <- app_assoc; reflexivity|].
    exists o. apply in_or_app. right. left. reflexivity.
  - intros k c w1 w2 [evs [Ht [o Ho]]] [more [Hm _]] _.
    exists (evs ++ more)%list. split; [rewrite Hm, Ht, <- app_assoc; reflexivity|].
    exists o. apply in_or_app. auto.
Qed.

End Shutdown.

(** X10: [cleanup] on a map with unique keys, in any environment: it
    completes normally even when [end()] throws; [end()] is called on the
    response of every client; the map is empty afterwards.  It makes no
    database call and no write: the session rows and subscriptions are
    left exactly as they were (rows of the closed clients stay as they
    are, [online] included). *)
Theorem cleanup_effect :
  forall env w,
    NoDup (JsMap.keys (clients w)) ->
    let w' := snd (cleanup env w) in
    fst (cleanup env w) = Normal tt
    /\ clients w' = []
    /\ sessions w' = sessions w
    /\ subs w' = subs w
    /\ Forall offline_only (events_since w w')
    /\ (forall k c, In (k, c) (clients w) ->
          end_called (res c) (events_since w w')).
Proof.
  intros env w Hnd w'. unfold w'.
  destruct (end_loop env w Hnd) as [L1 [[evs [Ht Hf]] L3]].
  assert (Ks : sessions (snd (for_entries (end_client env) w)) = sessions w).
  { apply (preserves_for_entries (R := keeps sessions)). intros k c w0.
    destruct (end_client_run env k c w0) as [o [e [E _]]]. rewrite E.
    reflexivity. }
  assert (Kb : subs (snd (for_entries (end_client env) w)) = subs w).
  { apply (preserves_for_entries (R := keeps subs)). intros k c w0.
    destruct (end_client_run env k c w0) as [o [e [E _]]]. rewrite E.
    reflexivity. }
  destruct (for_entries (end_client env) w) as [[[]|e] w1] eqn:Eloop;
    simpl in L1, Ht, L3, Ks, Kb; [|discriminate].
  assert (E : cleanup env w
              = (Normal tt,
                 add_event
                   (EvLog "[SSEManager] SSEManager cleaned up all clients and intervals.")
                   (set_clients [] w1))).
  { rewrite cleanup_unfold. unfold bind. rewrite Eloop. reflexivity. }
  rewrite E. simpl fst. simpl snd.
  split; [reflexivity|]. split; [reflexivity|].
  split; [exact Ks|]. split; [exact Kb|].
  assert (Hs : events_since w
                 (add_event
                    (EvLog "[SSEManager] SSEManager cleaned up all clients and intervals.")
                    (set_clients [] w1))
               = (evs ++ [EvLog "[SSEManager] SSEManager cleaned up all clients and intervals."])%list).
  { apply events_since_app. simpl. rewrite Ht, <- app_assoc. reflexivity. }
  rewrite Hs. split.
  - apply Forall_app. split; [exact Hf | repeat constructor].
  - intros k c Hin. destruct (L3 k c Hin) as [evs' [Ht' [o Ho]]].
    assert (evs' = evs) by (rewrite Ht in Ht'; apply app_inv_head in Ht'; auto).
    subst evs'. exists o. apply in_or_app. auto.
Qed.

Lemma cleanup_effect_witness :
  clients (snd (cleanup Cases.all_broken Scenario.idle_and_c1)) = []
  /\ map s_status (sessions (snd (cleanup Cases.all_broken Scenario.idle_and_c1)))
     = [online; online]
  /\ end_called Scenario.r1
       (events_since Scenario.idle_and_c1
          (snd (cleanup Cases.all_broken Scenario.idle_and_c1))).
Proof.
  assert (Hnd : NoDup (JsMap.keys (clients Scenario.idle_and_c1))).
  { simpl. repeat constructor; simpl; intuition discriminate. }
  pose proof (cleanup_effect Cases.all_broken Scenario.idle_and_c1 Hnd) as H.
  cbv zeta in H. destruct H as [_ [H2 [H3 [_ [_ H6]]]]].
  split; [exact H2|]. split; [rewrite H3; reflexivity|].
  apply (H6 "c1" Scenario.c1). right. left. reflexivity.
Defined.

(* ------------------------------------------------------------------ *)
(** ** Further properties: subscriptions and their caches              *)
(* ------------------------------------------------------------------ *)

Section SubscriptionRuns.
Variable env : Env.

Lemma subscribeToEvent_run tok e cid w :
  db_fails env (trace w) (SubscriptionUpsert tok e tok) = None ->
  NoDup (JsMap.keys (clients w)) ->
  subscribeToEvent env tok e cid w
  = (Normal tt,
     mkWorld (map (touch (has_token tok) (cache_add e)) (clients w))
             (sessions w)
             (Db.subscription_upsert tok e (Some tok) (subs w))
             (trace w ++
              [EvDb (SubscriptionUpsert tok e tok) None;
               EvLog ("[SSEManager] Session " ++ tok
                      ++ " subscribed to event: " ++ e)])).
Proof.
  intros Hdb Hnd. unfold subscribeToEvent.
  change (fun (k : string) (client : SSEClient) =>
            if opt_eqb (sessionToken client) (Some tok)
            then modify_clients (JsMap.update k (cache_add e))
            else ret tt)
    with (update_body (has_token tok) (cache_add e)).
  unfold try_catch, bind. rewrite (db_ok _ _ _ _ Hdb). simpl fst. simpl snd.
  rewrite update_loop by exact Hnd.
  unfold log, on_subs, add_event, set_clients, set_subs. simpl.
  rewrite <- app_assoc. reflexivity.
Qed.

Lemma unsubscribeFromEvent_run tok e cid w :
  db_fails env (trace w) (SubscriptionDeleteMany tok (Some e)) = None ->
  NoDup (JsMap.keys (clients w)) ->
  unsubscribeFromEvent env tok e cid w
  = (Normal tt,
     mkWorld (map (touch (has_token tok) (cache_remove e)) (clients w))
             (sessions w)
             (Db.subscription_deleteMany tok (Some e) (subs w))
             (trace w ++
              [EvDb (SubscriptionDeleteMany tok (Some e)) None;
               EvLog ("[SSEManager] Session " ++ tok
                      ++ " unsubscribed from event: " ++ e)])).
Proof.
  intros Hdb Hnd. unfold unsubscribeFromEvent.
  change (fun (k : string) (client : SSEClient) =>
            if opt_eqb (sessionToken client) (Some tok)
            then modify_clients (JsMap.update k (cache_remove e))
            else ret tt)
    with (update_body (has_token tok) (cache_remove e)).
  unfold try_catch, bind. rewrite (db_ok _ _ _ _ Hdb). simpl fst. simpl snd.
  rewrite update_loop by exact Hnd.
  unfold log, on_subs, add_event, set_clients, set_subs. simpl.
  rewrite <- app_assoc. reflexivity.
Qed.

End SubscriptionRuns.

Lemma keys_touch p f cs :
  JsMap.keys (map (touch p f) cs) = JsMap.keys cs.
Proof.
  unfold JsMap.keys. rewrite map_map. apply map_ext.
  intros [k c]. unfold touch. simpl. destruct (p c); reflexivity.
Qed.

Lemma get_touch p f cs k c :
  NoDup (JsMap.keys cs) -> In (k, c) cs ->
  JsMap.get k (map (touch p f) cs) = Some (if p c then f c else c).
Proof.
  intros Hnd Hin. apply In_get; [rewrite keys_touch; exact Hnd|].
  apply in_map_iff. exists (k, c). split; [|exact Hin].
  unfold touch. simpl. destruct (p c); reflexivity.
Qed.

Lemma includes_In x l : includes x l = true <-> In x l.
Proof.
  unfold includes. rewrite existsb_exists. split.
  - intros [y [Hin E]]. apply String.eqb_eq in E. subst. exact Hin.
  - intros H. exists x. split; [exact H | apply String.eqb_refl].
Qed.

Lemma cached_cache_add e c :
  cached (cache_add e c)
  = if includes e (cached c) then cached c else (cached c ++ [e])%list.
Proof. reflexivity. Qed.

Lemma cache_add_twice e c : cache_add e (cache_add e c) = cache_add e c.
Proof.
  unfold cache_add. simpl.
  destruct (includes e match subscriptions c with Some l => l | None => [] end)
    eqn:E; simpl.
  - rewrite E. reflexivity.
  - assert (X : includes e (match subscriptions c with Some l => l | None => [] end
                            ++ [e]) = true).
    { apply includes_In, in_or_app. right. left. reflexivity. }
    rewrite X. reflexivity.
Qed.

Lemma touch_cache_add_twice tok e kc :
  touch (has_token tok) (cache_add e) (touch (has_token tok) (cache_add e) kc)
  = touch (has_token tok) (cache_add e) kc.
Proof.
  destruct kc as [k c]. unfold touch. simpl.
  destruct (has_token tok c) eqn:H; simpl.
  - assert (X : has_token tok (cache_add e c) = true) by exact H.
    rewrite X, cache_add_twice. reflexivity.
  - rewrite H. reflexivity.
Qed.

(** X11: when its database call fails, each of [subscribeToEvent],
    [unsubscribeFromEvent] and [unsubscribeFromAllEvents] completes
    normally having changed nothing: no table, no client, no cache; the
    history gains the failed call and one log entry carrying the error. *)
Theorem subscription_store_failure_changes_nothing :
  forall env tok e cid w err,
    (db_fails env (trace w) (SubscriptionUpsert tok e tok) = Some err ->
     subscribeToEvent env tok e cid w
     = (Normal tt,
        add_event (EvLog ("[SSEManager] Error subscribing to event: " ++ err))
          (add_event (EvDb (SubscriptionUpsert tok e tok) (Some err)) w)))
    /\ (db_fails env (trace w) (SubscriptionDeleteMany tok (Some e)) = Some err ->
        unsubscribeFromEvent env tok e cid w
        = (Normal tt,
           add_event (EvLog ("[SSEManager] Error unsubscribing from event: " ++ err))
             (add_event (EvDb (SubscriptionDeleteMany tok (Some e)) (Some err)) w)))
    /\ (db_fails env (trace w) (SubscriptionDeleteMany tok None) = Some err ->
        unsubscribeFromAllEvents env tok w
        = (Normal tt,
           add_event (EvLog ("[SSEManager] Error unsubscribing from event: " ++ err))
             (add_event (EvDb (SubscriptionDeleteMany tok None) (Some err)) w))).
Proof.
  intros env tok e cid w err. split; [|split]; intros H.
  - unfold subscribeToEvent, try_catch, bind.
    rewrite (db_failed env _ _ _ _ H). reflexivity.
  - unfold unsubscribeFromEvent, try_catch, bind.
    rewrite (db_failed env _ _ _ _ H). reflexivity.
  - unfold unsubscribeFromAllEvents, try_catch, bind.
    rewrite (db_failed env _ _ _ _ H). reflexivity.
Qed.

Lemma subscription_store_failure_changes_nothing_witness :
  clients (snd (subscribeToEvent Scenario.db_down "tokA" "demo-event" None
                                 Scenario.only_c1))
  = [("c1", Scenario.c1)]
  /\ subs (snd (subscribeToEvent Scenario.db_down "tokA" "demo-event" None
                                 Scenario.only_c1))
     = [].
Proof.
  pose proof (proj1 (subscription_store_failure_changes_nothing
                       Scenario.db_down "tokA" "demo-event" None
                       Scenario.only_c1 "P1001") eq_refl) as H.
  rewrite H. split; reflexivity.
Defined.

(** X12: [subscribeToEvent] when its upsert succeeds, on a map with unique
    keys.  Every live client of the session ends up with the event name in
    its cache, added at the end unless it was there already (so a cache
    without repetitions stays so) and with nothing else changed; every
    other client is exactly as before; and a second identical call leaves
    the map as the first left it. *)
Theorem subscribeToEvent_caches :
  forall env tok e cid w,
    (forall tr, db_fails env tr (SubscriptionUpsert tok e tok) = None) ->
    NoDup (JsMap.keys (clients w)) ->
    let w1 := snd (subscribeToEvent env tok e cid w) in
    (forall k c, In (k, c) (clients w) -> sessionToken c = Some tok ->
       JsMap.get k (clients w1) = Some (cache_add e c)
       /\ In e (cached (cache_add e c))
       /\ cached (cache_add e c)
          = (if includes e (cached c) then cached c else cached c ++ [e])%list
       /\ (NoDup (cached c) -> NoDup (cached (cache_add e c))))
    /\ (forall k c, In (k, c) (clients w) -> sessionToken c <> Some tok ->
          JsMap.get k (clients w1) = Some c)
    /\ JsMap.keys (clients w1) = JsMap.keys (clients w)
    /\ clients (snd (subscribeToEvent env tok e cid w1)) = clients w1.
Proof.
  intros env tok e cid w Hdb Hnd w1. unfold w1.
  rewrite (subscribeToEvent_run env tok e cid w (Hdb _) Hnd). simpl snd.
  simpl clients.
  split; [|split; [|split]].
  - intros k c Hin Htok. apply has_token_true in Htok.
    rewrite (get_touch _ _ _ k c Hnd Hin), Htok.
    split; [reflexivity|]. rewrite cached_cache_add.
    split; [|split; [reflexivity|]].
    + destruct (includes e (cached c)) eqn:E.
      * apply includes_In, E.
      * apply in_or_app. right. left. reflexivity.
    + intros Hc. destruct (includes e (cached c)) eqn:E; [exact Hc|].
      apply NoDup_app; [exact Hc | constructor; [intros []|constructor] |].
      intros x Hx [<-|[]]. apply includes_In in Hx. congruence.
  - intros k c Hin Htok.
    rewrite (get_touch _ _ _ k c Hnd Hin).
    destruct (has_token tok c) eqn:E; [|reflexivity].
    apply has_token_true in E. contradiction.
  - apply keys_touch.
  - rewrite subscribeToEvent_run; [| apply Hdb | simpl; rewrite keys_touch; exact Hnd].
    simpl. rewrite map_map. apply map_ext. apply touch_cache_add_twice.
Qed.

Lemma subscribeToEvent_caches_witness :
  JsMap.get "c1"
    (clients (snd (subscribeToEvent Scenario.calm "tokA" "demo-event" None
                                    Scenario.idle_and_c1)))
  = Some (cache_add "demo-event" Scenario.c1)
  /\ JsMap.get "c0"
       (clients (snd (subscribeToEvent Scenario.calm "tokA" "demo-event" None
                                       Scenario.idle_and_c1)))
     = Some Scenario.idle.
Proof.
  assert (Hnd : NoDup (JsMap.keys (clients Scenario.idle_and_c1))).
  { simpl. repeat constructor; simpl; intuition discriminate. }
  pose proof (subscribeToEvent_caches Scenario.calm "tokA" "demo-event" None
                Scenario.idle_and_c1 (fun _ => eq_refl) Hnd) as H.
  cbv zeta in H. destruct H as [H1 [H2 _]].
  split.
  - apply (H1 "c1" Scenario.c1); [right; left; reflexivity | reflexivity].
  - apply (H2 "c0" Scenario.idle); [left; reflexivity | discriminate].
Defined.

Lemma In_deleteMany_event tok e rows r :
  In r (Db.subscription_deleteMany tok (Some e) rows)
  <-> In r rows /\ ~ (sub_sessionToken r = tok /\ sub_eventName r = e).
Proof.
  unfold Db.subscription_deleteMany, Db.subscription_where.
  rewrite filter_In, negb_true_iff, andb_false_iff.
  destruct (String.eqb_spec (sub_sessionToken r) tok);
    destruct (String.eqb_spec (sub_eventName r) e); split;
    intros [H1 H2]; split; auto; try tauto;
    destruct H2; try discriminate; tauto.
Qed.

Lemma cached_cache_remove e c :
  cached (cache_remove e c)
  = filter (fun sub => negb (String.eqb sub e)) (cached c).
Proof.
  unfold cache_remove, cached. destruct (subscriptions c) eqn:E; simpl;
    [reflexivity | rewrite E; reflexivity].
Qed.

Lemma filter_out_absent e l :
  In e (filter (fun sub => negb (String.eqb sub e)) l) -> False.
Proof.
  intros H. apply filter_In in H. destruct H as [_ H].
  rewrite String.eqb_refl in H. discriminate.
Qed.

Lemma filter_out_app_self e l :
  filter (fun sub => negb (String.eqb sub e)) (l ++ [e])
  = filter (fun sub => negb (String.eqb sub e)) l.
Proof.
  rewrite filter_app. simpl. rewrite String.eqb_refl. simpl.
  apply app_nil_r.
Qed.

(** X13: [unsubscribeFromEvent] when its delete succeeds, on a map with
    unique keys.  It completes normally.  Exactly the rows of the session
    for that event are deleted, whatever their [clientId]: the [clientId]
    argument makes no difference.  Every live client of the session has
    all occurrences of the event name removed from its cache and nothing
    else changed; every other client is exactly as before. *)
Theorem unsubscribeFromEvent_effect :
  forall env tok e cid w,
    db_fails env (trace w) (SubscriptionDeleteMany tok (Some e)) = None ->
    NoDup (JsMap.keys (clients w)) ->
    let w' := snd (unsubscribeFromEvent env tok e cid w) in
    fst (unsubscribeFromEvent env tok e cid w) = Normal tt
    /\ (forall r, In r (subs w')
                  <-> In r (subs w)
                      /\ ~ (sub_sessionToken r = tok /\ sub_eventName r = e))
    /\ (forall k c, In (k, c) (clients w) -> sessionToken c = Some tok ->
          JsMap.get k (clients w') = Some (cache_remove e c)
          /\ cached (cache_remove e c)
             = filter (fun sub => negb (String.eqb sub e)) (cached c)
          /\ ~ In e (cached (cache_remove e c)))
    /\ (forall k c, In (k, c) (clients w) -> sessionToken c <> Some tok ->
          JsMap.get k (clients w') = Some c)
    /\ (forall cid',
          unsubscribeFromEvent env tok e cid' w
          = unsubscribeFromEvent env tok e cid w).
Proof.
  intros env tok e cid w Hdb Hnd w'. unfold w'.
  rewrite (unsubscribeFromEvent_run env tok e cid w Hdb Hnd).
  simpl fst. simpl snd. simpl clients. simpl subs.
  split; [reflexivity|].
  split; [intros r; apply In_deleteMany_event|].
  split; [|split].
  - intros k c Hin Htok. apply has_token_true in Htok.
    rewrite (get_touch _ _ _ k c Hnd Hin), Htok.
    split; [reflexivity|]. split; [apply cached_cache_remove|].
    rewrite cached_cache_remove. intros H. exact (filter_out_absent _ _ H).
  - intros k c Hin Htok. rewrite (get_touch _ _ _ k c Hnd Hin).
    destruct (has_token tok c) eqn:E; [|reflexivity].
    apply has_token_true in E. contradiction.
  - intros cid'. apply (unsubscribeFromEvent_run env tok e cid' w Hdb Hnd).
Qed.

Lemma unsubscribeFromEvent_effect_witness :
  JsMap.get "c1"
    (clients (snd (unsubscribeFromEvent Scenario.calm "tokA" "demo-event" None
                     (mkWorld [("c1", Cases.c1_cached)] []
                              [mkSubscription "tokA" "demo-event" (Some "zz")] []))))
  = Some (cache_remove "demo-event" Cases.c1_cached)
  /\ subs (snd (unsubscribeFromEvent Scenario.calm "tokA" "demo-event" None
                  (mkWorld [("c1", Cases.c1_cached)] []
                           [mkSubscription "tokA" "demo-event" (Some "zz")] [])))
     = [].
Proof.
  assert (Hnd : NoDup (JsMap.keys [("c1", Cases.c1_cached)])).
  { simpl. repeat constructor; simpl; intuition discriminate. }
  pose proof (unsubscribeFromEvent_effect Scenario.calm "tokA" "demo-event" None
                (mkWorld [("c1", Cases.c1_cached)] []
                         [mkSubscription "tokA" "demo-event" (Some "zz")] [])
                eq_refl Hnd) as H.
  cbv zeta in H. destruct H as [_ [_ [H3 _]]].
  split; [|reflexivity].
  apply (H3 "c1" Cases.c1_cached); [left; reflexivity | reflexivity].
Defined.

(** X14: [subscribeToEvent] followed by [unsubscribeFromEvent] for the same
    session and event, with the store available, on a map with unique
    keys: every live client of the session ends with its former cache
    minus that event name (so a cache that did not hold the name has its
    former contents, and one that already held it has lost it); its other
    fields, and every other client, are as before. *)
Theorem subscribe_then_unsubscribe_caches :
  forall env tok e cid cid' w,
    (forall tr call, db_fails env tr call = None) ->
    NoDup (JsMap.keys (clients w)) ->
    let w2 := snd (unsubscribeFromEvent env tok e cid'
                     (snd (subscribeToEvent env tok e cid w))) in
    (forall k c, In (k, c) (clients w) -> sessionToken c = Some tok ->
       exists c',
         JsMap.get k (clients w2) = Some c'
         /\ cached c' = filter (fun sub => negb (String.eqb sub e)) (cached c)
         /\ (~ In e (cached c) -> cached c' = cached c)
         /\ id c' = id c /\ res c' = res c
         /\ sessionToken c' = sessionToken c /\ lastPing c' = lastPing c
         /\ userAgent c' = userAgent c /\ ipAddress c' = ipAddress c)
    /\ (forall k c, In (k, c) (clients w) -> sessionToken c <> Some tok ->
          JsMap.get k (clients w2) = Some c).
Proof.
  intros env tok e cid cid' w Hdb Hnd w2. unfold w2.
  rewrite (subscribeToEvent_run env tok e cid w (Hdb _ _) Hnd). simpl snd.
  rewrite unsubscribeFromEvent_run;
    [| apply Hdb | simpl; rewrite keys_touch; exact Hnd].
  simpl snd. simpl clients. rewrite map_map.
  assert (G : forall k c, In (k, c) (clients w) ->
    JsMap.get k
      (map (fun x => touch (has_token tok) (cache_remove e)
                       (touch (has_token tok) (cache_add e) x)) (clients w))
    = Some (if has_token tok c then cache_remove e (cache_add e c) else c)).
  { intros k c Hin. apply In_get.
    - unfold JsMap.keys. rewrite map_map.
      rewrite (map_ext _ fst); [exact Hnd|].
      intros [k0 c0]. unfold touch. simpl.
      destruct (has_token tok c0) eqn:E; simpl.
      + assert (X : has_token tok (cache_add e c0) = true) by exact E.
        rewrite X. reflexivity.
      + rewrite E. reflexivity.
    - apply in_map_iff. exists (k, c). split; [|exact Hin].
      unfold touch. simpl. destruct (has_token tok c) eqn:E; simpl.
      + assert (X : has_token tok (cache_add e c) = true) by exact E.
        rewrite X. reflexivity.
      + rewrite E. reflexivity. }
  split.
  - intros k c Hin Htok. apply has_token_true in Htok.
    exists (cache_remove e (cache_add e c)).
    rewrite (G k c Hin), Htok. split; [reflexivity|].
    assert (Hc : cached (cache_remove e (cache_add e c))
                 = filter (fun sub => negb (String.eqb sub e)) (cached c)).
    { rewrite cached_cache_remove, cached_cache_add.
      destruct (includes e (cached c)); [reflexivity|].
      apply filter_out_app_self. }
    split; [exact Hc|]. split.
    + intros Hn. rewrite Hc.
      clear -Hn. induction (cached c) as [|x l IH]; simpl; [reflexivity|].
      destruct (String.eqb_spec x e) as [->|Hne]; simpl.
      * exfalso. apply Hn. left. reflexivity.
      * f_equal. apply IH. intros H. apply Hn. right. exact H.
    + unfold cache_remove, cache_add. simpl. repeat split; reflexivity.
  - intros k c Hin Htok. rewrite (G k c Hin).
    destruct (has_token tok c) eqn:E; [|reflexivity].
    apply has_token_true in E. contradiction.
Qed.

Lemma subscribe_then_unsubscribe_caches_witness :
  JsMap.get "c0"
    (clients (snd (unsubscribeFromEvent Scenario.calm "tokA" "demo-event" None
                     (snd (subscribeToEvent Scenario.calm "tokA" "demo-event"
                             None Scenario.idle_and_c1)))))
  = Some Scenario.idle.
Proof.
  assert (Hnd : NoDup (JsMap.keys (clients Scenario.idle_and_c1))).
  { simpl. repeat constructor; simpl; intuition discriminate. }
  pose proof (subscribe_then_unsubscribe_caches Scenario.calm "tokA"
                "demo-event" None None Scenario.idle_and_c1
                (fun _ _ => eq_refl) Hnd) as H.
  cbv zeta in H. destruct H as [_ H2].
  apply (H2 "c0" Scenario.idle); [left; reflexivity | discriminate].
Defined.

(* ------------------------------------------------------------------ *)
(** ** Further properties: connecting without a session                *)
(* ------------------------------------------------------------------ *)

Lemma get_set_other {V} k k0 (v : V) m :
  k <> k0 -> JsMap.get k (JsMap.set k0 v m) = JsMap.get k m.
Proof.
  intros Hne. induction m as [|[k1 v1] m IH]; simpl.
  - destruct (String.eqb_spec k k0); [contradiction | reflexivity].
  - destruct (String.eqb_spec k0 k1) as [->|H01]; simpl.
    + destruct (String.eqb_spec k k1); [contradiction | reflexivity].
    + destruct (String.eqb k k1); [reflexivity | exact IH].
Qed.

(** X15: [addClient] of a client with no session token, or an empty one,
    in any environment: nobody is evicted.  The client is stored under its
    id, replacing in place whatever client was stored under that id; every
    other entry is as before; and [end()] is called on no connection, not
    even on that of a replaced client.  Only the session upsert and log
    entries are recorded. *)
Theorem addClient_without_session :
  forall env c w,
    truthy (sessionToken c) = false ->
    fst (addClient env c w) = Normal tt
    /\ clients (snd (addClient env c w)) = JsMap.set (id c) c (clients w)
    /\ JsMap.get (id c) (clients (snd (addClient env c w))) = Some c
    /\ (forall k, k <> id c ->
          JsMap.get k (clients (snd (addClient env c w)))
          = JsMap.get k (clients w))
    /\ Forall silent (events_since w (snd (addClient env c w))).
Proof.
  intros env c w Hf.
  set (w1 := set_clients (JsMap.set (id c) c (clients w)) w).
  set (msg := "[SSEManager] Client connected: " ++ id c ++ " (Session: "
              ++ or_else (sessionToken c) "anonymous" ++ ")").
  assert (E : addClient env c w
              = (Normal tt,
                 add_event (EvLog msg) (snd (updateSession env c w1)))).
  { rewrite addClient_unfold, Hf.
    unfold bind at 1, ret. unfold bind at 1, modify_clients. fold w1.
    unfold bind.
    rewrite (run_total (updateSession env c) w1 (updateSession_total env c)).
    reflexivity. }
  rewrite E. simpl fst. simpl snd.
  destruct (updateSession_silent env c w1) as [evs [Ht Hs]].
  pose proof (updateSession_keeps_clients env c w1) as Kc. unfold keeps in Kc.
  simpl clients. rewrite Kc. unfold w1 at 1 2 3. simpl clients.
  split; [reflexivity|]. split; [reflexivity|].
  split; [apply get_set_same|].
  split; [intros k Hne; apply get_set_other, Hne|].
  rewrite (events_since_app w _ (evs ++ [EvLog msg])%list).
  - apply Forall_app. split; [exact Hs | repeat constructor].
  - simpl. rewrite Ht. unfold w1. simpl. rewrite <- app_assoc. reflexivity.
Qed.

Lemma addClient_without_session_witness :
  clients (snd (addClient Scenario.calm Cases.guest Scenario.only_c1))
  = [("c1", Cases.guest)]
  /\ Forall silent
       (events_since Scenario.only_c1
          (snd (addClient Scenario.calm Cases.guest Scenario.only_c1))).
Proof.
  destruct (addClient_without_session Scenario.calm Cases.guest
              Scenario.only_c1 eq_refl) as [_ [H2 [_ [_ H5]]]].
  split; [exact H2 | exact H5].
Defined.

(* ------------------------------------------------------------------ *)
(** ** Further properties: reading the session cookie                  *)
(* ------------------------------------------------------------------ *)

Section StringFacts.
Import JsString.

Lemma str_app_assoc (a b c : string) : ((a ++ b) ++ c = a ++ (b ++ c))%string.
Proof. induction a as [|x a IH]; simpl; [reflexivity | rewrite IH; reflexivity]. Qed.

Lemma str_app_nil_r (a : string) : (a ++ EmptyString = a)%string.
Proof. induction a as [|x a IH]; simpl; [reflexivity | rewrite IH; reflexivity]. Qed.

Lemma contains_app c a b :
  contains c (a ++ b) = contains c a || contains c b.
Proof.
  induction a as [|x a IH]; simpl; [reflexivity|].
  rewrite IH. apply orb_assoc.
Qed.

Lemma split_not_nil sep s : split sep s <> [].
Proof.
  destruct s as [|c s]; simpl; [discriminate|].
  destruct (Ascii.eqb c sep); [discriminate|].
  destruct (split sep s); discriminate.
Qed.

Lemma split_no_sep sep s : contains sep s = false -> split sep s = [s].
Proof.
  induction s as [|c s IH]; simpl; [reflexivity|].
  intros H. apply orb_false_iff in H. destruct H as [Hc Hs].
  rewrite Hc, (IH Hs). reflexivity.
Qed.

Lemma split_at_sep sep a b :
  contains sep a = false ->
  split sep (a ++ String sep b) = a :: split sep b.
Proof.
  induction a as [|c a IH]; simpl.
  - intros _. rewrite Ascii.eqb_refl. reflexivity.
  - intros H. apply orb_false_iff in H. destruct H as [Hc Ha].
    rewrite Hc, (IH Ha). reflexivity.
Qed.

Lemma split_pieces_no_sep sep s :
  Forall (fun p => contains sep p = false) (split sep s).
Proof.
  induction s as [|c s IH]; simpl; [repeat constructor|].
  destruct (Ascii.eqb c sep) eqn:E; [constructor; [reflexivity | exact IH]|].
  destruct (split sep s) as [|p ps]; [repeat constructor; simpl; rewrite E; reflexivity|].
  inversion IH; subst. constructor; [simpl; rewrite E; assumption | assumption].
Qed.

Lemma split_pieces_sub sep c s :
  contains c s = false ->
  Forall (fun p => contains c p = false) (split sep s).
Proof.
  induction s as [|x s IH]; simpl; [repeat constructor|].
  intros H. apply orb_false_iff in H. destruct H as [Hx Hs].
  specialize (IH Hs).
  destruct (Ascii.eqb x sep); [constructor; [reflexivity | exact IH]|].
  destruct (split sep s) as [|p ps];
    [repeat constructor; simpl; rewrite Hx; reflexivity|].
  inversion IH; subst. constructor; [simpl; rewrite Hx; assumption | assumption].
Qed.

Lemma contains_trimStart c s :
  contains c s = false -> contains c (trimStart s) = false.
Proof.
  induction s as [|x s IH]; simpl; [reflexivity|].
  intros H. destruct (is_space x); [|exact H].
  apply orb_false_iff in H. apply IH, H.
Qed.

Lemma contains_trimEnd c s :
  contains c s = false -> contains c (trimEnd s) = false.
Proof.
  induction s as [|x s IH]; simpl; [reflexivity|].
  intros H. apply orb_false_iff in H. destruct H as [Hx Hs].
  specialize (IH Hs). destruct (trimEnd s) as [|y r].
  - destruct (is_space x); simpl; [reflexivity | rewrite Hx; reflexivity].
  - simpl in *. rewrite Hx. exact IH.
Qed.

Lemma contains_trim c s : contains c s = false -> contains c (trim s) = false.
Proof. intros H. apply contains_trimEnd, contains_trimStart, H. Qed.

Lemma all_space_contains c s :
  is_space c = false -> all_space s = true -> contains c s = false.
Proof.
  intros Hc. induction s as [|x s IH]; simpl; [reflexivity|].
  intros H. apply andb_true_iff in H. destruct H as [Hx Hs].
  rewrite (IH Hs), orb_false_r.
  destruct (Ascii.eqb_spec x c); [congruence | reflexivity].
Qed.

Lemma trimStart_pad pad s :
  all_space pad = true -> trimStart (pad ++ s) = trimStart s.
Proof.
  induction pad as [|x pad IH]; simpl; [reflexivity|].
  intros H. apply andb_true_iff in H. destruct H as [Hx Hp].
  rewrite Hx. apply IH, Hp.
Qed.

Lemma trimStart_all_space pad : all_space pad = true -> trimStart pad = EmptyString.
Proof.
  induction pad as [|x pad IH]; simpl; [reflexivity|].
  intros H. apply andb_true_iff in H. destruct H as [Hx Hp].
  rewrite Hx. apply IH, Hp.
Qed.

Lemma length_trimStart s : (String.length (trimStart s) <= String.length s)%nat.
Proof.
  induction s as [|x s IH]; simpl; [lia|].
  destruct (is_space x); simpl; lia.
Qed.

Lemma trimStart_fixed s :
  trimStart s = s ->
  s = EmptyString \/ exists c r, s = String c r /\ is_space c = false.
Proof.
  destruct s as [|c r]; [auto|]. simpl. intros H. right.
  destruct (is_space c) eqn:E; [|eauto].
  pose proof (length_trimStart r) as L. rewrite H in L. simpl in L. lia.
Qed.

Lemma trimStart_head c r :
  is_space c = false -> trimStart (String c r) = String c r.
Proof. intros H. simpl. rewrite H. reflexivity. Qed.

Lemma trimEnd_all_space pad : all_space pad = true -> trimEnd pad = EmptyString.
Proof.
  induction pad as [|x pad IH]; simpl; [reflexivity|].
  intros H. apply andb_true_iff in H. destruct H as [Hx Hp].
  rewrite (IH Hp), Hx. reflexivity.
Qed.

Lemma trimEnd_pad s pad :
  all_space pad = true -> trimEnd (s ++ pad) = trimEnd s.
Proof.
  intros Hp. induction s as [|x s IH]; simpl.
  - apply trimEnd_all_space, Hp.
  - rewrite IH. reflexivity.
Qed.

Lemma trimEnd_app_nonempty a b :
  trimEnd b <> EmptyString -> trimEnd (a ++ b) = (a ++ trimEnd b)%string.
Proof.
  intros Hb. induction a as [|x a IH]; simpl; [reflexivity|].
  rewrite IH. destruct (a ++ trimEnd b)%string eqn:E; [|reflexivity].
  exfalso. destruct a; simpl in E; [contradiction | discriminate].
Qed.

Lemma trimEnd_nonspace_head c r :
  is_space c = false -> trimEnd (String c r) = String c (trimEnd r).
Proof.
  intros H. simpl. destruct (trimEnd r); [rewrite H|]; reflexivity.
Qed.

End StringFacts.

Section CookieFacts.
Import JsString.

Lemma plain_spec s :
  plain s = true <-> contains ";" s = false /\ contains "=" s = false.
Proof.
  unfold plain. rewrite andb_true_iff, !negb_true_iff. tauto.
Qed.

Lemma loop_skips name before l :
  Forall (fun s => cookie_name s <> name) before ->
  getCookieValue_loop (before ++ l) name = getCookieValue_loop l name.
Proof.
  induction 1 as [|s before Hs _ IH]; simpl; [reflexivity|].
  unfold cookie_name in Hs.
  destruct (split "=" (trim s)) as [|n ps]; [exact IH|]. simpl in Hs.
  destruct (String.eqb_spec n name); [contradiction | exact IH].
Qed.

Lemma split_pieces_then before tail :
  Forall (fun s => contains ";" s = false) before ->
  split ";" (pieces_then before tail) = (before ++ split ";" tail)%list.
Proof.
  induction 1 as [|s before Hs _ IH]; simpl; [reflexivity|].
  rewrite (split_at_sep ";" s _ Hs), IH. reflexivity.
Qed.

Lemma split_piece_and_rest piece rest :
  contains ";" piece = false ->
  rest = EmptyString \/ (exists r, rest = String ";" r) ->
  exists more, split ";" (piece ++ rest) = piece :: more.
Proof.
  intros Hp [->|[r ->]].
  - rewrite str_app_nil_r, (split_no_sep _ _ Hp). eauto.
  - rewrite (split_at_sep _ _ _ Hp). eauto.
Qed.

Lemma contains_pieces_then c before tail :
  contains c tail = true -> contains c (pieces_then before tail) = true.
Proof.
  intros H. induction before as [|s before IH]; simpl; [exact H|].
  rewrite contains_app. simpl. rewrite IH, !orb_true_r. reflexivity.
Qed.

Lemma contains_nonempty c s :
  contains c s = true -> String.eqb s EmptyString = false.
Proof. destruct s; [discriminate | reflexivity]. Qed.

Lemma trimStart_named name r :
  trimStart name = name ->
  trimStart (name ++ String "=" r) = (name ++ String "=" r)%string.
Proof.
  intros H. destruct (trimStart_fixed name H) as [->|[c [r0 [-> Hc]]]].
  - reflexivity.
  - simpl. rewrite Hc. reflexivity.
Qed.

(** The pieces [getCookieValue] gets from a well-formed [name=value]
    piece, with white space around it or a further [=...] after it. *)
Lemma piece_splits pad name value tail :
  all_space pad = true ->
  plain name = true -> plain value = true ->
  trimStart name = name -> trimEnd value = value ->
  all_space tail = true \/ (exists junk, tail = String "=" junk) ->
  exists more,
    split "=" (trim (pad ++ name ++ String "=" (value ++ tail)))
    = name :: value :: more.
Proof.
  intros Hpad Hn Hv Tn Tv Htail.
  apply plain_spec in Hn. destruct Hn as [_ Hn].
  apply plain_spec in Hv. destruct Hv as [_ Hv].
  unfold trim. rewrite (trimStart_pad _ _ Hpad), (trimStart_named _ _ Tn).
  rewrite trimEnd_app_nonempty
    by (rewrite trimEnd_nonspace_head by reflexivity; discriminate).
  rewrite trimEnd_nonspace_head by reflexivity.
  destruct Htail as [Ht|[junk ->]].
  - rewrite (trimEnd_pad _ _ Ht), Tv.
    rewrite (split_at_sep "=" name _ Hn), (split_no_sep _ _ Hv). eauto.
  - rewrite trimEnd_app_nonempty
      by (rewrite trimEnd_nonspace_head by reflexivity; discriminate).
    rewrite trimEnd_nonspace_head by reflexivity.
    rewrite (split_at_sep "=" name _ Hn), (split_at_sep "=" value _ Hv). eauto.
Qed.

Lemma loop_plain name cookies v :
  Forall (fun s => contains ";" s = false) cookies ->
  getCookieValue_loop cookies name = Some v ->
  plain v = true /\ plain name = true.
Proof.
  induction 1 as [|s cookies Hs _ IH]; simpl; [discriminate|].
  pose proof (split_pieces_no_sep "=" (trim s)) as Heq.
  pose proof (split_pieces_sub "=" ";" (trim s) (contains_trim _ _ Hs)) as Hsemi.
  destruct (split "=" (trim s)) as [|n ps]; [exact IH|].
  destruct (String.eqb_spec n name) as [->|Hne]; [|exact IH].
  destruct ps as [|v0 ps']; [discriminate|]. intros [= <-].
  inversion Heq as [|? ? E1 E2]; subst. inversion E2 as [|? ? E3 _]; subst.
  inversion Hsemi as [|? ? S1 S2]; subst. inversion S2 as [|? ? S3 _]; subst.
  split; apply plain_spec; auto.
Qed.

End CookieFacts.

(** X16: whatever the header, a value returned by [getCookieValue]
    contains neither [;] nor [=], and a value is only ever returned for a
    name that contains neither: a cookie value with an [=] in it comes back
    cut at that [=]. *)
Theorem getCookieValue_value_is_plain :
  forall header name value,
    getCookieValue header name = Some value ->
    plain value = true /\ plain name = true.
Proof.
  intros [h|] name value; simpl; [|discriminate].
  destruct (String.eqb h EmptyString); [discriminate|].
  apply loop_plain. apply split_pieces_no_sep.
Qed.

Lemma getCookieValue_value_is_plain_witness :
  getCookieValue (Some "a=1; authjs.session-token=abc=def ; b=2")
                 "authjs.session-token"
  = Some "abc"
  /\ plain "abc" = true.
Proof.
  assert (H : getCookieValue (Some "a=1; authjs.session-token=abc=def ; b=2")
                             "authjs.session-token" = Some "abc")
    by reflexivity.
  split; [exact H|].
  exact (proj1 (getCookieValue_value_is_plain _ _ _ H)).
Defined.

(** X17: lookup after insert.  Take a header made of pieces that contain
    no [;] and are not named [name], then a piece [name=value] with white
    space before it and, after it, either white space or a further [=...],
    then nothing or [;] and anything at all.  If [name] and [value] contain
    neither [;] nor [=], [name] does not start and [value] does not end
    with white space, [getCookieValue] returns exactly [value]: the first
    piece with that name decides, and what follows a second [=] is
    dropped. *)
Theorem getCookieValue_finds_first :
  forall before pad name value tail rest,
    Forall (fun s => JsString.contains ";" s = false) before ->
    Forall (fun s => cookie_name s <> name) before ->
    all_space pad = true ->
    plain name = true -> plain value = true ->
    JsString.trimStart name = name -> JsString.trimEnd value = value ->
    all_space tail = true \/ (exists junk, tail = String "=" junk) ->
    JsString.contains ";" tail = false ->
    rest = EmptyString \/ (exists r, rest = String ";" r) ->
    getCookieValue
      (Some (pieces_then before
               ((pad ++ name ++ String "=" (value ++ tail)) ++ rest)))
      name
    = Some value.
Proof.
  intros before pad name value tail rest Hb1 Hb2 Hpad Hn Hv Tn Tv Htail Hsemi Hrest.
  assert (Hpiece : JsString.contains ";" (pad ++ name ++ String "=" (value ++ tail))
                   = false).
  { apply plain_spec in Hn. apply plain_spec in Hv.
    rewrite !contains_app. simpl. rewrite contains_app.
    rewrite (all_space_contains ";" pad eq_refl Hpad).
    destruct Hn as [-> _]. destruct Hv as [-> _]. rewrite Hsemi. reflexivity. }
  unfold getCookieValue.
  rewrite (contains_nonempty "=").
  2:{ apply contains_pieces_then. rewrite !contains_app. simpl.
      rewrite !orb_true_r. reflexivity. }
  rewrite (split_pieces_then _ _ Hb1), (loop_skips _ _ _ Hb2).
  destruct (split_piece_and_rest _ rest Hpiece Hrest) as [more ->].
  simpl.
  destruct (piece_splits pad name value tail Hpad Hn Hv Tn Tv Htail)
    as [more' ->].
  rewrite String.eqb_refl. reflexivity.
Qed.

Lemma getCookieValue_finds_first_witness :
  getCookieValue
    (Some (pieces_then ["theme=dark"]
             ((" " ++ "authjs.session-token" ++ String "=" ("abc" ++ "=="))
              ++ "; authjs.session-token=later")))
    "authjs.session-token"
  = Some "abc".
Proof.
  apply (getCookieValue_finds_first ["theme=dark"] " " "authjs.session-token"
           "abc" "==" "; authjs.session-token=later").
  - repeat constructor.
  - repeat constructor. vm_compute. discriminate.
  - reflexivity.
  - reflexivity.
  - reflexivity.
  - reflexivity.
  - reflexivity.
  - right. exists "=". reflexivity.
  - reflexivity.
  - right. exists " authjs.session-token=later". reflexivity.
Defined.

(** X18: a piece that carries the name but no [=] hides every later piece
    of that name.  Take pieces without [;] that are not named [name], then
    [name] alone with white space around it, then nothing or [;] and
    anything at all, including [name=value]: [getCookieValue] returns
    [null]. *)
Theorem getCookieValue_valueless_piece_shadows :
  forall before pad1 name pad2 rest,
    Forall (fun s => JsString.contains ";" s = false) before ->
    Forall (fun s => cookie_name s <> name) before ->
    all_space pad1 = true -> all_space pad2 = true ->
    plain name = true ->
    JsString.trimStart name = name -> JsString.trimEnd name = name ->
    rest = EmptyString \/ (exists r, rest = String ";" r) ->
    getCookieValue
      (Some (pieces_then before ((pad1 ++ name ++ pad2) ++ rest))) name
    = None.
Proof.
  intros before pad1 name pad2 rest Hb1 Hb2 H1 H2 Hn Ts Te Hrest.
  unfold getCookieValue.
  destruct (String.eqb _ EmptyString); [reflexivity|].
  assert (Hpiece : JsString.contains ";" (pad1 ++ name ++ pad2) = false).
  { apply plain_spec in Hn. rewrite !contains_app.
    rewrite (all_space_contains ";" pad1 eq_refl H1),
            (all_space_contains ";" pad2 eq_refl H2).
    destruct Hn as [-> _]. reflexivity. }
  rewrite (split_pieces_then _ _ Hb1), (loop_skips _ _ _ Hb2).
  destruct (split_piece_and_rest _ rest Hpiece Hrest) as [more ->].
  simpl.
  assert (Htrim : JsString.trim (pad1 ++ name ++ pad2) = name).
  { unfold JsString.trim. rewrite (trimStart_pad _ _ H1).
    destruct (trimStart_fixed name Ts) as [->|[c [r [-> Hc]]]].
    - simpl. rewrite (trimStart_all_space _ H2). reflexivity.
    - change (String c r ++ pad2)%string with (String c (r ++ pad2)).
      rewrite (trimStart_head _ _ Hc).
      change (String c (r ++ pad2)) with (String c r ++ pad2)%string.
      rewrite (trimEnd_pad _ _ H2). exact Te. }
  rewrite Htrim.
  apply plain_spec in Hn. destruct Hn as [_ Hn].
  rewrite (split_no_sep _ _ Hn), String.eqb_refl. reflexivity.
Qed.

Lemma getCookieValue_valueless_piece_shadows_witness :
  getCookieValue
    (Some (pieces_then ["a=1"] ((" " ++ "tok" ++ " ") ++ ";tok=abc"))) "tok"
  = None.
Proof.
  apply (getCookieValue_valueless_piece_shadows ["a=1"] " " "tok" " " ";tok=abc").
  - repeat constructor.
  - repeat constructor. vm_compute. discriminate.
  - reflexivity.
  - reflexivity.
  - reflexivity.
  - reflexivity.
  - reflexivity.
  - right. exists "tok=abc". reflexivity.
Defined.
